(** * goose: version resolution, planning and application of migrations

    A shallow embedding of [lib/goose/migrate.go] (and of the runner for
    code migrations, [runGoMigration]) together with the properties of the
    engine that the specification states, followed by [OpenDBFromDBConf]
    of [lib/goose/dbconf.go], the command [upRun] and further properties
    read off the code.

    Conventions of the embedding.
    - [int64] values are [Z].  The engine never does arithmetic on versions,
      it only compares them; [strconv.ParseInt] is the single place where the
      64-bit range matters and its range check is written out.
    - Go strings are byte strings: [string], scanned as [list ascii].
    - [time.Time] is an instant, counted from Go's zero [Time] (the value of
      an uninitialised [TStamp] field).
    - A slice of [*Migration] is a list of records; where the source mutates
      the records through a second alias (the map [mm] in
      [getMigrationsStatus]) the list plays the role of the store and the
      position in the list is the pointer.
    - [log.Fatal]/[log.Fatalf] and [panic] do not return: functions that may
      reach them return an [Outcome].
    - The progress lines written with [fmt.Printf]/[fmt.Println] are not part
      of the model. *)

From stdpp Require Import gmap strings list fin_maps sorting.
From Stdlib Require Import ZArith Ascii String DecimalString.

Local Open Scope Z_scope.

(** ** Values, errors and outcomes *)

(** Operands handed to [fmt] and to [database/sql], and Go [error] values.
    An error built by [errors.New], [fmt.Errorf] or
    [errors.New(fmt.Sprintf(...))] is kept as its format and operands; the
    two package-level sentinels are compared by identity in the source and
    are constructors of their own. *)
Inductive value : Type :=
| VInt (n : Z)
| VBool (b : bool)
| VString (s : string)
| VError (e : error)
with error : Type :=
| ErrTableDoesNotExist
| ErrNoPreviousVersion
| Errorf (format : string) (operands : list value)
| NumError (fn num : string) (rangeErr : bool)
| ForeignError (msg : string).

(** [err == ErrTableDoesNotExist] *)
Definition isErrTableDoesNotExist (e : error) : bool :=
  match e with
  | ErrTableDoesNotExist => true
  | _ => false
  end.

(** What a call can do: return, leave through [log.Fatal]/[log.Fatalf]
    (message printed, process exits with status 1), or panic. *)
Inductive Outcome (A : Type) : Type :=
| Return (a : A)
| Fatal (operands : list value)
| Fatalf (format : string) (operands : list value)
| Panicked (v : string).

Arguments Return {A} a.
Arguments Fatal {A} operands.
Arguments Fatalf {A} format operands.
Arguments Panicked {A} v.

Definition obind {A B : Type} (o : Outcome A) (k : A -> Outcome B) : Outcome B :=
  match o with
  | Return a => k a
  | Fatal ops => Fatal ops
  | Fatalf f ops => Fatalf f ops
  | Panicked v => Panicked v
  end.

(** ** The parts of [path/filepath], [strings] and [strconv] the engine uses

    Unix conventions: the separator is the slash and there is no volume
    name. *)
Module Go.

Definition IsPathSeparator (c : ascii) : bool := Ascii.eqb c "/".

Fixpoint dropSeparators (r : list ascii) : list ascii :=
  match r with
  | c :: r' => if IsPathSeparator c then dropSeparators r' else r
  | [] => []
  end.

(** The bytes after the last separator, read from the reversed path. *)
Fixpoint lastElement (r acc : list ascii) : list ascii :=
  match r with
  | c :: r' => if IsPathSeparator c then acc else lastElement r' (c :: acc)
  | [] => acc
  end.

(** [filepath.Base] *)
Definition Base (path : string) : string :=
  match list_ascii_of_string path with
  | [] => "."
  | p =>
      match lastElement (dropSeparators (rev p)) [] with
      | [] => "/"
      | b => string_of_list_ascii b
      end
  end.

(** The loop of [filepath.Ext], from the last byte backwards. *)
Fixpoint extFrom (r acc : list ascii) : list ascii :=
  match r with
  | c :: r' =>
      if IsPathSeparator c then []
      else if Ascii.eqb c "." then c :: acc
      else extFrom r' (c :: acc)
  | [] => []
  end.

(** [filepath.Ext] *)
Definition Ext (path : string) : string :=
  string_of_list_ascii (extFrom (rev (list_ascii_of_string path)) []).

(** [strings.Index(s, string(c))] for a one-byte separator. *)
Fixpoint indexByte (s : list ascii) (c : ascii) : Z :=
  match s with
  | x :: s' =>
      if Ascii.eqb x c then 0
      else let i := indexByte s' c in if i <? 0 then -1 else i + 1
  | [] => -1
  end.

Definition Index (s : string) (c : ascii) : Z :=
  indexByte (list_ascii_of_string s) c.

(** [s[:idx]] for [0 <= idx <= len(s)]. *)
Definition slice_to (s : string) (idx : Z) : string :=
  string_of_list_ascii (take (Z.to_nat idx) (list_ascii_of_string s)).

Definition digit (c : ascii) : option Z :=
  let n := Z.of_nat (nat_of_ascii c) in
  if (48 <=? n) && (n <=? 57) then Some (n - 48) else None.

(** The digit loop of [strconv.ParseUint(s, 10, 64)]: [inl] is the value,
    [inr b] a failure, [b] telling a range error from a syntax error. *)
Fixpoint parseDigits (s : list ascii) (n : Z) : Z + bool :=
  match s with
  | [] => inl n
  | c :: s' =>
      match digit c with
      | None => inr false
      | Some d =>
          let n1 := n * 10 + d in
          if 2 ^ 64 <=? n1 then inr true else parseDigits s' n1
      end
  end.

(** [strconv.ParseInt(s, 10, 64)]: the value and the error, as the pair
    Go returns. *)
Definition ParseInt (s : string) : Z * option error :=
  let syntaxErr := (0, Some (NumError "ParseInt" s false)) in
  match list_ascii_of_string s with
  | [] => syntaxErr
  | c :: rest =>
      let neg := Ascii.eqb c "-" in
      let digits := if Ascii.eqb c "+" || neg then rest else c :: rest in
      match digits with
      | [] => syntaxErr
      | _ =>
          match parseDigits digits 0 with
          | inr false => syntaxErr
          | inr true =>
              (if neg then - 2 ^ 63 else 2 ^ 63 - 1,
               Some (NumError "ParseInt" s true))
          | inl un =>
              if negb neg && (2 ^ 63 <=? un)
              then (2 ^ 63 - 1, Some (NumError "ParseInt" s true))
              else if neg && (2 ^ 63 <? un)
              then (- 2 ^ 63, Some (NumError "ParseInt" s true))
              else (if neg then - un else un, None)
          end
      end
  end.

Fixpoint splitOn (sep : ascii) (s cur : list ascii) : list (list ascii) :=
  match s with
  | [] => [rev cur]
  | c :: s' =>
      if Ascii.eqb c sep then rev cur :: splitOn sep s' []
      else splitOn sep s' (c :: cur)
  end.

Definition dotdot : list ascii := ["."; "."]%char.

(** The element pass of [filepath.Clean]; [stack] holds the elements kept
    so far, last one first. *)
Fixpoint cleanElements (rooted : bool) (elems stack : list (list ascii))
  : list (list ascii) :=
  match elems with
  | [] => rev stack
  | e :: elems' =>
      if bool_decide (e = []) || bool_decide (e = ["."]%char)
      then cleanElements rooted elems' stack
      else if bool_decide (e = dotdot)
      then match stack with
           | top :: stack' =>
               if bool_decide (top = dotdot)
               then cleanElements rooted elems' (e :: stack)
               else cleanElements rooted elems' stack'
           | [] =>
               if rooted then cleanElements rooted elems' stack
               else cleanElements rooted elems' [e]
           end
      else cleanElements rooted elems' (e :: stack)
  end.

Fixpoint joinWith (sep : ascii) (elems : list (list ascii)) : list ascii :=
  match elems with
  | [] => []
  | [e] => e
  | e :: elems' => e ++ sep :: joinWith sep elems'
  end.

(** [filepath.Clean] *)
Definition Clean (path : string) : string :=
  match list_ascii_of_string path with
  | [] => "."
  | (c :: _) as p =>
      let rooted := IsPathSeparator c in
      let body := joinWith "/" (cleanElements rooted (splitOn "/" p []) []) in
      match rooted, body with
      | true, _ => string_of_list_ascii ("/"%char :: body)
      | false, [] => "."
      | false, _ => string_of_list_ascii body
      end
  end.

(** [filepath.Join] *)
Fixpoint Join (elem : list string) : string :=
  match elem with
  | [] => ""
  | e :: elem' =>
      if bool_decide (e = "") then Join elem'
      else Clean (string_of_list_ascii
                    (joinWith "/" (list_ascii_of_string <$> elem)))
  end.

End Go.

(** ** Data model *)

(** [type Direction bool] *)
Definition Direction : Type := bool.
Definition DirectionDown : Direction := false.
Definition DirectionUp : Direction := true.

Definition Direction_String (d : Direction) : string :=
  if d then "up" else "down".

(** [time.Time], as the distance of the instant from the zero [Time]. *)
Abbreviation Time := Z (only parsing).
Definition zeroTime : Time := 0.

(** [t.After(u)] *)
Definition After (t u : Time) : bool := u <? t.

(** [type Migration struct]; the same struct receives the scanned columns of
    a row of the version table. *)
Record Migration : Type := mkMigration {
  Version : Z;
  IsApplied : bool;
  TStamp : Time;
  Source : string
}.

#[global] Instance Migration_eq_dec : EqDecision Migration.
Proof. solve_decision. Defined.

(** [&Migration{Version: v, Source: name}] *)
Definition newMigration (v : Z) (name : string) : Migration :=
  mkMigration v false zeroTime name.

(** What [rows.Next()]/[rows.Scan(&row.Version, &row.IsApplied, &row.TStamp)]
    deliver for one row of the history query. *)
Inductive Fetch : Type :=
| Scanned (row : Migration)
| ScanError (e : error).

(** A row of the version table as the scan leaves it in [var row Migration]. *)
Definition ledgerRow (version : Z) (applied : bool) (tstamp : Time) : Migration :=
  mkMigration version applied tstamp "".

(** [rows, err := conf.Driver.Dialect.dbVersionQuery(db)] *)
Inductive QueryResult : Type :=
| QueryRows (rows : list Fetch)
| QueryError (err : error).

(** One call of the walk function of [filepath.Walk]: the path (which has
    the walked root as a prefix) and [info.IsDir()]. *)
Record WalkEntry : Type := mkEntry {
  path : string;
  isDir : bool
}.

(** ** Discovery *)

(** [NumericComponent] *)
Definition NumericComponent (name : string) : Z * option error :=
  let base := Go.Base name in
  let ext := Go.Ext base in
  if negb (bool_decide (ext = ".go")) && negb (bool_decide (ext = ".sql"))
  then (0, Some (Errorf "not a recognized migration file type" []))
  else
    let idx := Go.Index base "_" in
    if idx <? 0
    then (0, Some (Errorf "no separator found" []))
    else
      match Go.ParseInt (Go.slice_to base idx) with
      | (n, None) =>
          if n <=? 0
          then (0, Some (Errorf "migration IDs must be greater than zero" []))
          else (n, None)
      | (n, Some e) => (n, Some e)
      end.

Definition duplicateVersionFormat : string :=
  "more than one file specifies the migration for version %d (%s and %s)".

(** The walk of [CollectMigrations] over the visited entries; [m] is the
    slice collected so far. *)
Fixpoint collectWalk (dirpath : string) (tree : list WalkEntry)
    (m : list Migration) : Outcome (list Migration) :=
  match tree with
  | [] => Return m
  | entry :: tree' =>
      match NumericComponent (path entry) with
      | (v, None) =>
          match find (fun g => v =? Version g) m with
          | Some g =>
              Fatalf duplicateVersionFormat
                [VInt v; VString (Source g);
                 VString (Go.Join [dirpath; path entry])]
          | None =>
              collectWalk dirpath tree' (m ++ [newMigration v (path entry)])
          end
      | (_, Some _) => collectWalk dirpath tree' m
      end
  end.

(** [CollectMigrations]; [tree] is what [filepath.Walk(dirpath, ...)] visits,
    in its order. *)
Definition CollectMigrations (dirpath : string) (tree : list WalkEntry)
  : Outcome (list Migration * option error) :=
  obind (collectWalk dirpath tree []) (fun m => Return (m, None)).

(** The migration an entry stands for, when [NumericComponent] accepts its
    name; [collected tree] lists them in the order of the walk. *)
Definition unitOf (entry : WalkEntry) : option Migration :=
  match NumericComponent (path entry) with
  | (v, None) => Some (newMigration v (path entry))
  | (_, Some _) => None
  end.

Definition collected (tree : list WalkEntry) : list Migration := omap unitOf tree.

(** One call of a walk function with the [info] that [filepath.Walk] hands
    over.  It is nil when [os.Lstat] failed on the path, which is what
    happens at a root that does not exist and at an entry that is gone when
    the walk comes to it; the call then carries the error of [Lstat].
    [visitInfo] is [info.IsDir()] of an [info] that is not nil.
    [CollectMigrations] does not look at [info], and
    [GetMostRecentDBVersion] returns on the error of the call before it
    does; [GetPreviousDBVersion] calls [info.IsDir()] first. *)
Record WalkVisit : Type := mkVisit {
  visitPath : string;
  visitInfo : option bool
}.

(** The call for an entry on which [os.Lstat] succeeded. *)
Definition visitOf (entry : WalkEntry) : WalkVisit :=
  mkVisit (path entry) (Some (isDir entry)).

(** The entries of the calls that have an [info]. *)
Definition statted (visits : list WalkVisit) : list WalkEntry :=
  omap (fun visit => mkEntry (visitPath visit) <$> visitInfo visit) visits.

(** What the Go runtime panics with on a method call through a nil
    interface value. *)
Definition nilInfoPanic : string :=
  "runtime error: invalid memory address or nil pointer dereference".

(** The walk function of [GetPreviousDBVersion] on
    [(previous, sawGivenVersion)]: [info.IsDir()] is its first step, with
    no test of [info] or of [walkerr] before it. *)
Definition previousStep (version : Z) (st : Z * bool) (visit : WalkVisit)
  : Outcome (Z * bool) :=
  let '(previous, sawGivenVersion) := st in
  match visitInfo visit with
  | None => Panicked nilInfoPanic
  | Some dir =>
      if dir then Return st
      else
        match NumericComponent (visitPath visit) with
        | (v, None) =>
            Return (if (previous <? v) && (v <? version) then v else previous,
                    if v =? version then true else sawGivenVersion)
        | (_, Some _) => Return st
        end
  end.

(** The walk of [GetPreviousDBVersion]: the function always returns nil, so
    the walk goes through every call, unless one panics. *)
Fixpoint previousWalk (version : Z) (visits : list WalkVisit) (st : Z * bool)
  : Outcome (Z * bool) :=
  match visits with
  | [] => Return st
  | visit :: visits' =>
      obind (previousStep version st visit) (previousWalk version visits')
  end.

(** The walk function of [GetPreviousDBVersion] for a file of version [v]. *)
Definition previousOf (version : Z) (st : Z * bool) (v : Z) : Z * bool :=
  (if (fst st <? v) && (v <? version) then v else fst st,
   if v =? version then true else snd st).

(** [GetPreviousDBVersion]; [visits] are the calls [filepath.Walk] makes. *)
Definition GetPreviousDBVersion (visits : list WalkVisit) (version : Z)
  : Outcome (Z * option error) :=
  obind (previousWalk version visits (-1, false))
    (fun '(previous, sawGivenVersion) =>
       if previous =? -1
       then if sawGivenVersion then Return (0, None)
            else Return (previous, Some ErrNoPreviousVersion)
       else Return (previous, None)).

(** The versions of the migration files of a directory: the entries that are
    not directories and whose name [NumericComponent] accepts. *)
Definition fileVersions (tree : list WalkEntry) : list Z :=
  omap (fun entry =>
          if isDir entry then None
          else match NumericComponent (path entry) with
               | (v, None) => Some v
               | (_, Some _) => None
               end) tree.

(** ** Reading the version ledger *)

(** The body of the row loop of [EnsureDBVersion] for one scanned row:
    [inl v] is [return row.Version, nil], [inr toSkip'] goes on to the next
    row with the skip list [toSkip']. *)
Definition versionStep (toSkip : list Z) (row : Migration) : Z + list Z :=
  if existsb (fun v => v =? Version row) toSkip then inr toSkip
  else if IsApplied row then inl (Version row)
  else inr (toSkip ++ [Version row]).

(** The row loop of [EnsureDBVersion] and the [panic] behind it. *)
Fixpoint versionLoop (toSkip : list Z) (rows : list Fetch) : Outcome Z :=
  match rows with
  | [] => Panicked "failure in EnsureDBVersion()"
  | ScanError e :: _ => Fatal [VString "error scanning rows:"; VError e]
  | Scanned row :: rows' =>
      match versionStep toSkip row with
      | inl v => Return v
      | inr toSkip' => versionLoop toSkip' rows'
      end
  end.

(** The skip list the loop holds after the rows [rows], when it has not
    returned on one of them. *)
Fixpoint toSkipAfter (toSkip : list Z) (rows : list Migration) : option (list Z) :=
  match rows with
  | [] => Some toSkip
  | row :: rows' =>
      match versionStep toSkip row with
      | inl _ => None
      | inr toSkip' => toSkipAfter toSkip' rows'
      end
  end.

(** [mm[m.Version] = m] for the migrations from position [i] on; the
    pointer is the position in the slice. *)
Fixpoint indexMigrations (i : nat) (migrations : list Migration)
    (mm : gmap Z nat) : gmap Z nat :=
  match migrations with
  | [] => mm
  | m :: migrations' => indexMigrations (S i) migrations' (<[Version m := i]> mm)
  end.

(** [m.IsApplied = false] *)
Definition clearApplied (m : Migration) : Migration :=
  mkMigration (Version m) false (TStamp m) (Source m).

(** The body of the row loop of [getMigrationsStatus] for one scanned row,
    on the store [heap] of the migrations. *)
Definition statusStep (mm : gmap Z nat) (heap : list Migration) (row : Migration)
  : list Migration :=
  match mm !! Version row with
  | None => heap
  | Some p =>
      match heap !! p with
      | None => heap
      | Some m =>
          if negb (After (TStamp row) (TStamp m)) then heap
          else <[p := mkMigration (Version m) (IsApplied row) (TStamp row) (Source m)]> heap
      end
  end.

Fixpoint statusLoop (mm : gmap Z nat) (heap : list Migration) (rows : list Fetch)
  : Outcome (list Migration) :=
  match rows with
  | [] => Return heap
  | ScanError e :: _ => Fatal [VString "error scanning rows:"; VError e]
  | Scanned row :: rows' => statusLoop mm (statusStep mm heap row) rows'
  end.

(** [getMigrationsStatus], on the answer [q] of the history query: the
    returned error and the migrations as the call leaves them. *)
Definition getMigrationsStatus (q : QueryResult) (migrations : list Migration)
  : Outcome (option error * list Migration) :=
  match q with
  | QueryError err =>
      if isErrTableDoesNotExist err
      then Return (None, clearApplied <$> migrations)
      else Return (Some (Errorf "getting db version: %s" [VError err]), migrations)
  | QueryRows rows =>
      obind (statusLoop (indexMigrations 0 migrations ∅)
                        (clearApplied <$> migrations) rows)
            (fun heap => Return (None, heap))
  end.

(** What the row loop of [getMigrationsStatus] does to the fields
    [(IsApplied, TStamp)] of the migration of version [v], row by row. *)
Definition keepRow (v : Z) (kept : bool * Time) (row : Migration) : bool * Time :=
  if (Version row =? v) && After (TStamp row) (snd kept)
  then (IsApplied row, TStamp row)
  else kept.

Definition keptAfter (v : Z) (kept : bool * Time) (rows : list Migration)
  : bool * Time :=
  fold_left (keepRow v) rows kept.

(** The migration [m] after the rows [rows]. *)
Definition resolveUnit (rows : list Migration) (m : Migration) : Migration :=
  let kept := keptAfter (Version m) (IsApplied m, TStamp m) rows in
  mkMigration (Version m) (fst kept) (snd kept) (Source m).

(** The map [mm] holds exactly the versions of the store, each with its
    position. *)
Definition indexed (mm : gmap Z nat) (heap : list Migration) : Prop :=
  forall v p, mm !! v = Some p <-> exists m, heap !! p = Some m /\ Version m = v.

(** ** Planning *)

(** [direction := DirectionUp; if target < current { direction = DirectionDown }] *)
Definition chooseDirection (current target : Z) : Direction :=
  if target <? current then DirectionDown else DirectionUp.

(** The two [continue] tests of the selection loop, negated. *)
Definition isNeeded (direction : Direction) (target : Z) (m : Migration) : bool :=
  if direction
  then negb (target <? Version m) && negb (IsApplied m)
  else negb (Version m <? target) && IsApplied m.

Definition neededMigrations (direction : Direction) (target : Z)
    (migrations : list Migration) : list Migration :=
  List.filter (isNeeded direction target) migrations.

(** [migrationSorter.Less], and [Less] of [sort.Reverse]. *)
Definition Less (a b : Migration) : bool := Version a <? Version b.
Definition ReverseLess (a b : Migration) : bool := Less b a.

(** [sort.Sort] promises an ordered rearrangement and no stability; it is
    taken here as its insertion sort, which is what it runs on short
    slices.  The properties below use only that the result is ordered and
    is a rearrangement. *)
Fixpoint insertBy (less : Migration -> Migration -> bool) (x : Migration)
    (l : list Migration) : list Migration :=
  match l with
  | [] => [x]
  | y :: l' => if less x y then x :: y :: l' else y :: insertBy less x l'
  end.

Definition sortBy (less : Migration -> Migration -> bool) (l : list Migration)
  : list Migration :=
  fold_left (fun sorted x => insertBy less x sorted) l [].

(** Lines 95 to 133 of [RunMigrationsOnDb]: the direction and the ordered
    work list. *)
Definition planMigrations (current target : Z) (migrations : list Migration)
  : Direction * list Migration :=
  let direction := chooseDirection current target in
  let needed := neededMigrations direction target migrations in
  (direction,
   match needed with
   | [] => []
   | _ => if direction then sortBy Less needed else sortBy ReverseLess needed
   end).

Definition ascending (a b : Migration) : Prop := Version a <= Version b.
Definition descending (a b : Migration) : Prop := Version b <= Version a.

(** ** The database and the collaborators *)

(** A statement handed to [Exec] with its operands.  The database is seen
    through the statements committed so far, oldest first. *)
Definition Statement : Type := string * list value.
Definition DB : Type := list Statement.

(** [SqlDialect]: the interface is declared outside the files at hand, its
    three methods are the ones the engine calls. *)
Record SqlDialect : Type := mkDialect {
  createVersionTableSql : string;
  insertVersionSql : string;
  dbVersionQuery : DB -> QueryResult
}.

Record DBDriver : Type := mkDriver {
  Name : string;
  OpenStr : string;
  Import : string;
  Dialect : SqlDialect
}.

Record DBConf : Type := mkConf {
  MigrationsDir : string;
  Env : string;
  Driver : DBDriver
}.

(** How the database server answers [db.Begin()], [txn.Exec(...)] (given the
    statements pending in the transaction) and [txn.Commit()]. *)
Record SqlServer : Type := mkServer {
  onBegin : DB -> option error;
  onExec : DB -> list Statement -> Statement -> option error;
  onCommit : DB -> list Statement -> option error
}.

(** A call that works on the database: its outcome and the database it
    leaves. *)
Definition Run (A : Type) : Type := DB -> Outcome A * DB.

Definition ret {A : Type} (a : A) : Run A := fun db => (Return a, db).

Definition bind {A B : Type} (r : Run A) (k : A -> Run B) : Run B :=
  fun db =>
    match r db with
    | (Return a, db') => k a db'
    | (Fatal ops, db') => (Fatal ops, db')
    | (Fatalf f ops, db') => (Fatalf f ops, db')
    | (Panicked v, db') => (Panicked v, db')
    end.

Definition lift {A : Type} (o : Outcome A) : Run A := fun db => (o, db).

Notation "x <- r ;; k" := (bind r (fun x => k))
  (at level 100, r at next level, right associativity).

(** [createVersionTable]: a rolled back or uncommitted transaction leaves
    the database as it was. *)
Definition createVersionTable (srv : SqlServer) (conf : DBConf) : Run (option error) :=
  fun db =>
    let d := Dialect (Driver conf) in
    match onBegin srv db with
    | Some err => (Return (Some err), db)
    | None =>
        let create : Statement := (createVersionTableSql d, []) in
        match onExec srv db [] create with
        | Some err =>
            (Return (Some (Errorf "creating migration table: %s" [VError err])), db)
        | None =>
            let insert : Statement := (insertVersionSql d, [VInt 0; VBool true]) in
            match onExec srv db [create] insert with
            | Some err =>
                (Return (Some (Errorf "inserting first migration: %s" [VError err])), db)
            | None =>
                match onCommit srv db [create; insert] with
                | Some err => (Return (Some err), db)
                | None => (Return None, db ++ [create; insert])
                end
            end
        end
    end.

(** [EnsureDBVersion]: the pair [(version, err)] it returns. *)
Definition EnsureDBVersion (srv : SqlServer) (conf : DBConf) : Run (Z * option error) :=
  fun db =>
    match dbVersionQuery (Dialect (Driver conf)) db with
    | QueryError err =>
        if isErrTableDoesNotExist err
        then (err' <- createVersionTable srv conf ;; ret (0, err')) db
        else (Return (0, Some (Errorf "getting db version: %#v" [VError err])), db)
    | QueryRows rows =>
        (v <- lift (versionLoop [] rows) ;; ret (v, None)) db
    end.

(** [FinalizeMigration], for a transaction with the statements [pending]. *)
Definition FinalizeMigration (srv : SqlServer) (conf : DBConf)
    (pending : list Statement) (direction : Direction) (v : Z) : Run (option error) :=
  fun db =>
    let stmt : Statement :=
      (insertVersionSql (Dialect (Driver conf)), [VInt v; VBool direction]) in
    match onExec srv db pending stmt with
    | Some err => (Return (Some err), db)
    | None =>
        match onCommit srv db (pending ++ [stmt]) with
        | Some err => (Return (Some err), db)
        | None => (Return None, db ++ pending ++ [stmt])
        end
    end.

(** What [runGoMigration] relies on outside the package: the temporary
    directory, the gob encoding of the configuration, the two files written
    and the child process [go run], which works on the same database. *)
Record GoToolchain : Type := mkToolchain {
  TempDir : option error;
  gobEncode : DBConf -> option error;
  writeTemplateToFile : option error;
  copyFile : string -> option error;
  goRun : DBConf -> string -> Z -> bool -> DB -> option error * DB
}.

(** [runGoMigration] *)
Definition runGoMigration (tc : GoToolchain) (conf : DBConf) (path : string)
    (version : Z) (direction : bool) : Run (option error) :=
  fun db =>
    match TempDir tc with
    | Some e => (Fatal [VError e], db)
    | None =>
        match gobEncode tc conf with
        | Some err => (Return (Some err), db)
        | None =>
            match writeTemplateToFile tc with
            | Some e => (Fatal [VError e], db)
            | None =>
                match copyFile tc path with
                | Some e => (Fatal [VError e], db)
                | None =>
                    match goRun tc conf path version direction db with
                    | (Some e, db') => (Fatal [VString "`go run` failed: "; VError e], db')
                    | (None, db') => (Return None, db')
                    end
                end
            end
        end
    end.

(** The statements of a unit, executed in turn inside its transaction: the
    error of the first one that fails. *)
Fixpoint execAll (srv : SqlServer) (db : DB) (pending stmts : list Statement)
  : option error :=
  match stmts with
  | [] => None
  | stmt :: stmts' =>
      match onExec srv db pending stmt with
      | Some err => Some err
      | None => execAll srv db (pending ++ [stmt]) stmts'
      end
  end.

(** Modelled from the spec: [runSQLMigration] is not among the files at
    hand.  Section 4.6: the statements of the section of the script that
    matches the direction run in one transaction; a failing statement rolls
    the transaction back and fails the unit; on success one ledger record is
    committed together with the unit's statements.  [script] gives the
    statements of a script for a direction. *)
Definition runSQLMigrationSpec (srv : SqlServer)
    (script : string -> Direction -> list Statement)
    (conf : DBConf) (path : string) (v : Z) (direction : Direction)
  : Run (option error) :=
  fun db =>
    match onBegin srv db with
    | Some err => (Return (Some err), db)
    | None =>
        let stmts := script path direction in
        match execAll srv db [] stmts with
        | Some err => (Return (Some err), db)
        | None => FinalizeMigration srv conf stmts direction v db
        end
    end.

(** ** Applying the plan *)

Section Engine.

(** The collaborators of a run: the database server, what
    [filepath.Walk] visits under a directory, the Go toolchain, and
    [runSQLMigration], which is declared outside the files at hand. *)
Variable srv : SqlServer.
Variable walk : string -> list WalkEntry.
Variable tc : GoToolchain.
Variable runSQLMigration : DBConf -> string -> Z -> Direction -> Run (option error).

(** The [switch filepath.Ext(m.Source)] of the application loop.  When no
    case matches, [err] keeps its value, which is [nil] at this point. *)
Definition runMigration (conf : DBConf) (direction : Direction) (m : Migration)
  : Run (option error) :=
  let ext := Go.Ext (Source m) in
  if bool_decide (ext = ".go")
  then runGoMigration tc conf (Source m) (Version m) direction
  else if bool_decide (ext = ".sql")
  then runSQLMigration conf (Source m) (Version m) direction
  else ret None.

(** Lines 135 to 150 of [RunMigrationsOnDb]: the application loop. *)
Fixpoint applyMigrations (conf : DBConf) (direction : Direction)
    (ms : list Migration) : Run (option error) :=
  match ms with
  | [] => ret None
  | m :: ms' =>
      err <- runMigration conf direction m ;;
      match err with
      | Some e => ret (Some (Errorf "FAIL %v, quitting migration" [VError e]))
      | None => applyMigrations conf direction ms'
      end
  end.

(** [RunMigrationsOnDb] *)
Definition RunMigrationsOnDb (conf : DBConf) (migrationsDir : string)
    (target : Z) : Run (option error) :=
  r <- EnsureDBVersion srv conf ;;
  match r with
  | (_, Some err) => ret (Some err)
  | (current, None) =>
      c <- lift (CollectMigrations migrationsDir (walk migrationsDir)) ;;
      match c with
      | (_, Some err) => ret (Some err)
      | (migrations, None) =>
          fun db =>
            (s <- lift (getMigrationsStatus
                          (dbVersionQuery (Dialect (Driver conf)) db) migrations) ;;
             match s with
             | (Some err, _) => ret (Some err)
             | (None, migrations') =>
                 let '(direction, ms) := planMigrations current target migrations' in
                 match ms with
                 | [] => ret None
                 | _ => applyMigrations conf direction ms
                 end
             end) db
      end
  end.

End Engine.

(** ** A dialect and sample collaborators *)

(** Modelled from the spec: the dialects ([dialect.go]) are not among the
    files at hand.  Section 4.1: the history query gives the ledger records
    ordered by [id] descending, most recent insert first, and fails with
    [TableDoesNotExist] when the ledger table is absent; the insert
    statement takes [(version, is_applied)] and the engine defaults the
    timestamp.  The clock used for the default is the position of the
    statement in the commit log. *)
Fixpoint ledgerRows (insertSql : string) (clock : Z) (db : DB) (newer : list Fetch)
  : list Fetch :=
  match db with
  | [] => newer
  | (sql, [VInt v; VBool applied]) :: db' =>
      if bool_decide (sql = insertSql)
      then ledgerRows insertSql (clock + 1) db' (Scanned (ledgerRow v applied clock) :: newer)
      else ledgerRows insertSql (clock + 1) db' newer
  | _ :: db' => ledgerRows insertSql (clock + 1) db' newer
  end.

Definition historyQuery (createSql insertSql : string) (db : DB) : QueryResult :=
  if existsb (fun stmt : Statement => bool_decide (fst stmt = createSql)) db
  then QueryRows (ledgerRows insertSql 1 db [])
  else QueryError ErrTableDoesNotExist.

Definition specDialect : SqlDialect :=
  let createSql := "CREATE TABLE goose_db_version (id, version_id, is_applied, tstamp)" in
  let insertSql := "INSERT INTO goose_db_version (version_id, is_applied) VALUES (?, ?)" in
  mkDialect createSql insertSql (historyQuery createSql insertSql).

Definition sampleConf : DBConf :=
  mkConf "m" "development" (mkDriver "sqlite3" ":memory:" "github.com/mattn/go-sqlite3" specDialect).

(** A server that refuses the statements that touch the table [missing]. *)
Definition sampleServer : SqlServer :=
  mkServer (fun _ => None)
           (fun _ _ stmt =>
              if bool_decide (fst stmt = "INSERT INTO missing VALUES (1)")
              then Some (ForeignError "no such table: missing") else None)
           (fun _ _ => None).

(** A server on which the version table cannot be created. *)
Definition readOnlyServer : SqlServer :=
  mkServer (fun _ => None)
           (fun _ _ stmt =>
              if bool_decide (fst stmt = createVersionTableSql specDialect)
              then Some (ForeignError "permission denied") else None)
           (fun _ _ => None).

(** Three SQL units; the up section of the second one fails. *)
Definition sampleWalk (dirpath : string) : list WalkEntry :=
  [mkEntry dirpath true;
   mkEntry (Go.Join [dirpath; "1_setup.sql"]) false;
   mkEntry (Go.Join [dirpath; "2_one.sql"]) false;
   mkEntry (Go.Join [dirpath; "3_two.sql"]) false].

Definition sampleScript (path : string) (direction : Direction) : list Statement :=
  if bool_decide (path = "m/1_setup.sql")
  then [(if direction then "CREATE TABLE test (value)" else "DROP TABLE test", [])]
  else if bool_decide (path = "m/2_one.sql")
  then [(if direction then "INSERT INTO missing VALUES (1)" else "DELETE FROM test", [])]
  else [(if direction then "INSERT INTO test VALUES (2)" else "DELETE FROM test", [])].

(** A toolchain on which everything works and the child process records
    its ledger row. *)
Definition sampleToolchain : GoToolchain :=
  mkToolchain None (fun _ => None) None (fun _ => None)
    (fun conf _ version direction db =>
       (None, db ++ [(insertVersionSql (Dialect (Driver conf)),
                      [VInt version; VBool direction])])).

(** The configuration [newDBDriver] builds for the driver name "redshift",
    and a toolchain for it: [init] registers the Postgres, MySql and
    Sqlite3 dialects with gob and not the Redshift one, so the encoding of
    the configuration fails, whatever the migration. *)
Definition redshiftConf : DBConf :=
  mkConf "a" "production"
    (mkDriver "postgres" "host=warehouse" "github.com/lib/pq" specDialect).

Definition unregisteredToolchain : GoToolchain :=
  mkToolchain None
    (fun _ => Some (ForeignError "gob: type not registered for interface: goose.RedshiftDialect"))
    None (fun _ => None)
    (fun _ _ _ _ db => (None, db)).

(** Two directories, each with one code migration. *)
Definition codeWalk (dirpath : string) : list WalkEntry :=
  if bool_decide (dirpath = "a")
  then [mkEntry "a" true; mkEntry "a/1_first.go" false]
  else [mkEntry dirpath true; mkEntry (Go.Join [dirpath; "2_second.go"]) false].

(** A ledger: version 2 applied and reverted, version 1 applied. *)
Definition sampleLedger : DB :=
  [(createVersionTableSql specDialect, []);
   (insertVersionSql specDialect, [VInt 0; VBool true]);
   (insertVersionSql specDialect, [VInt 1; VBool true]);
   (insertVersionSql specDialect, [VInt 2; VBool true]);
   (insertVersionSql specDialect, [VInt 2; VBool false])].

Definition sampleHistory : list Migration :=
  [ledgerRow 2 false 5; ledgerRow 2 true 4; ledgerRow 1 true 3; ledgerRow 0 true 2].

Definition sampleUnits : list Migration :=
  [newMigration 1 "m/1_setup.sql"; newMigration 2 "m/2_one.sql";
   newMigration 3 "m/3_two.sql"].

(** ** The rest of the package and the commands *)

(** One call of the walk function of [filepath.Walk] with its third
    argument, the error met on the way to the entry.  The walk ends at the
    first call for which the function returns an error. *)
Definition WalkCall : Type := WalkEntry * option error.

(** The walk function of [GetMostRecentDBVersion]: [inl walkerr] is
    [return walkerr], [inr version'] is [return nil] with the version held
    then. *)
Definition mostRecentStep (version : Z) (call : WalkCall) : error + Z :=
  match snd call with
  | Some walkerr => inl walkerr
  | None =>
      if isDir (fst call) then inr version
      else
        match NumericComponent (path (fst call)) with
        | (v, None) => inr (if version <? v then v else version)
        | (_, Some _) => inr version
        end
  end.

Fixpoint mostRecentWalk (calls : list WalkCall) (version : Z) : Z :=
  match calls with
  | [] => version
  | call :: calls' =>
      match mostRecentStep version call with
      | inl _ => version
      | inr version' => mostRecentWalk calls' version'
      end
  end.

(** [GetMostRecentDBVersion]; the error [filepath.Walk] returns is dropped. *)
Definition GetMostRecentDBVersion (calls : list WalkCall) : Z * option error :=
  let version := mostRecentWalk calls (-1) in
  if version =? -1
  then (version, Some (Errorf "no valid version found" []))
  else (version, None).

(** The calls a walk makes before the first one that carries an error. *)
Fixpoint beforeWalkError (calls : list WalkCall) : list WalkEntry :=
  match calls with
  | (entry, None) :: calls' => entry :: beforeWalkError calls'
  | _ => []
  end.

(** [migrationSorter]: [Len], [Swap] and [Less] by index; an index outside
    the slice panics. *)
Definition sorterAt (ms : list Migration) (i : Z) : option Migration :=
  if i <? 0 then None else ms !! Z.to_nat i.

Definition migrationSorter_Len (ms : list Migration) : Z := Z.of_nat (List.length ms).

Definition migrationSorter_Swap (ms : list Migration) (i j : Z)
  : Outcome (list Migration) :=
  match sorterAt ms i, sorterAt ms j with
  | Some a, Some b => Return (<[Z.to_nat j := a]> (<[Z.to_nat i := b]> ms))
  | _, _ => Panicked "runtime error: index out of range"
  end.

Definition migrationSorter_Less (ms : list Migration) (i j : Z) : Outcome bool :=
  match sorterAt ms i, sorterAt ms j with
  | Some a, Some b => Return (Less a b)
  | _, _ => Panicked "runtime error: index out of range"
  end.

(** [s[i:]] for [0 <= i <= len(s)]. *)
Definition slice_from (s : string) (i : Z) : string :=
  string_of_list_ascii (drop (Z.to_nat i) (list_ascii_of_string s)).

(** A byte string cut at the first occurrence of a byte: what is before it
    and, when it occurs, what is after it. *)
Fixpoint cutAt (c : ascii) (l : list ascii) : list ascii * option (list ascii) :=
  match l with
  | [] => ([], None)
  | x :: l' =>
      if Ascii.eqb x c then ([], Some l')
      else let '(before, after) := cutAt c l' in (x :: before, after)
  end.

(** A byte string without a path separator. *)
Definition noSeparator (l : list ascii) : Prop :=
  Forall (fun c => Go.IsPathSeparator c = false) l.

(** The two templates [CreateMigration] chooses from. *)
Inductive Template : Type :=
| sqlMigrationTemplate
| goMigrationTemplate.

(** The file name and the path [CreateMigration] builds from the formatted
    timestamp. *)
Definition migrationFileName (timestamp name migrationType : string) : string :=
  timestamp +:+ "_" +:+ name +:+ "." +:+ migrationType.

Section Commands.

(** What the commands rely on outside the files at hand:
    [t.Format("20060102150405")], [writeTemplateToFile], the pieces of
    [net/url] used on a DSN, [sql.Open], and, for a run, the collaborators
    of the engine with the calls of the walk of a directory. *)
Variable formatTimestamp : Time -> string.
Variable writeTemplateToFile : string -> Template -> string -> string * option error.
Context {Values : Type}.
Variable ParseQuery : string -> Values * option error.
Variable Values_Set : Values -> string -> string -> Values.
Variable Values_Encode : Values -> string.
Variable sqlOpen : string -> string -> option error.
Variable srv : SqlServer.
Variable walkCalls : string -> list WalkCall.
Variable tc : GoToolchain.
Variable runSQLMigration : DBConf -> string -> Z -> Direction -> Run (option error).

(** [CreateMigration] *)
Definition CreateMigration (name migrationType dir : string) (t : Time)
  : string * option error :=
  if negb (bool_decide (migrationType = "go")) && negb (bool_decide (migrationType = "sql"))
  then ("", Some (Errorf "migration type must be 'go' or 'sql'" []))
  else
    let timestamp := formatTimestamp t in
    let filename := migrationFileName timestamp name migrationType in
    let fpath := Go.Join [dir; filename] in
    let tmpl := if bool_decide (migrationType = "sql")
                then sqlMigrationTemplate else goMigrationTemplate in
    writeTemplateToFile fpath tmpl timestamp.

(** [conf.Driver.OpenStr = s] *)
Definition setOpenStr (conf : DBConf) (s : string) : DBConf :=
  mkConf (MigrationsDir conf) (Env conf)
    (mkDriver (Name (Driver conf)) s (Import (Driver conf)) (Dialect (Driver conf))).

(** [OpenDBFromDBConf]: the configuration as the call leaves it (it is
    handed over by pointer) and the error of the call. *)
Definition OpenDBFromDBConf (conf : DBConf) : DBConf * option error :=
  if bool_decide (Name (Driver conf) = "mysql")
  then
    let s := OpenStr (Driver conf) in
    let i := Go.Index s "?" in
    let '(i, s) :=
      if i =? -1 then (Z.of_nat (String.length s), s +:+ "?") else (i, s) in
    let i := i + 1 in
    match ParseQuery (slice_from s i) with
    | (_, Some err) => (setOpenStr conf s, Some err)
    | (q, None) =>
        let s' := Go.slice_to s i +:+ Values_Encode (Values_Set q "parseTime" "true") in
        (setOpenStr conf s', sqlOpen (Name (Driver conf)) s')
    end
  else (conf, sqlOpen (Name (Driver conf)) (OpenStr (Driver conf))).

(** What the visited entries of a directory are for the functions that do
    not look at the error of a call. *)
Definition walkOf (dirpath : string) : list WalkEntry := fst <$> walkCalls dirpath.

(** [GetDBVersion], with the configuration as it leaves it. *)
Definition GetDBVersion (conf : DBConf) : Run (DBConf * (Z * option error)) :=
  match OpenDBFromDBConf conf with
  | (conf', Some err) => ret (conf', (-1, Some err))
  | (conf', None) =>
      r <- EnsureDBVersion srv conf' ;;
      match r with
      | (_, Some err) => ret (conf', (-1, Some err))
      | (version, None) => ret (conf', (version, None))
      end
  end.

(** [RunMigrations], with the configuration as it leaves it. *)
Definition RunMigrations (conf : DBConf) (migrationsDir : string) (target : Z)
  : Run (DBConf * option error) :=
  match OpenDBFromDBConf conf with
  | (conf', Some err) => ret (conf', Some err)
  | (conf', None) =>
      err <- RunMigrationsOnDb srv walkOf tc runSQLMigration conf' migrationsDir target ;;
      ret (conf', err)
  end.

(** [upRun], from the configuration [dbConfFromFlags] gives (that function
    is not among the files at hand): [log.Fatal] for a returned error. *)
Definition upRun (conf : DBConf) : Run unit :=
  match GetMostRecentDBVersion (walkCalls (MigrationsDir conf)) with
  | (_, Some err) => lift (Fatal [VError err])
  | (target, None) =>
      r <- RunMigrations conf (MigrationsDir conf) target ;;
      match r with
      | (_, Some err) => lift (Fatal [VError err])
      | (_, None) => ret tt
      end
  end.

End Commands.

(** ** Sample collaborators of the commands *)

(** A stand-in for [net/url]: the query is kept as its text, and a key is
    set by adding it at the end. *)
Definition sampleParseQuery (s : string) : string * option error := (s, None).

Definition sampleSet (q key value : string) : string :=
  if bool_decide (q = "") then key +:+ "=" +:+ value
  else q +:+ "&" +:+ key +:+ "=" +:+ value.

Definition sampleEncode (q : string) : string := q.

Definition sampleOpen (driverName dsn : string) : option error := None.

(** The sample directory, walked without errors. *)
Definition sampleCalls (dirpath : string) : list WalkCall :=
  (fun entry => (entry, None)) <$> sampleWalk dirpath.

(** A clock whose instants are the numbers yyyymmddhhmmss. *)
Definition sampleFormat (t : Time) : string := NilZero.string_of_int (Z.to_int t).

Definition sampleWrite (fpath : string) (tmpl : Template) (timestamp : string)
  : string * option error := (fpath, None).

Definition mysqlConf : DBConf :=
  mkConf "m" "development"
    (mkDriver "mysql" "user@/db?charset=utf8" "github.com/go-sql-driver/mysql" specDialect).

(** A directory in which two files give version 1. *)
Definition duplicateWalk (dirpath : string) : list WalkEntry :=
  [mkEntry dirpath true;
   mkEntry (Go.Join [dirpath; "01_b.go"]) false;
   mkEntry (Go.Join [dirpath; "1_a.sql"]) false].

(** The sample ledger after migration 3 and a migration 5 that the
    directory does not have, and the sample units as the status pass leaves
    them on it. *)
Definition aheadLedger : DB :=
  sampleLedger ++ [(insertVersionSql specDialect, [VInt 3; VBool true]);
                   (insertVersionSql specDialect, [VInt 5; VBool true])].

Definition aheadStatus : list Migration :=
  [mkMigration 1 true 3 "m/1_setup.sql"; mkMigration 2 false 5 "m/2_one.sql";
   mkMigration 3 true 6 "m/3_two.sql"].

(** The sample units as the status pass leaves them on the sample ledger. *)
Definition sampleStatus : list Migration :=
  [mkMigration 1 true 3 "m/1_setup.sql"; mkMigration 2 false 5 "m/2_one.sql";
   newMigration 3 "m/3_two.sql"].

(** * Properties *)

(** ** Current-version resolution *)

Lemma skip_test (toSkip : list Z) (a : Z) :
  existsb (fun v => v =? a) toSkip = true <-> a ∈ toSkip.
Proof.
  rewrite existsb_exists. split.
  - intros (v & Hin & Heq). apply Z.eqb_eq in Heq. subst v.
    by apply list_elem_of_In.
  - intros Hin. exists a. split; [by apply list_elem_of_In | apply Z.eqb_refl].
Qed.

Lemma versionStep_cases (toSkip : list Z) (row : Migration) :
  ((Version row ∈ toSkip) /\ versionStep toSkip row = inr toSkip)
  \/ ((Version row ∉ toSkip) /\ IsApplied row = true
      /\ versionStep toSkip row = inl (Version row))
  \/ ((Version row ∉ toSkip) /\ IsApplied row = false
      /\ versionStep toSkip row = inr (toSkip ++ [Version row])).
Proof.
  unfold versionStep.
  destruct (existsb _ toSkip) eqn:Hex.
  - left. split; [by apply skip_test | done].
  - right.
    assert (Version row ∉ toSkip) as Hnot.
    { intros Hin. apply skip_test in Hin. congruence. }
    destruct (IsApplied row); [left | right]; done.
Qed.

(** Every applied record of [pre] has a version that is in [toSkip] or that
    an earlier record of [pre] carries. *)
Definition noFreshApplied (toSkip : list Z) (pre : list Migration) : Prop :=
  forall i r, pre !! i = Some r -> IsApplied r = true ->
    (Version r ∈ toSkip) \/ (Version r ∈ (Version <$> take i pre)).

Lemma versionLoop_returns (h : list Migration) : forall (toSkip : list Z) (v : Z),
  versionLoop toSkip (Scanned <$> h) = Return v
  <-> exists pre r post,
        h = pre ++ r :: post /\ Version r = v /\ IsApplied r = true
        /\ (v ∉ toSkip) /\ (v ∉ (Version <$> pre)) /\ noFreshApplied toSkip pre.
Proof.
  induction h as [|x h IH]; intros toSkip v; simpl.
  - split; [done |]. intros (pre & r & post & Heq & _). by destruct pre.
  - destruct (versionStep_cases toSkip x) as [[Hin ->] | [(Hnot & Happ & ->) | (Hnot & Happ & ->)]].
    + rewrite IH. split.
      * intros (pre & r & post & -> & Hv & Hr & Hs & Hp & Hfresh).
        exists (x :: pre), r, post. repeat split; try done.
        { rewrite fmap_cons, not_elem_of_cons. split; [congruence | done]. }
        intros [|i] r' Hi Hr'; simpl in *.
        { left. congruence. }
        destruct (Hfresh i r' Hi Hr') as [?|?]; [by left | right].
        by apply list_elem_of_further.
      * intros (pre & r & post & Heq & Hv & Hr & Hs & Hp & Hfresh).
        destruct pre as [|y pre]; simpl in Heq; simplify_eq.
        { done. }
        exists pre, r, post. repeat split; try done.
        { rewrite fmap_cons, not_elem_of_cons in Hp. tauto. }
        intros i r' Hi Hr'.
        destruct (Hfresh (S i) r' Hi Hr') as [?|Hin']; [by left |].
        simpl in Hin'. apply elem_of_cons in Hin' as [Heq|?]; [left | by right].
        by rewrite Heq.
    + split.
      * intros [= <-]. exists [], x, h. repeat split; try done.
        simpl. apply not_elem_of_nil.
      * intros (pre & r & post & Heq & Hv & Hr & Hs & Hp & Hfresh).
        destruct pre as [|y pre]; simpl in Heq; simplify_eq; [done |].
        destruct (Hfresh 0%nat y eq_refl Happ) as [?|Hin']; [done |].
        simpl in Hin'. by apply elem_of_nil in Hin'.
    + rewrite IH. split.
      * intros (pre & r & post & -> & Hv & Hr & Hs & Hp & Hfresh).
        rewrite not_elem_of_app, not_elem_of_cons in Hs.
        exists (x :: pre), r, post. repeat split; try tauto.
        { rewrite fmap_cons, not_elem_of_cons. tauto. }
        intros [|i] r' Hi Hr'; simpl in *.
        { congruence. }
        destruct (Hfresh i r' Hi Hr') as [Hin'|?].
        -- apply elem_of_app in Hin' as [?|Hin']; [by left | right].
           apply list_elem_of_singleton in Hin'. rewrite Hin'. apply list_elem_of_here.
        -- right. by apply list_elem_of_further.
      * intros (pre & r & post & Heq & Hv & Hr & Hs & Hp & Hfresh).
        destruct pre as [|y pre]; simpl in Heq; simplify_eq; [congruence |].
        rewrite fmap_cons, not_elem_of_cons in Hp.
        exists pre, r, post. repeat split; try tauto.
        { rewrite not_elem_of_app, not_elem_of_cons. split; [done |].
          split; [tauto | apply not_elem_of_nil]. }
        intros i r' Hi Hr'.
        destruct (Hfresh (S i) r' Hi Hr') as [?|Hin'].
        -- left. apply elem_of_app. by left.
        -- simpl in Hin'. apply elem_of_cons in Hin' as [Heq|?]; [left | by right].
           rewrite Heq. apply elem_of_app. right. apply list_elem_of_here.
Qed.

Lemma toSkipAfter_members (pre : list Migration) : forall (toSkip toSkip' : list Z),
  toSkipAfter toSkip pre = Some toSkip' ->
  forall v, v ∈ toSkip' <-> (v ∈ toSkip) \/ (v ∈ (Version <$> pre)).
Proof.
  induction pre as [|x pre IH]; intros toSkip toSkip' Hafter v; simpl in *.
  - simplify_eq. rewrite elem_of_nil. tauto.
  - rewrite elem_of_cons.
    destruct (versionStep_cases toSkip x) as [[Hin Hs] | [(Hnot & Happ & Hs) | (Hnot & Happ & Hs)]];
      rewrite Hs in Hafter; [| done |].
    + rewrite (IH _ _ Hafter). split; [tauto |].
      intros [?|[-> |?]]; tauto.
    + rewrite (IH _ _ Hafter), elem_of_app, list_elem_of_singleton. tauto.
Qed.

Lemma versionLoop_after (pre : list Migration) : forall (toSkip toSkip' : list Z) (rest : list Migration),
  toSkipAfter toSkip pre = Some toSkip' ->
  versionLoop toSkip (Scanned <$> (pre ++ rest)) = versionLoop toSkip' (Scanned <$> rest).
Proof.
  induction pre as [|x pre IH]; intros toSkip toSkip' rest Hafter; simpl in *.
  - by simplify_eq.
  - destruct (versionStep toSkip x); [done |]. by apply IH.
Qed.

Lemma versionLoop_returned (pre : list Migration) : forall (toSkip : list Z) (rest : list Migration),
  toSkipAfter toSkip pre = None ->
  versionLoop toSkip (Scanned <$> (pre ++ rest)) = versionLoop toSkip (Scanned <$> pre).
Proof.
  induction pre as [|x pre IH]; intros toSkip rest Hafter; simpl in *.
  - done.
  - destruct (versionStep toSkip x); [done |]. by apply IH.
Qed.

(** A record whose version an earlier record carries leaves the loop as it
    found it. *)
Lemma versionLoop_seen_ignored (pre : list Migration) (r : Migration) (post : list Migration) :
  Version r ∈ (Version <$> pre) ->
  (forall toSkip, toSkipAfter [] pre = Some toSkip -> versionStep toSkip r = inr toSkip)
  /\ versionLoop [] (Scanned <$> (pre ++ r :: post))
     = versionLoop [] (Scanned <$> (pre ++ post)).
Proof.
  intros Hseen.
  assert (forall toSkip, toSkipAfter [] pre = Some toSkip -> versionStep toSkip r = inr toSkip)
    as Hstep.
  { intros toSkip Hafter.
    destruct (versionStep_cases toSkip r) as [[_ Hs] | [(Hnot & _) | (Hnot & _)]];
      [done | |]; exfalso; apply Hnot;
      apply (toSkipAfter_members _ _ _ Hafter); by right. }
  split; [done |].
  destruct (toSkipAfter [] pre) as [toSkip|] eqn:Hafter.
  - rewrite !(versionLoop_after _ _ _ _ Hafter). simpl. by rewrite (Hstep _ eq_refl).
  - by rewrite !(versionLoop_returned _ _ _ Hafter).
Qed.

(** Two ways of cutting one list at a record. *)
Lemma split_compare {A : Type} (l1 l2 k1 k2 : list A) (a b : A) :
  l1 ++ a :: l2 = k1 ++ b :: k2 ->
  (a ∈ k1) \/ (b ∈ l1) \/ (l1 = k1 /\ a = b).
Proof.
  revert k1. induction l1 as [|x l1 IH]; intros [|y k1] Heq; simpl in *; simplify_eq.
  - right. right. done.
  - left. apply list_elem_of_here.
  - right. left. apply list_elem_of_here.
  - destruct (IH _ H0) as [?|[?|[-> ->]]].
    + left. by apply list_elem_of_further.
    + right. left. by apply list_elem_of_further.
    + right. right. done.
Qed.

(** C1. For a history iterated newest first, [EnsureDBVersion] returns [v]
    exactly when [v] is the version of the first record that is applied and
    whose version no earlier record carries; a record whose version was seen
    earlier is ignored (the skip list and the result are as without it); a
    version whose first record is not applied is appended to the skip list
    and is not the returned version. *)
Theorem EnsureDBVersion_first_applied (srv : SqlServer) (conf : DBConf) (db : DB)
    (h : list Migration) :
  dbVersionQuery (Dialect (Driver conf)) db = QueryRows (Scanned <$> h) ->
  (forall v, EnsureDBVersion srv conf db = (Return (v, None), db)
     <-> exists pre r post,
           h = pre ++ r :: post /\ Version r = v /\ IsApplied r = true
           /\ (v ∉ (Version <$> pre))
           /\ forall i r', pre !! i = Some r' ->
                (Version r' ∈ (Version <$> take i pre)) \/ IsApplied r' = false)
  /\ (forall pre r post, h = pre ++ r :: post ->
        Version r ∈ (Version <$> pre) ->
        (forall toSkip, toSkipAfter [] pre = Some toSkip ->
           versionStep toSkip r = inr toSkip)
        /\ versionLoop [] (Scanned <$> h) = versionLoop [] (Scanned <$> (pre ++ post)))
  /\ (forall pre r post, h = pre ++ r :: post ->
        Version r ∉ (Version <$> pre) -> IsApplied r = false ->
        (forall toSkip, toSkipAfter [] pre = Some toSkip ->
           versionStep toSkip r = inr (toSkip ++ [Version r]))
        /\ forall e db', EnsureDBVersion srv conf db <> (Return (Version r, e), db')).
Proof.
  intros Hq.
  assert (forall v e db', EnsureDBVersion srv conf db = (Return (v, e), db') ->
            versionLoop [] (Scanned <$> h) = Return v) as Hloop.
  { intros v e db'. unfold EnsureDBVersion. rewrite Hq. unfold bind, lift, ret.
    destruct (versionLoop [] (Scanned <$> h)); intros Heq; by simplify_eq. }
  split; [| split].
  - intros v. split.
    + intros Hret. apply Hloop in Hret. apply versionLoop_returns in Hret.
      destruct Hret as (pre & r & post & -> & Hv & Hr & _ & Hp & Hfresh).
      exists pre, r, post. repeat split; try done.
      intros i r' Hi. destruct (IsApplied r') eqn:Hr'; [left | by right].
      destruct (Hfresh i r' Hi Hr') as [Hin|?]; [| done]. by apply elem_of_nil in Hin.
    + intros (pre & r & post & -> & Hv & Hr & Hp & Hfresh).
      unfold EnsureDBVersion. rewrite Hq. unfold bind, lift, ret.
      assert (versionLoop [] (Scanned <$> (pre ++ r :: post)) = Return v) as ->; [| done].
      apply versionLoop_returns. exists pre, r, post. repeat split; try done.
      { apply not_elem_of_nil. }
      intros i r' Hi Hr'. destruct (Hfresh i r' Hi) as [?|?]; [by right | congruence].
  - intros pre r post -> Hseen. by apply versionLoop_seen_ignored.
  - intros pre r post -> Hfresh Hr. split.
    + intros toSkip Hafter.
      destruct (versionStep_cases toSkip r) as [[Hin _] | [(_ & Happ & _) | (_ & _ & Hs)]];
        [| congruence | done].
      apply (toSkipAfter_members _ _ _ Hafter) in Hin as [Hin|?]; [| done].
      by apply elem_of_nil in Hin.
    + intros e db' Hret. apply Hloop in Hret. apply versionLoop_returns in Hret.
      destruct Hret as (pre' & r' & post' & Heq & Hv & Hr' & _ & Hp & _).
      destruct (split_compare _ _ _ _ _ _ Heq) as [Hin|[Hin|[-> ->]]].
      * apply Hp. apply list_elem_of_fmap. by exists r.
      * apply Hfresh. rewrite <- Hv. apply list_elem_of_fmap. by exists r'.
      * congruence.
Qed.

(** ** Planning *)

Section Sorting.

Variable less : Migration -> Migration -> bool.
Variable R : relation Migration.
Hypothesis less_R : forall a b, less a b = true -> R a b.
Hypothesis not_less_R : forall a b, less a b = false -> R b a.
Hypothesis R_trans : Transitive R.

Lemma insertBy_Permutation (x : Migration) (l : list Migration) :
  insertBy less x l ≡ₚ x :: l.
Proof.
  induction l as [|y l IH]; simpl; [done |].
  destruct (less x y); [done |]. rewrite IH. apply Permutation_swap.
Qed.

Lemma fold_insertBy_Permutation (l : list Migration) : forall sorted,
  fold_left (fun sorted x => insertBy less x sorted) l sorted ≡ₚ sorted ++ l.
Proof.
  induction l as [|x l IH]; intros sorted; simpl.
  - by rewrite app_nil_r.
  - rewrite IH, insertBy_Permutation. simpl. apply Permutation_middle.
Qed.

Lemma sortBy_Permutation (l : list Migration) : sortBy less l ≡ₚ l.
Proof. unfold sortBy. by rewrite fold_insertBy_Permutation. Qed.

Lemma insertBy_sorted (x : Migration) (l : list Migration) :
  StronglySorted R l -> StronglySorted R (insertBy less x l).
Proof.
  induction 1 as [|y l Hl IH Hy]; simpl.
  - repeat constructor.
  - destruct (less x y) eqn:Hxy.
    + constructor; [by constructor |].
      constructor; [by apply less_R |].
      eapply Forall_impl; [exact Hy |]. intros z Hz.
      transitivity y; [by apply less_R | done].
    + constructor; [done |].
      rewrite insertBy_Permutation. constructor; [by apply not_less_R | done].
Qed.

Lemma fold_insertBy_sorted (l : list Migration) : forall sorted,
  StronglySorted R sorted ->
  StronglySorted R (fold_left (fun sorted x => insertBy less x sorted) l sorted).
Proof.
  induction l as [|x l IH]; intros sorted Hs; simpl; [done |].
  apply IH. by apply insertBy_sorted.
Qed.

Lemma sortBy_sorted (l : list Migration) : StronglySorted R (sortBy less l).
Proof. apply fold_insertBy_sorted. constructor. Qed.

End Sorting.

Lemma sortBy_Less_ascending (l : list Migration) :
  StronglySorted ascending (sortBy Less l).
Proof.
  apply sortBy_sorted; unfold Less, ascending.
  - intros a b H. apply Z.ltb_lt in H. lia.
  - intros a b H. apply Z.ltb_ge in H. lia.
  - intros a b c. lia.
Qed.

Lemma sortBy_ReverseLess_descending (l : list Migration) :
  StronglySorted descending (sortBy ReverseLess l).
Proof.
  apply sortBy_sorted; unfold ReverseLess, Less, descending.
  - intros a b H. apply Z.ltb_lt in H. lia.
  - intros a b H. apply Z.ltb_ge in H. lia.
  - intros a b c. lia.
Qed.

(** The work list is the selection, rearranged by the sort. *)
Lemma planMigrations_selection (current target : Z) (migrations : list Migration) :
  snd (planMigrations current target migrations)
  ≡ₚ neededMigrations (chooseDirection current target) target migrations.
Proof.
  unfold planMigrations. simpl.
  destruct (neededMigrations _ _ _) as [|m ms] eqn:Hneeded; [done |].
  destruct (chooseDirection current target); apply sortBy_Permutation.
Qed.

Lemma planMigrations_sorted (current target : Z) (migrations : list Migration) :
  if fst (planMigrations current target migrations)
  then StronglySorted ascending (snd (planMigrations current target migrations))
  else StronglySorted descending (snd (planMigrations current target migrations)).
Proof.
  unfold planMigrations. simpl.
  destruct (neededMigrations _ _ _) as [|m ms] eqn:Hneeded.
  - destruct (chooseDirection current target); constructor.
  - destruct (chooseDirection current target);
      [apply sortBy_Less_ascending | apply sortBy_ReverseLess_descending].
Qed.

Lemma isNeeded_up (target : Z) (m : Migration) :
  isNeeded DirectionUp target m = true <-> Version m <= target /\ IsApplied m = false.
Proof.
  unfold isNeeded, DirectionUp.
  rewrite andb_true_iff, !negb_true_iff, Z.ltb_ge. tauto.
Qed.

Lemma isNeeded_down (target : Z) (m : Migration) :
  isNeeded DirectionDown target m = true <-> target <= Version m /\ IsApplied m = true.
Proof.
  unfold isNeeded, DirectionDown.
  rewrite andb_true_iff, !negb_true_iff, Z.ltb_ge. tauto.
Qed.

(** C2. The planner goes up exactly when the target is not below the
    current version and down otherwise; going up, the work list is a
    rearrangement of the units at or below the target that are not applied,
    in ascending order of version; going down, of the units at or above the
    target that are applied, in descending order. *)
Theorem planMigrations_direction_and_work_list (current target : Z)
    (migrations : list Migration) :
  (fst (planMigrations current target migrations) = DirectionUp <-> current <= target)
  /\ (fst (planMigrations current target migrations) = DirectionDown <-> target < current)
  /\ (fst (planMigrations current target migrations) = DirectionUp ->
        snd (planMigrations current target migrations)
        ≡ₚ List.filter (fun m => (Version m <=? target) && negb (IsApplied m)) migrations
        /\ (forall m, m ∈ snd (planMigrations current target migrations)
              <-> (m ∈ migrations) /\ Version m <= target /\ IsApplied m = false)
        /\ StronglySorted ascending (snd (planMigrations current target migrations)))
  /\ (fst (planMigrations current target migrations) = DirectionDown ->
        snd (planMigrations current target migrations)
        ≡ₚ List.filter (fun m => (target <=? Version m) && IsApplied m) migrations
        /\ (forall m, m ∈ snd (planMigrations current target migrations)
              <-> (m ∈ migrations) /\ target <= Version m /\ IsApplied m = true)
        /\ StronglySorted descending (snd (planMigrations current target migrations))).
Proof.
  pose proof (planMigrations_selection current target migrations) as Hsel.
  pose proof (planMigrations_sorted current target migrations) as Hsorted.
  assert (fst (planMigrations current target migrations) = chooseDirection current target)
    as Hdir by done.
  rewrite Hdir in *. unfold chooseDirection in *.
  destruct (target <? current) eqn:Hlt;
    [apply Z.ltb_lt in Hlt | apply Z.ltb_ge in Hlt];
    (split; [unfold DirectionUp, DirectionDown; split; (done || lia) |]);
    (split; [unfold DirectionUp, DirectionDown; split; (done || lia) |]);
    (split; [| ]); try done; intros _.
  - assert (neededMigrations DirectionDown target migrations
            = List.filter (fun m => (target <=? Version m) && IsApplied m) migrations) as Hf.
    { unfold neededMigrations. apply filter_ext. intros m. unfold isNeeded, DirectionDown.
      by rewrite Z.leb_antisym. }
    split; [by rewrite <- Hf | split; [| done]].
    intros m. rewrite Hsel. unfold neededMigrations.
    rewrite list_elem_of_In, filter_In, <- list_elem_of_In, isNeeded_down. tauto.
  - assert (neededMigrations DirectionUp target migrations
            = List.filter (fun m => (Version m <=? target) && negb (IsApplied m)) migrations) as Hf.
    { unfold neededMigrations. apply filter_ext. intros m. unfold isNeeded, DirectionUp.
      by rewrite Z.leb_antisym. }
    split; [by rewrite <- Hf | split; [| done]].
    intros m. rewrite Hsel. unfold neededMigrations.
    rewrite list_elem_of_In, filter_In, <- list_elem_of_In, isNeeded_up. tauto.
Qed.

Lemma filter_nil_iff {A : Type} (f : A -> bool) (l : list A) :
  List.filter f l = [] <-> forall x, x ∈ l -> f x = false.
Proof.
  induction l as [|y l IH]; simpl.
  - split; [| done]. intros _ x Hx. by apply elem_of_nil in Hx.
  - destruct (f y) eqn:Hy.
    + split; [done |]. intros H. specialize (H y (list_elem_of_here _ _)). congruence.
    + rewrite IH. split.
      * intros H x Hx. apply elem_of_cons in Hx as [-> |?]; [done | by apply H].
      * intros H x Hx. apply H. by apply list_elem_of_further.
Qed.

(** C7, amended. When the target equals the current version the planner
    goes up and the work list holds the units at or below the target that
    are not applied; it is empty exactly when there is no such unit. *)
Theorem planMigrations_target_is_current (v : Z) (migrations : list Migration) :
  fst (planMigrations v v migrations) = DirectionUp
  /\ snd (planMigrations v v migrations)
     ≡ₚ List.filter (fun m => (Version m <=? v) && negb (IsApplied m)) migrations
  /\ (snd (planMigrations v v migrations) = []
      <-> forall m, m ∈ migrations -> Version m <= v -> IsApplied m = true).
Proof.
  assert (chooseDirection v v = DirectionUp) as Hdir.
  { unfold chooseDirection. by rewrite Z.ltb_irrefl. }
  assert (snd (planMigrations v v migrations)
          ≡ₚ List.filter (fun m => (Version m <=? v) && negb (IsApplied m)) migrations)
    as Hperm.
  { rewrite planMigrations_selection, Hdir. unfold neededMigrations.
    erewrite filter_ext; [done |]. intros m. unfold isNeeded, DirectionUp.
    by rewrite Z.leb_antisym. }
  split; [done | split; [done |]].
  split.
  - intros Hnil m Hm Hle. rewrite Hnil in Hperm.
    apply Permutation_nil in Hperm.
    rewrite filter_nil_iff in Hperm. specialize (Hperm m Hm).
    apply andb_false_iff in Hperm as [Hv|Ha].
    + apply Z.leb_gt in Hv. lia.
    + by apply negb_false_iff in Ha.
  - intros Hall. apply Permutation_nil. rewrite Hperm.
    assert (List.filter (fun m => (Version m <=? v) && negb (IsApplied m)) migrations = [])
      as ->; [| done].
    apply filter_nil_iff. intros m Hm.
    destruct (Version m <=? v) eqn:Hv; [| done].
    apply Z.leb_le in Hv. by rewrite (Hall m Hm Hv).
Qed.

(** The claim as stated fails on the missing middle: units 1 and 3 applied,
    unit 2 back on disk, target and current version both 3. *)
Lemma planMigrations_target_is_current_not_empty :
  snd (planMigrations 3 3
         [mkMigration 1 true 10 "m/1_setup.sql"; mkMigration 2 false 0 "m/2_one.sql";
          mkMigration 3 true 30 "m/3_two.sql"])
  <> [].
Proof. vm_compute. discriminate. Qed.

(** ** Per-migration status resolution *)

Lemma indexMigrations_other (migrations : list Migration) : forall i mm v,
  v ∉ (Version <$> migrations) ->
  indexMigrations i migrations mm !! v = mm !! v.
Proof.
  induction migrations as [|m migrations IH]; intros i mm v Hv; simpl in *; [done |].
  apply not_elem_of_cons in Hv as [Hne Hv].
  rewrite IH by done. by apply lookup_insert_ne.
Qed.

Lemma indexMigrations_position (migrations : list Migration) : forall i mm j m,
  NoDup (Version <$> migrations) ->
  migrations !! j = Some m ->
  indexMigrations i migrations mm !! Version m = Some (i + j)%nat.
Proof.
  induction migrations as [|x migrations IH]; intros i mm j m Hnd Hj; simpl in *; [done |].
  apply NoDup_cons in Hnd as [Hx Hnd].
  destruct j as [|j]; simpl in *.
  - simplify_eq. rewrite indexMigrations_other by done.
    rewrite lookup_insert_eq. f_equal. lia.
  - rewrite (IH _ _ j m) by done. f_equal. lia.
Qed.

Lemma indexMigrations_indexed (migrations heap : list Migration) :
  NoDup (Version <$> migrations) ->
  Version <$> heap = Version <$> migrations ->
  indexed (indexMigrations 0 migrations ∅) heap.
Proof.
  intros Hnd Hheap v p. split.
  - intros Hmm.
    destruct (decide (v ∈ (Version <$> migrations))) as [Hin|Hnot].
    + apply list_elem_of_fmap in Hin as (m & -> & Hm).
      apply list_elem_of_lookup in Hm as [j Hj].
      rewrite (indexMigrations_position _ 0 ∅ j m) in Hmm by done. simplify_eq.
      assert ((Version <$> heap) !! j = Some (Version m)) as Hv.
      { rewrite Hheap, list_lookup_fmap, Hj. done. }
      rewrite list_lookup_fmap in Hv. simpl.
      destruct (heap !! j) as [m'|] eqn:Hm'; simpl in Hv; simplify_eq.
      by exists m'.
    + rewrite indexMigrations_other in Hmm by done. by rewrite lookup_empty in Hmm.
  - intros (m' & Hm' & <-).
    assert ((Version <$> migrations) !! p = Some (Version m')) as Hv.
    { rewrite <- Hheap, list_lookup_fmap, Hm'. done. }
    rewrite list_lookup_fmap in Hv.
    destruct (migrations !! p) as [m|] eqn:Hm; simpl in Hv; [| done].
    injection Hv as Hv. rewrite <- Hv.
    by rewrite (indexMigrations_position _ 0 ∅ p m).
Qed.

Lemma resolveUnit_nil (m : Migration) : resolveUnit [] m = m.
Proof. by destruct m. Qed.

Lemma resolveUnit_cons (row : Migration) (rows : list Migration) (m : Migration) :
  resolveUnit (row :: rows) m = resolveUnit rows (resolveUnit [row] m).
Proof.
  unfold resolveUnit, keptAfter. simpl.
  by destruct (keepRow (Version m) (IsApplied m, TStamp m) row).
Qed.

Lemma resolveUnit_Version (rows : list Migration) (m : Migration) :
  Version (resolveUnit rows m) = Version m.
Proof. done. Qed.

Lemma resolveUnit_other_version (row m : Migration) :
  Version row <> Version m -> resolveUnit [row] m = m.
Proof.
  intros Hne. unfold resolveUnit, keptAfter, keepRow. simpl.
  destruct (Version row =? Version m) eqn:Heq; [apply Z.eqb_eq in Heq; done |].
  by destruct m.
Qed.

(** One pass of the loop body updates the store as it updates each
    migration on its own. *)
Lemma statusStep_resolveUnit (mm : gmap Z nat) (heap : list Migration) (row : Migration) :
  indexed mm heap ->
  statusStep mm heap row = resolveUnit [row] <$> heap.
Proof.
  intros Hidx. unfold statusStep.
  destruct (mm !! Version row) as [p|] eqn:Hmm.
  - destruct (proj1 (Hidx _ _) Hmm) as (m & Hm & Hv). rewrite Hm.
    apply list_eq. intros j. rewrite list_lookup_fmap.
    destruct (decide (j = p)) as [-> |Hne].
    + rewrite Hm. simpl.
      unfold resolveUnit, keptAfter, keepRow. simpl.
      rewrite <- Hv, Z.eqb_refl. simpl.
      destruct (After (TStamp row) (TStamp m)); simpl.
      * rewrite list_lookup_insert_eq; [done |]. by eapply lookup_lt_Some.
      * rewrite Hm. by destruct m.
    + assert ((if negb (After (TStamp row) (TStamp m)) then heap
               else <[p:=mkMigration (Version m) (IsApplied row) (TStamp row) (Source m)]> heap)
                !! j = heap !! j) as ->.
      { destruct (negb _); [done |]. by apply list_lookup_insert_ne. }
      destruct (heap !! j) as [mj|] eqn:Hj; simpl; [| done].
      rewrite resolveUnit_other_version; [done |].
      intros Heq. apply Hne.
      assert (mm !! Version row = Some j) as Hj'.
      { apply Hidx. by exists mj. }
      congruence.
  - apply list_eq. intros j. rewrite list_lookup_fmap.
    destruct (heap !! j) as [mj|] eqn:Hj; simpl; [| done].
    rewrite resolveUnit_other_version; [done |].
    intros Heq.
    assert (mm !! Version row = Some j) as Hj'.
    { apply Hidx. by exists mj. }
    congruence.
Qed.

Lemma indexed_fmap (mm : gmap Z nat) (heap : list Migration) (f : Migration -> Migration) :
  (forall m, Version (f m) = Version m) ->
  indexed mm heap -> indexed mm (f <$> heap).
Proof.
  intros Hf Hidx v p. rewrite (Hidx v p), list_lookup_fmap. split.
  - intros (m & -> & <-). exists (f m). split; [done | apply Hf].
  - intros (m' & Hm' & <-).
    destruct (heap !! p) as [m|]; simpl in Hm'; [| done].
    injection Hm' as <-. exists m. split; [done | symmetry; apply Hf].
Qed.

Lemma statusLoop_resolveUnit (mm : gmap Z nat) (rows : list Migration) :
  forall heap, indexed mm heap ->
    statusLoop mm heap (Scanned <$> rows) = Return (resolveUnit rows <$> heap).
Proof.
  induction rows as [|row rows IH]; intros heap Hidx; simpl.
  - f_equal. rewrite <- (list_fmap_id heap) at 1.
    apply list_fmap_ext. intros _ m _. by rewrite resolveUnit_nil.
  - rewrite (statusStep_resolveUnit _ _ _ Hidx).
    rewrite IH by (by apply indexed_fmap).
    f_equal. rewrite <- list_fmap_compose.
    apply list_fmap_ext. intros _ m _. simpl. by rewrite <- resolveUnit_cons.
Qed.

(** The status of units with pairwise different versions: every unit is
    resolved on its own, from its cleared flag. *)
Lemma getMigrationsStatus_rows (units rows : list Migration) :
  NoDup (Version <$> units) ->
  getMigrationsStatus (QueryRows (Scanned <$> rows)) units
  = Return (None, resolveUnit rows <$> (clearApplied <$> units)).
Proof.
  intros Hnd. unfold getMigrationsStatus.
  rewrite statusLoop_resolveUnit; [done |].
  apply indexMigrations_indexed; [done |].
  rewrite <- list_fmap_compose. by apply list_fmap_ext.
Qed.

(** ** Discovery *)

Lemma unitOf_Some (entry : WalkEntry) (g : Migration) :
  unitOf entry = Some g
  <-> NumericComponent (path entry) = (Version g, None)
      /\ g = newMigration (Version g) (path entry).
Proof.
  unfold unitOf. destruct (NumericComponent (path entry)) as [v [e|]]; split.
  - done.
  - by intros [? _].
  - intros [= <-]. done.
  - intros [[= ->] ->]. done.
Qed.

Lemma find_version_None (v : Z) (m : list Migration) :
  find (fun g => v =? Version g) m = None <-> v ∉ (Version <$> m).
Proof.
  induction m as [|g m IH]; simpl.
  - split; [intros _; apply not_elem_of_nil | done].
  - rewrite not_elem_of_cons. destruct (v =? Version g) eqn:Hv.
    + apply Z.eqb_eq in Hv. split; [done | tauto].
    + apply Z.eqb_neq in Hv. rewrite IH. tauto.
Qed.

Lemma find_version_Some (v : Z) (m : list Migration) (g : Migration) :
  find (fun g => v =? Version g) m = Some g -> (g ∈ m) /\ Version g = v.
Proof.
  intros H. apply find_some in H as [Hin Hv].
  apply Z.eqb_eq in Hv. split; [by apply list_elem_of_In | done].
Qed.

(** What the walk does, from a slice [m] without repeated versions: either
    it returns [m] followed by the migrations of the tree, again without
    repeated versions, or it stops at the first entry whose version is
    already collected. *)
Lemma collectWalk_outcome (dirpath : string) (tree : list WalkEntry) :
  forall m, NoDup (Version <$> m) ->
    match collectWalk dirpath tree m with
    | Return m' => m' = m ++ collected tree /\ NoDup (Version <$> m')
    | Fatalf format operands =>
        format = duplicateVersionFormat
        /\ exists pre entry post g,
             tree = pre ++ entry :: post
             /\ NumericComponent (path entry) = (Version g, None)
             /\ (g ∈ m ++ collected pre)
             /\ operands = [VInt (Version g); VString (Source g);
                            VString (Go.Join [dirpath; path entry])]
    | _ => False
    end.
Proof.
  induction tree as [|entry tree IH]; intros m Hnd; simpl.
  - by rewrite app_nil_r.
  - unfold collected. simpl. unfold unitOf at 1.
    destruct (NumericComponent (path entry)) as [v [e|]] eqn:Hnum.
    + specialize (IH m Hnd). destruct (collectWalk dirpath tree m); try done.
      destruct IH as (-> & pre & entry' & post & g & -> & ? & ? & ->).
      split; [done |]. exists (entry :: pre), entry', post, g.
      unfold collected. simpl. unfold unitOf at 1. rewrite Hnum. done.
    + destruct (find _ m) as [g|] eqn:Hfind.
      * apply find_version_Some in Hfind as [Hin <-].
        split; [done |]. exists [], entry, tree, g. simpl.
        rewrite app_nil_r. done.
      * apply find_version_None in Hfind.
        assert (NoDup (Version <$> (m ++ [newMigration v (path entry)]))) as Hnd'.
        { rewrite fmap_app. simpl. apply NoDup_app. split; [done |].
          split; [| apply NoDup_singleton].
          intros x Hx Hx'. apply list_elem_of_singleton in Hx'. by subst x. }
        specialize (IH _ Hnd'). destruct (collectWalk dirpath tree _); try done.
        -- destruct IH as [-> ?]. split; [| done]. by rewrite <- app_assoc.
        -- destruct IH as (-> & pre & entry' & post & g & -> & ? & Hin & ->).
           split; [done |]. exists (entry :: pre), entry', post, g.
           unfold collected. simpl. unfold unitOf at 1. rewrite Hnum.
           rewrite <- app_assoc in Hin. done.
Qed.

(** A discovered set is the list of the migrations of the tree; its versions
    are pairwise different and every unit starts not applied, at the zero
    time. *)
Lemma CollectMigrations_Return (dirpath : string) (tree : list WalkEntry)
    (units : list Migration) (err : option error) :
  CollectMigrations dirpath tree = Return (units, err) ->
  err = None /\ units = collected tree /\ NoDup (Version <$> units)
  /\ clearApplied <$> units = units
  /\ Forall (fun m => TStamp m = zeroTime) units.
Proof.
  unfold CollectMigrations. intros H.
  pose proof (collectWalk_outcome dirpath tree [] (NoDup_nil_2 (A:=Z))) as Hout.
  destruct (collectWalk dirpath tree []) as [m'| | |]; simpl in H; simplify_eq.
  destruct Hout as [-> Hnd]. simpl in *.
  repeat split; try done.
  - rewrite <- (list_fmap_id (collected tree)) at 2.
    apply list_fmap_ext. intros i m Hm. simpl.
    apply list_elem_of_lookup_2 in Hm. apply list_elem_of_omap in Hm as (entry & _ & Hm).
    apply unitOf_Some in Hm as [_ ->]. done.
  - apply Forall_forall. intros m Hm.
    apply list_elem_of_omap in Hm as (entry & _ & Hm).
    apply unitOf_Some in Hm as [_ ->]. done.
Qed.

Lemma collected_app (t1 t2 : list WalkEntry) :
  collected (t1 ++ t2) = collected t1 ++ collected t2.
Proof. apply omap_app. Qed.

Lemma collected_same_version (tree : list WalkEntry) (i j : nat) (ei ej : WalkEntry) (v : Z) :
  (i < j)%nat ->
  tree !! i = Some ei -> tree !! j = Some ej ->
  NumericComponent (path ei) = (v, None) ->
  NumericComponent (path ej) = (v, None) ->
  ~ NoDup (Version <$> collected tree).
Proof.
  intros Hij Hi Hj Hvi Hvj Hnd.
  apply list_elem_of_split_length in Hi as (t1 & t2 & -> & ->).
  rewrite lookup_app_r in Hj by lia.
  replace (j - List.length t1)%nat with (S (j - List.length t1 - 1)) in Hj by lia.
  simpl in Hj. apply list_elem_of_split_length in Hj as (t3 & t4 & -> & _).
  rewrite collected_app in Hnd. unfold collected at 2 in Hnd. simpl in Hnd.
  unfold unitOf at 1 in Hnd. rewrite Hvi in Hnd.
  fold (collected (t3 ++ ej :: t4)) in Hnd.
  rewrite collected_app in Hnd. unfold collected at 3 in Hnd. simpl in Hnd.
  unfold unitOf at 1 in Hnd. rewrite Hvj in Hnd.
  rewrite !fmap_app, !fmap_cons in Hnd. simpl in Hnd.
  apply NoDup_app in Hnd as (_ & _ & Hnd).
  apply NoDup_cons in Hnd as [Hnot _]. apply Hnot.
  apply list_elem_of_fmap. exists (newMigration v (path ej)). split; [done |].
  apply elem_of_app. right. apply list_elem_of_here.
Qed.

(** C6. When two entries of the directory resolve to one version,
    [CollectMigrations] leaves through [log.Fatalf] and picks neither; the
    message carries the version, the walked path of an earlier entry of
    that version and, for a later entry of that version,
    [filepath.Join(dirpath, name)]: [name] is the walked path, which has
    [dirpath] in front already, so this operand is not the path of the
    later file.  When [CollectMigrations] returns, it returns no error and
    no two units share a version. *)
Theorem CollectMigrations_duplicate_is_fatal (dirpath : string) (tree : list WalkEntry) :
  (forall i j ei ej v,
     (i < j)%nat -> tree !! i = Some ei -> tree !! j = Some ej ->
     NumericComponent (path ei) = (v, None) ->
     NumericComponent (path ej) = (v, None) ->
     exists i' j' e1 e2 v',
       (i' < j')%nat /\ tree !! i' = Some e1 /\ tree !! j' = Some e2
       /\ NumericComponent (path e1) = (v', None)
       /\ NumericComponent (path e2) = (v', None)
       /\ CollectMigrations dirpath tree
          = Fatalf duplicateVersionFormat
              [VInt v'; VString (path e1); VString (Go.Join [dirpath; path e2])])
  /\ (forall units err,
        CollectMigrations dirpath tree = Return (units, err) ->
        err = None /\ NoDup (Version <$> units)).
Proof.
  split.
  - intros i j ei ej v Hij Hi Hj Hvi Hvj.
    pose proof (collectWalk_outcome dirpath tree [] (NoDup_nil_2 (A:=Z))) as Hout.
    unfold CollectMigrations.
    destruct (collectWalk dirpath tree []) as [m'| |format operands|]; try done.
    + destruct Hout as [-> Hnd]. simpl in Hnd.
      by destruct (collected_same_version tree i j ei ej v).
    + destruct Hout as (-> & pre & entry & post & g & -> & Hentry & Hg & ->).
      simpl in Hg. apply list_elem_of_omap in Hg as (e1 & He1 & Hg).
      apply unitOf_Some in Hg as [Hv1 Hsrc].
      apply list_elem_of_lookup in He1 as [i' Hi'].
      exists i', (List.length pre), e1, entry, (Version g).
      repeat split; try done.
      * by eapply lookup_lt_Some.
      * rewrite lookup_app_l; [done | by eapply lookup_lt_Some].
      * by rewrite list_lookup_middle.
      * simpl. rewrite Hsrc. done.
  - intros units err H. apply CollectMigrations_Return in H. tauto.
Qed.

Lemma collectWalk_skips (dirpath : string) (pre : list WalkEntry) (entry : WalkEntry)
    (post : list WalkEntry) :
  unitOf entry = None ->
  forall m, collectWalk dirpath (pre ++ entry :: post) m
            = collectWalk dirpath (pre ++ post) m.
Proof.
  intros Hnone. induction pre as [|x pre IH]; intros m; simpl.
  - unfold unitOf in Hnone. by destruct (NumericComponent (path entry)) as [v [e|]].
  - destruct (NumericComponent (path x)) as [v [e|]]; [done |].
    by destruct (find _ m).
Qed.

(** C8, amended. A file whose digits before the first underscore parse to
    zero or to a negative number is refused by [NumericComponent], and
    [CollectMigrations] goes on as if the file were not there; it never
    returns an error. *)
Theorem CollectMigrations_skips_non_positive (dirpath : string)
    (pre : list WalkEntry) (entry : WalkEntry) (post : list WalkEntry) (n : Z) :
  (Go.Ext (Go.Base (path entry)) = ".go" \/ Go.Ext (Go.Base (path entry)) = ".sql") ->
  0 <= Go.Index (Go.Base (path entry)) "_" ->
  Go.ParseInt (Go.slice_to (Go.Base (path entry)) (Go.Index (Go.Base (path entry)) "_"))
  = (n, None) ->
  n <= 0 ->
  NumericComponent (path entry)
  = (0, Some (Errorf "migration IDs must be greater than zero" []))
  /\ CollectMigrations dirpath (pre ++ entry :: post)
     = CollectMigrations dirpath (pre ++ post)
  /\ forall units err,
       CollectMigrations dirpath (pre ++ entry :: post) = Return (units, err) ->
       err = None.
Proof.
  intros Hext Hidx Hparse Hn.
  assert (NumericComponent (path entry)
          = (0, Some (Errorf "migration IDs must be greater than zero" []))) as Hnum.
  { unfold NumericComponent. rewrite Hparse.
    destruct Hext as [-> | ->]; simpl;
      (destruct (Go.Index _ _ <? 0) eqn:Hlt; [apply Z.ltb_lt in Hlt; lia |]);
      (destruct (n <=? 0) eqn:Hle; [done | apply Z.leb_gt in Hle; lia]). }
  split; [done | split].
  - unfold CollectMigrations. rewrite collectWalk_skips; [done |].
    unfold unitOf. by rewrite Hnum.
  - intros units err H. apply CollectMigrations_Return in H. tauto.
Qed.

(** The claim as stated fails: a directory with a file of version zero and a
    file of a negative version is collected without them. *)
Lemma CollectMigrations_non_positive_not_an_error :
  CollectMigrations "m"
    [mkEntry "m" true; mkEntry "m/-5_old.sql" false; mkEntry "m/0_init.sql" false;
     mkEntry "m/1_a.sql" false]
  = Return ([newMigration 1 "m/1_a.sql"], None).
Proof. vm_compute. reflexivity. Qed.

(** ** The record that decides a unit's status *)

Lemma keepRow_other (v : Z) (kept : bool * Time) (row : Migration) :
  Version row <> v -> keepRow v kept row = kept.
Proof.
  intros Hne. unfold keepRow.
  destruct (Version row =? v) eqn:Heq; [apply Z.eqb_eq in Heq; done | done].
Qed.

Lemma keepRow_not_later (v : Z) (kept : bool * Time) (row : Migration) :
  TStamp row <= snd kept -> keepRow v kept row = kept.
Proof.
  intros Hle. unfold keepRow, After.
  destruct (snd kept <? TStamp row) eqn:Hlt; [apply Z.ltb_lt in Hlt; lia |].
  by rewrite andb_false_r.
Qed.

Lemma keepRow_later (kept : bool * Time) (row : Migration) :
  snd kept < TStamp row ->
  keepRow (Version row) kept row = (IsApplied row, TStamp row).
Proof.
  intros Hlt. unfold keepRow, After.
  rewrite Z.eqb_refl. apply Z.ltb_lt in Hlt. by rewrite Hlt.
Qed.

Lemma keepRow_monotone (v : Z) (kept : bool * Time) (row : Migration) :
  snd kept <= snd (keepRow v kept row).
Proof.
  unfold keepRow, After.
  destruct (Version row =? v); simpl; [| lia].
  destruct (snd kept <? TStamp row) eqn:Hlt; simpl; [apply Z.ltb_lt in Hlt |]; lia.
Qed.

Lemma keepRow_bounded (v : Z) (kept : bool * Time) (row : Migration) (t : Time) :
  snd kept < t -> (Version row = v -> TStamp row < t) ->
  snd (keepRow v kept row) < t.
Proof.
  intros Hk Hrow. unfold keepRow, After.
  destruct (Version row =? v) eqn:Heq; simpl; [| done].
  apply Z.eqb_eq in Heq. destruct (snd kept <? TStamp row); simpl; auto.
Qed.

Lemma keptAfter_monotone (v : Z) (rows : list Migration) : forall kept,
  snd kept <= snd (keptAfter v kept rows).
Proof.
  induction rows as [|row rows IH]; intros kept; unfold keptAfter in *; simpl; [lia |].
  etransitivity; [apply (keepRow_monotone v kept row) | apply IH].
Qed.

Lemma keptAfter_app (v : Z) (kept : bool * Time) (rows1 rows2 : list Migration) :
  keptAfter v kept (rows1 ++ rows2) = keptAfter v (keptAfter v kept rows1) rows2.
Proof. apply fold_left_app. Qed.

(** No row of the version: nothing is kept. *)
Lemma keptAfter_no_row (v : Z) (rows : list Migration) : forall kept,
  (forall r, r ∈ rows -> Version r <> v) -> keptAfter v kept rows = kept.
Proof.
  induction rows as [|row rows IH]; intros kept Hnone; unfold keptAfter in *; simpl; [done |].
  rewrite keepRow_other by (apply Hnone, list_elem_of_here).
  apply IH. intros r Hr. apply Hnone. by apply list_elem_of_further.
Qed.

(** Rows of the version that are not later than what is kept change
    nothing. *)
Lemma keptAfter_not_later (v : Z) (rows : list Migration) : forall kept,
  (forall r, r ∈ rows -> Version r = v -> TStamp r <= snd kept) ->
  keptAfter v kept rows = kept.
Proof.
  induction rows as [|row rows IH]; intros kept Hle; unfold keptAfter in *; simpl; [done |].
  assert (keepRow v kept row = kept) as ->.
  { destruct (decide (Version row = v)) as [Heq|Hne].
    - apply keepRow_not_later, Hle; [apply list_elem_of_here | done].
    - by apply keepRow_other. }
  apply IH. intros r Hr. apply Hle. by apply list_elem_of_further.
Qed.

(** The first of the rows with the latest timestamp decides. *)
Lemma keptAfter_first_latest (pre : list Migration) (r : Migration)
    (post : list Migration) : forall kept,
  snd kept < TStamp r ->
  (forall r', r' ∈ pre -> Version r' = Version r -> TStamp r' < TStamp r) ->
  (forall r', r' ∈ post -> Version r' = Version r -> TStamp r' <= TStamp r) ->
  keptAfter (Version r) kept (pre ++ r :: post) = (IsApplied r, TStamp r).
Proof.
  induction pre as [|x pre IH]; intros kept Hk Hpre Hpost; unfold keptAfter in *; simpl.
  - rewrite keepRow_later by done. by apply keptAfter_not_later.
  - apply IH; [| | done].
    + apply keepRow_bounded; [done |]. apply Hpre, list_elem_of_here.
    + intros r' Hr'. apply Hpre. by apply list_elem_of_further.
Qed.

(** Of two rows of one version, the later in query order is ignored when
    its timestamp is not later than the other's. *)
Lemma keptAfter_second_ignored (v : Z) (kept : bool * Time)
    (h1 : list Migration) (r1 : Migration) (h2 : list Migration) (r2 : Migration)
    (h3 : list Migration) :
  Version r1 = Version r2 -> TStamp r2 <= TStamp r1 ->
  keptAfter v kept (h1 ++ r1 :: h2 ++ r2 :: h3)
  = keptAfter v kept (h1 ++ r1 :: h2 ++ h3).
Proof.
  intros Hv Ht.
  rewrite !keptAfter_app. unfold keptAfter at 1 3. simpl.
  fold (keptAfter v (keepRow v (keptAfter v kept h1) r1) (h2 ++ r2 :: h3)).
  fold (keptAfter v (keepRow v (keptAfter v kept h1) r1) (h2 ++ h3)).
  rewrite !keptAfter_app. unfold keptAfter at 1. simpl.
  set (k1 := keptAfter v kept h1).
  destruct (decide (Version r1 = v)) as [Heq|Hne].
  - rewrite (keepRow_not_later v _ r2); [done |].
    etransitivity; [| apply keptAfter_monotone].
    etransitivity; [exact Ht |].
    unfold keepRow, After. apply Z.eqb_eq in Heq. rewrite Heq. simpl.
    destruct (snd k1 <? TStamp r1) eqn:Hlt; simpl; [lia | apply Z.ltb_ge in Hlt; lia].
  - rewrite (keepRow_other v _ r2); [done | congruence].
Qed.

Lemma keptAfter_filter (v : Z) (f : Migration -> bool) (rows : list Migration) :
  forall kept,
  (forall r, r ∈ rows -> Version r = v -> f r = true) ->
  keptAfter v kept (List.filter f rows) = keptAfter v kept rows.
Proof.
  induction rows as [|row rows IH]; intros kept Hf; unfold keptAfter in *; simpl; [done |].
  assert (forall r, r ∈ rows -> Version r = v -> f r = true) as Hf'.
  { intros r Hr. apply Hf. by apply list_elem_of_further. }
  destruct (f row) eqn:Hrow; simpl.
  - by apply IH.
  - rewrite keepRow_other; [by apply IH |].
    intros Heq. rewrite (Hf row) in Hrow; [done | apply list_elem_of_here | done].
Qed.

(** The status of a discovered set: each unit on its own, from the cleared
    flag and the zero time. *)
Lemma getMigrationsStatus_discovered (dirpath : string) (tree : list WalkEntry)
    (units rows : list Migration) :
  CollectMigrations dirpath tree = Return (units, None) ->
  getMigrationsStatus (QueryRows (Scanned <$> rows)) units
  = Return (None, resolveUnit rows <$> units)
  /\ forall j m, units !! j = Some m ->
       (resolveUnit rows <$> units) !! j
       = Some (mkMigration (Version m)
                 (fst (keptAfter (Version m) (false, zeroTime) rows))
                 (snd (keptAfter (Version m) (false, zeroTime) rows))
                 (Source m)).
Proof.
  intros Hc. apply CollectMigrations_Return in Hc as (_ & _ & Hnd & Hclear & Hzero).
  split.
  - rewrite getMigrationsStatus_rows by done. by rewrite Hclear.
  - intros j m Hj. rewrite list_lookup_fmap, Hj. simpl. f_equal.
    assert (m ∈ units) as Hm by (by eapply list_elem_of_lookup_2).
    rewrite Forall_forall in Hzero. specialize (Hzero m Hm).
    assert (IsApplied m = false) as Hfalse.
    { apply (f_equal (fun l => IsApplied <$> l !! j)) in Hclear.
      rewrite list_lookup_fmap, Hj in Hclear. simpl in Hclear. congruence. }
    unfold resolveUnit. by rewrite Hfalse, Hzero.
Qed.

(** C3, amended. For a discovered set of units and a history, the status
    pass leaves the versions and sources as they are and gives each unit the
    applied flag of the record of its version with the strictly latest
    timestamp, wherever that record stands in the history, provided the
    timestamp is after the zero time the unit starts from; a unit without a
    record of its version is not applied; and when the history query fails
    with [ErrTableDoesNotExist] every unit is not applied and no error is
    returned. *)
Theorem getMigrationsStatus_latest_record (dirpath : string) (tree : list WalkEntry)
    (units : list Migration) :
  CollectMigrations dirpath tree = Return (units, None) ->
  (forall h, exists units',
     getMigrationsStatus (QueryRows (Scanned <$> h)) units = Return (None, units')
     /\ Version <$> units' = Version <$> units
     /\ Source <$> units' = Source <$> units
     /\ forall j m', units' !! j = Some m' ->
          (forall r, r ∈ h -> Version r = Version m' -> zeroTime < TStamp r ->
             (forall r', r' ∈ h -> Version r' = Version m' -> r' <> r ->
                TStamp r' < TStamp r) ->
             IsApplied m' = IsApplied r)
          /\ ((forall r, r ∈ h -> Version r <> Version m') -> IsApplied m' = false))
  /\ getMigrationsStatus (QueryError ErrTableDoesNotExist) units
     = Return (None, clearApplied <$> units)
  /\ Forall (fun m => IsApplied m = false) (clearApplied <$> units).
Proof.
  intros Hc. split; [| split].
  - intros h. destruct (getMigrationsStatus_discovered _ _ _ h Hc) as [Hstatus Hunit].
    exists (resolveUnit h <$> units). split; [done |].
    split; [by rewrite <- list_fmap_compose |].
    split; [by rewrite <- list_fmap_compose |].
    intros j m' Hj.
    assert (exists m, units !! j = Some m) as [m Hm].
    { rewrite list_lookup_fmap in Hj. destruct (units !! j) as [m|]; [by exists m | done]. }
    rewrite (Hunit j m Hm) in Hj. injection Hj as <-. simpl. split.
    + intros r Hr Hv Ht Hlatest.
      apply list_elem_of_split_l in Hr as (pre & post & -> & Hpre).
      rewrite <- Hv, keptAfter_first_latest; [done | done | |].
      * intros r' Hr' Hv'. apply Hlatest.
        -- apply elem_of_app. by left.
        -- congruence.
        -- intros ->. done.
      * intros r' Hr' Hv'. destruct (decide (r' = r)) as [-> |Hne]; [lia |].
        apply Z.lt_le_incl, Hlatest; [| congruence | done].
        apply elem_of_app. right. by apply list_elem_of_further.
    + intros Hnone. by rewrite keptAfter_no_row.
  - done.
  - apply Forall_forall. intros m Hm.
    apply list_elem_of_fmap in Hm as (m0 & -> & _). done.
Qed.

(** The claim as stated fails on a record at the zero time: it is the only
    record of version 1, it says applied, and the unit comes out not
    applied. *)
Lemma getMigrationsStatus_zero_time_record :
  CollectMigrations "m" [mkEntry "m" true; mkEntry "m/1_a.sql" false]
  = Return ([newMigration 1 "m/1_a.sql"], None)
  /\ getMigrationsStatus (QueryRows [Scanned (ledgerRow 1 true zeroTime)])
       [newMigration 1 "m/1_a.sql"]
     = Return (None, [mkMigration 1 false zeroTime "m/1_a.sql"]).
Proof. split; vm_compute; reflexivity. Qed.

(** C10, amended. In the status pass a row that is not strictly later than
    what is kept for its unit leaves the store as it is; so of two rows of
    one version with equal timestamps the second in query order changes
    nothing, and when that timestamp is the latest of the version and is
    after the zero time, the first row with it gives the unit its flag;
    rows whose version no discovered unit has change nothing either. *)
Theorem getMigrationsStatus_first_row_wins (dirpath : string) (tree : list WalkEntry)
    (units : list Migration) :
  CollectMigrations dirpath tree = Return (units, None) ->
  (forall (mm : gmap Z nat) (heap : list Migration) row p m,
     mm !! Version row = Some p -> heap !! p = Some m ->
     TStamp row <= TStamp m ->
     statusStep mm heap row = heap)
  /\ (forall h1 r1 h2 r2 h3,
        Version r1 = Version r2 -> TStamp r1 = TStamp r2 ->
        getMigrationsStatus (QueryRows (Scanned <$> (h1 ++ r1 :: h2 ++ r2 :: h3))) units
        = getMigrationsStatus (QueryRows (Scanned <$> (h1 ++ r1 :: h2 ++ h3))) units)
  /\ (forall pre r post j m,
        units !! j = Some m -> Version r = Version m -> zeroTime < TStamp r ->
        (forall r', r' ∈ pre -> Version r' = Version m -> TStamp r' < TStamp r) ->
        (forall r', r' ∈ post -> Version r' = Version m -> TStamp r' <= TStamp r) ->
        exists units' m',
          getMigrationsStatus (QueryRows (Scanned <$> (pre ++ r :: post))) units
          = Return (None, units')
          /\ units' !! j = Some m' /\ Version m' = Version m
          /\ IsApplied m' = IsApplied r)
  /\ (forall h,
        getMigrationsStatus (QueryRows (Scanned <$> h)) units
        = getMigrationsStatus
            (QueryRows (Scanned <$> List.filter
                          (fun r => bool_decide (Version r ∈ (Version <$> units))) h))
            units).
Proof.
  intros Hc. split; [| split; [| split]].
  - intros mm heap row p m Hp Hm Hle. unfold statusStep. rewrite Hp, Hm.
    unfold After. destruct (TStamp m <? TStamp row) eqn:Hlt; [| done].
    apply Z.ltb_lt in Hlt. lia.
  - intros h1 r1 h2 r2 h3 Hv Ht.
    destruct (getMigrationsStatus_discovered _ _ _ (h1 ++ r1 :: h2 ++ r2 :: h3) Hc) as [-> _].
    destruct (getMigrationsStatus_discovered _ _ _ (h1 ++ r1 :: h2 ++ h3) Hc) as [-> _].
    do 2 f_equal. apply list_fmap_ext. intros j m _. unfold resolveUnit.
    rewrite keptAfter_second_ignored; [done | done | lia].
  - intros pre r post j m Hj Hv Ht Hpre Hpost.
    destruct (getMigrationsStatus_discovered _ _ _ (pre ++ r :: post) Hc) as [Hstatus Hunit].
    eexists _, _. split; [exact Hstatus |]. split; [by apply Hunit |].
    simpl. split; [done |].
    rewrite <- Hv, keptAfter_first_latest; [done | done | |].
    + intros r' Hr' Hv'. apply Hpre; [done | congruence].
    + intros r' Hr' Hv'. apply Hpost; [done | congruence].
  - intros h.
    destruct (getMigrationsStatus_discovered _ _ _ h Hc) as [-> _].
    destruct (getMigrationsStatus_discovered _ _ _
                (List.filter (fun r => bool_decide (Version r ∈ (Version <$> units))) h) Hc)
      as [-> _].
    do 2 f_equal. apply list_fmap_ext. intros j m Hj. unfold resolveUnit.
    rewrite keptAfter_filter; [done |].
    intros r _ Hv. apply bool_decide_eq_true. rewrite Hv.
    apply list_elem_of_fmap. exists m. split; [done | by eapply list_elem_of_lookup_2].
Qed.

(** The claim as stated fails on two rows of one version with equal
    timestamps at the zero time: the first in query order says applied,
    and the unit comes out not applied. *)
Lemma getMigrationsStatus_tied_rows_at_zero_time :
  CollectMigrations "m" [mkEntry "m" true; mkEntry "m/1_a.sql" false]
  = Return ([newMigration 1 "m/1_a.sql"], None)
  /\ Version (ledgerRow 1 true zeroTime) = Version (ledgerRow 1 false zeroTime)
  /\ TStamp (ledgerRow 1 true zeroTime) = TStamp (ledgerRow 1 false zeroTime)
  /\ IsApplied (ledgerRow 1 true zeroTime) = true
  /\ getMigrationsStatus
       (QueryRows [Scanned (ledgerRow 1 true zeroTime); Scanned (ledgerRow 1 false zeroTime)])
       [newMigration 1 "m/1_a.sql"]
     = Return (None, [mkMigration 1 false zeroTime "m/1_a.sql"])
  /\ getMigrationsStatus
       (QueryRows [Scanned (ledgerRow 1 true zeroTime); Scanned (ledgerRow 1 true zeroTime)])
       [newMigration 1 "m/1_a.sql"]
     = Return (None, [mkMigration 1 false zeroTime "m/1_a.sql"]).
Proof. repeat split; vm_compute; reflexivity. Qed.

(** ** The previous version *)

Lemma NumericComponent_positive (name : string) (v : Z) :
  NumericComponent name = (v, None) -> 0 < v.
Proof.
  unfold NumericComponent.
  destruct (negb _ && negb _); [done |].
  destruct (Go.Index _ _ <? 0); [done |].
  destruct (Go.ParseInt _) as [n [e|]]; [done |].
  destruct (n <=? 0) eqn:Hn; [done |].
  intros [= <-]. by apply Z.leb_gt in Hn.
Qed.

Lemma fileVersions_positive (tree : list WalkEntry) (v : Z) :
  v ∈ fileVersions tree -> 0 < v.
Proof.
  intros Hv. apply list_elem_of_omap in Hv as (entry & _ & Hv).
  destruct (isDir entry); [done |].
  destruct (NumericComponent (path entry)) as [v' [e|]] eqn:Hnum; [done |].
  injection Hv as <-. by eapply NumericComponent_positive.
Qed.

Lemma statted_visitOf (tree : list WalkEntry) : statted (visitOf <$> tree) = tree.
Proof.
  induction tree as [|[name dir] tree IH]; [done |].
  change (mkEntry name dir :: statted (visitOf <$> tree) = mkEntry name dir :: tree).
  by rewrite IH.
Qed.

(** The walk of [GetPreviousDBVersion] goes by the versions of the files
    when every call has an [info], and panics when one has none. *)
Lemma previousWalk_outcome (version : Z) (visits : list WalkVisit) : forall st,
  (Forall (fun visit => is_Some (visitInfo visit)) visits
   /\ previousWalk version visits st
      = Return (fold_left (previousOf version) (fileVersions (statted visits)) st))
  \/ (Exists (fun visit => visitInfo visit = None) visits
      /\ previousWalk version visits st = Panicked nilInfoPanic).
Proof.
  induction visits as [|[name [dir|]] visits IH]; intros st.
  - left. split; [constructor | done].
  - assert (exists st',
              previousStep version st (mkVisit name (Some dir)) = Return st'
              /\ fold_left (previousOf version)
                   (fileVersions (statted (mkVisit name (Some dir) :: visits))) st
                 = fold_left (previousOf version) (fileVersions (statted visits)) st')
      as (st' & Hstep & Hfold).
    { unfold previousStep, statted, fileVersions. destruct st as [previous saw]. simpl.
      destruct dir; [by eexists |].
      destruct (NumericComponent name) as [v [e|]]; by eexists. }
    rewrite Hfold. cbn [previousWalk]. rewrite Hstep. cbn [obind].
    destruct (IH st') as [[Hall ->] | [Hex ->]].
    + left. split; [| done]. constructor; [by eexists | done].
    + right. split; [by apply Exists_cons_tl | done].
  - right. split; [by apply Exists_cons_hd |].
    simpl. unfold previousStep. by destruct st.
Qed.

Lemma previousWalk_fileVersions (version : Z) (tree : list WalkEntry) (st : Z * bool) :
  previousWalk version (visitOf <$> tree) st
  = Return (fold_left (previousOf version) (fileVersions tree) st).
Proof.
  destruct (previousWalk_outcome version (visitOf <$> tree) st) as [[_ ->] | [Hex _]].
  - by rewrite statted_visitOf.
  - apply Exists_exists in Hex as (visit & Hin & Hnil).
    apply list_elem_of_fmap in Hin as (entry & -> & _). done.
Qed.

Lemma previousOf_fold (version : Z) (vs : list Z) : forall st,
  let st' := fold_left (previousOf version) vs st in
  (snd st' = true <-> snd st = true \/ (version ∈ vs))
  /\ fst st <= fst st'
  /\ (fst st' = fst st \/ ((fst st' ∈ vs) /\ fst st' < version))
  /\ (forall v, v ∈ vs -> v < version -> v <= fst st').
Proof.
  induction vs as [|x vs IH]; intros st; simpl.
  - repeat split; try tauto; try lia.
    + intros [?|H]; [done | by apply elem_of_nil in H].
    + intros v H. by apply elem_of_nil in H.
  - destruct (IH (previousOf version st x)) as (Hsaw & Hle & Hfst & Hmax).
    assert (fst st <= fst (previousOf version st x)
            /\ (x < version -> x <= fst (previousOf version st x))
            /\ (fst (previousOf version st x) = fst st
                \/ fst (previousOf version st x) = x /\ x < version)
            /\ (snd (previousOf version st x) = true <-> snd st = true \/ x = version))
      as (H1 & H2 & H3 & H4).
    { unfold previousOf. simpl.
      destruct (fst st <? x) eqn:Ha; [apply Z.ltb_lt in Ha | apply Z.ltb_ge in Ha];
        (destruct (x <? version) eqn:Hb; [apply Z.ltb_lt in Hb | apply Z.ltb_ge in Hb]);
        (destruct (x =? version) eqn:Hc; [apply Z.eqb_eq in Hc | apply Z.eqb_neq in Hc]);
        simpl; repeat split; try tauto; try lia;
        try (intros [?|?]; (done || lia)); try (right; lia); try (by left).
    }
    repeat split.
    + intros H. apply Hsaw in H as [H|H].
      * apply H4 in H as [?| ->]; [by left | right; apply list_elem_of_here].
      * right. by apply list_elem_of_further.
    + intros [H|H]; apply Hsaw.
      * left. apply H4. by left.
      * apply elem_of_cons in H as [-> |H]; [left | by right]. apply H4. by right.
    + lia.
    + destruct Hfst as [-> |[Hin Hlt]].
      * destruct H3 as [?|[-> ?]]; [by left | right].
        split; [apply list_elem_of_here | done].
      * right. split; [by apply list_elem_of_further | done].
    + intros v Hv Hlt. apply elem_of_cons in Hv as [-> |Hv]; [| by apply Hmax].
      specialize (H2 Hlt). lia.
Qed.

Lemma previousOf_none_earlier (version : Z) (tree : list WalkEntry) :
  let st := fold_left (previousOf version) (fileVersions tree) (-1, false) in
  (fst st = -1 <-> forall v, v ∈ fileVersions tree -> ~ v < version)
  /\ (snd st = true <-> version ∈ fileVersions tree)
  /\ (fst st <> -1 ->
      (fst st ∈ fileVersions tree) /\ fst st < version
      /\ forall v, v ∈ fileVersions tree -> v < version -> v <= fst st).
Proof.
  pose proof (previousOf_fold version (fileVersions tree) (-1, false)) as H.
  simpl in H. destruct H as (Hsaw & Hle & Hfst & Hmax).
  destruct (fold_left (previousOf version) (fileVersions tree) (-1, false))
    as [previous saw]. simpl in *.
  split; [| split].
  - split.
    + intros -> v Hv Hlt. specialize (Hmax v Hv Hlt).
      apply fileVersions_positive in Hv. lia.
    + intros Hno. destruct Hfst as [?|[Hin Hlt]]; [done |]. by destruct (Hno _ Hin).
  - rewrite Hsaw. split; [by intros [?|?] | by right].
  - intros Hp. destruct Hfst as [?|[Hin Hlt]]; done.
Qed.

(** C9, amended. On a walk that hands an [info] with every call,
    [GetPreviousDBVersion] returns: it returns [ErrNoPreviousVersion], as a
    value next to the result -1, exactly when no migration file has an
    earlier version and no migration file has the given version; that is
    the only error it returns; when a file has an earlier version it
    returns the largest such version; when none has but the given version
    is there it returns 0 and no error. *)
Theorem GetPreviousDBVersion_cases (tree : list WalkEntry) (version : Z) :
  (exists result, GetPreviousDBVersion (visitOf <$> tree) version = Return result)
  /\ (GetPreviousDBVersion (visitOf <$> tree) version
      = Return (-1, Some ErrNoPreviousVersion)
      <-> (forall v, v ∈ fileVersions tree -> ~ v < version)
          /\ (version ∉ fileVersions tree))
  /\ (forall p e, GetPreviousDBVersion (visitOf <$> tree) version = Return (p, Some e) ->
        p = -1 /\ e = ErrNoPreviousVersion)
  /\ ((exists v, (v ∈ fileVersions tree) /\ v < version) ->
        exists p, GetPreviousDBVersion (visitOf <$> tree) version = Return (p, None)
                  /\ (p ∈ fileVersions tree) /\ p < version
                  /\ forall v, v ∈ fileVersions tree -> v < version -> v <= p)
  /\ ((forall v, v ∈ fileVersions tree -> ~ v < version) ->
      (version ∈ fileVersions tree) ->
      GetPreviousDBVersion (visitOf <$> tree) version = Return (0, None)).
Proof.
  unfold GetPreviousDBVersion. rewrite previousWalk_fileVersions.
  destruct (previousOf_none_earlier version tree) as (Hnone & Hsaw & Hmax).
  destruct (fold_left (previousOf version) (fileVersions tree) (-1, false))
    as [previous saw]. simpl in *.
  destruct (previous =? -1) eqn:Hp; [apply Z.eqb_eq in Hp | apply Z.eqb_neq in Hp].
  - pose proof (proj1 Hnone Hp) as Hno. destruct saw; simpl.
    + split; [by eexists |]. split; [| split; [| split]]; try done.
      * split; [done |]. intros [_ Hnot]. destruct Hnot. by apply Hsaw.
      * intros (v & Hv & Hlt). by destruct (Hno v Hv).
    + subst previous. split; [by eexists |]. split; [| split; [| split]].
      * split; [| done]. intros _. split; [done |].
        intros Hin. apply Hsaw in Hin. done.
      * by intros p e [= <- <-].
      * intros (v & Hv & Hlt). by destruct (Hno v Hv).
      * intros _ Hin. apply Hsaw in Hin. done.
  - simpl. destruct (Hmax Hp) as (Hin & Hlt & Hlargest).
    split; [by eexists |]. split; [| split; [| split]]; try done.
    + split; [by intros [= ?] |]. intros [Hno _]. by apply Hnone in Hno.
    + intros _. exists previous. done.
    + intros Hno. by apply Hnone in Hno.
Qed.

(** The claim as stated fails when the given version is the earliest file:
    no file has an earlier version, and the result is 0 without error. *)
Lemma GetPreviousDBVersion_earliest_is_not_an_error :
  fileVersions [mkEntry "m" true; mkEntry "m/1_a.sql" false; mkEntry "m/2_b.sql" false]
  = [1; 2]
  /\ GetPreviousDBVersion
       (visitOf <$> [mkEntry "m" true; mkEntry "m/1_a.sql" false;
                     mkEntry "m/2_b.sql" false]) 1
     = Return (0, None).
Proof. split; vm_compute; reflexivity. Qed.

(** ** Bootstrap of the version table *)

Lemma createVersionTable_outcome (srv : SqlServer) (conf : DBConf) (db : DB) :
  (exists err, createVersionTable srv conf db = (Return (Some err), db))
  \/ createVersionTable srv conf db
     = (Return None,
        db ++ [(createVersionTableSql (Dialect (Driver conf)), []);
               (insertVersionSql (Dialect (Driver conf)), [VInt 0; VBool true])]).
Proof.
  unfold createVersionTable.
  destruct (onBegin srv db); [left; eauto |].
  destruct (onExec srv db [] _); [left; eauto |].
  destruct (onExec srv db [_] _); [left; eauto |].
  destruct (onCommit srv db _); [left; eauto | by right].
Qed.

(** C5, amended. When the history query fails with [ErrTableDoesNotExist],
    [EnsureDBVersion] always returns, with version 0.  When the four steps
    of the bootstrap transaction succeed it returns no error and the
    database has gained, in one commit, the version table and the applied
    record of version 0.  When a step fails it returns that step's error
    and the database is as before. *)
Theorem EnsureDBVersion_bootstrap (srv : SqlServer) (conf : DBConf) (db : DB) :
  dbVersionQuery (Dialect (Driver conf)) db = QueryError ErrTableDoesNotExist ->
  let create : Statement := (createVersionTableSql (Dialect (Driver conf)), []) in
  let insert : Statement :=
    (insertVersionSql (Dialect (Driver conf)), [VInt 0; VBool true]) in
  (onBegin srv db = None -> onExec srv db [] create = None ->
   onExec srv db [create] insert = None -> onCommit srv db [create; insert] = None ->
   EnsureDBVersion srv conf db = (Return (0, None), db ++ [create; insert]))
  /\ (forall err,
        onBegin srv db = Some err
        \/ (onBegin srv db = None
            /\ exists e, onExec srv db [] create = Some e
                         /\ err = Errorf "creating migration table: %s" [VError e])
        \/ (onBegin srv db = None /\ onExec srv db [] create = None
            /\ exists e, onExec srv db [create] insert = Some e
                         /\ err = Errorf "inserting first migration: %s" [VError e])
        \/ (onBegin srv db = None /\ onExec srv db [] create = None
            /\ onExec srv db [create] insert = None
            /\ onCommit srv db [create; insert] = Some err) ->
        EnsureDBVersion srv conf db = (Return (0, Some err), db))
  /\ (exists err db', EnsureDBVersion srv conf db = (Return (0, err), db')
                      /\ (db' = db \/ (err = None /\ db' = db ++ [create; insert]))).
Proof.
  intros Hq create insert. unfold EnsureDBVersion. rewrite Hq. simpl.
  unfold bind, ret. split; [| split].
  - intros Hb Hc Hi Hcommit. unfold createVersionTable.
    fold create. fold insert. by rewrite Hb, Hc, Hi, Hcommit.
  - intros err H. unfold createVersionTable. fold create. fold insert.
    destruct H as [Hb | [(Hb & e & Hc & ->) | [(Hb & Hc & e & Hi & ->) | (Hb & Hc & Hi & Hcommit)]]].
    + by rewrite Hb.
    + by rewrite Hb, Hc.
    + by rewrite Hb, Hc, Hi.
    + by rewrite Hb, Hc, Hi, Hcommit.
  - destruct (createVersionTable_outcome srv conf db) as [[err ->] | ->].
    + exists (Some err), db. split; [done | by left].
    + exists None, (db ++ [create; insert]). split; [done | by right].
Qed.

(** The claim as stated fails when the table cannot be created: the failure
    reaches the caller and the database stays without a ledger. *)
Lemma EnsureDBVersion_bootstrap_can_fail :
  dbVersionQuery (Dialect (Driver sampleConf)) [] = QueryError ErrTableDoesNotExist
  /\ EnsureDBVersion readOnlyServer sampleConf []
     = (Return (0, Some (Errorf "creating migration table: %s"
                           [VError (ForeignError "permission denied")])), []).
Proof. split; vm_compute; reflexivity. Qed.

(** ** Applying the plan *)

Lemma applyMigrations_app (tc : GoToolchain)
    (runSQLMigration : DBConf -> string -> Z -> Direction -> Run (option error))
    (conf : DBConf) (direction : Direction) (pre rest : list Migration) :
  forall db db1,
    applyMigrations tc runSQLMigration conf direction pre db = (Return None, db1) ->
    applyMigrations tc runSQLMigration conf direction (pre ++ rest) db
    = applyMigrations tc runSQLMigration conf direction rest db1.
Proof.
  induction pre as [|x pre IH]; intros db db1 Hpre; simpl in *.
  - unfold ret in Hpre. by simplify_eq.
  - unfold bind in *.
    destruct (runMigration tc runSQLMigration conf direction x db) as [[[e|]| | |] db'];
      try done.
    by apply IH.
Qed.

(** A run reaches the application loop with the plan, at the database that
    [EnsureDBVersion] leaves. *)
Lemma RunMigrationsOnDb_applies_plan (srv : SqlServer) (walk : string -> list WalkEntry)
    (tc : GoToolchain)
    (runSQLMigration : DBConf -> string -> Z -> Direction -> Run (option error))
    (conf : DBConf) (migrationsDir : string) (target : Z) (db db0 : DB)
    (current : Z) (units units' : list Migration) (direction : Direction)
    (ms : list Migration) :
  EnsureDBVersion srv conf db = (Return (current, None), db0) ->
  CollectMigrations migrationsDir (walk migrationsDir) = Return (units, None) ->
  getMigrationsStatus (dbVersionQuery (Dialect (Driver conf)) db0) units
  = Return (None, units') ->
  planMigrations current target units' = (direction, ms) ->
  RunMigrationsOnDb srv walk tc runSQLMigration conf migrationsDir target db
  = applyMigrations tc runSQLMigration conf direction ms db0.
Proof.
  intros He Hc Hs Hp. unfold RunMigrationsOnDb, bind, lift.
  rewrite He, Hc, Hs, Hp. by destruct ms.
Qed.

(** The only error [runGoMigration] returns is that of the encoding of the
    configuration, before anything is run. *)
Lemma runGoMigration_error (tc : GoToolchain) (conf : DBConf) (path : string)
    (version : Z) (direction : bool) (db db' : DB) (cause : error) :
  runGoMigration tc conf path version direction db = (Return (Some cause), db') ->
  db' = db /\ gobEncode tc conf = Some cause.
Proof.
  unfold runGoMigration.
  destruct (TempDir tc); [done |].
  destruct (gobEncode tc conf) as [err|]; [by intros [= <- <-] |].
  destruct (writeTemplateToFile tc); [done |].
  destruct (copyFile tc path); [done |].
  by destruct (goRun tc conf path version direction db) as [[e|] db''].
Qed.

(** C4, amended. In a run whose plan is [pre ++ m :: post], when the units
    of [pre] have been applied, leaving the database [db1], and applying
    [m] returns an error, the run returns at once the error
    "FAIL <cause>, quitting migration" built from that cause alone, in the
    database the failed attempt leaves.  That database is [db1], so that
    what the units of [pre] recorded stays as they left it: always when [m]
    is a code migration, and when [m] is an SQL migration provided
    [runSQLMigration] has left the database as it found it.  No unit of
    [post] is run, the outcome being that of the plan cut after [m]; and
    when applying [m] leaves the process instead, the run leaves it too. *)
Theorem RunMigrationsOnDb_stops_at_first_failure (srv : SqlServer)
    (walk : string -> list WalkEntry) (tc : GoToolchain)
    (runSQLMigration : DBConf -> string -> Z -> Direction -> Run (option error))
    (conf : DBConf) (migrationsDir : string) (target : Z) (db db0 db1 : DB)
    (current : Z) (units units' : list Migration) (direction : Direction)
    (pre : list Migration) (m : Migration) (post : list Migration) :
  EnsureDBVersion srv conf db = (Return (current, None), db0) ->
  CollectMigrations migrationsDir (walk migrationsDir) = Return (units, None) ->
  getMigrationsStatus (dbVersionQuery (Dialect (Driver conf)) db0) units
  = Return (None, units') ->
  planMigrations current target units' = (direction, pre ++ m :: post) ->
  applyMigrations tc runSQLMigration conf direction pre db0 = (Return None, db1) ->
  (forall cause db2,
     runMigration tc runSQLMigration conf direction m db1 = (Return (Some cause), db2) ->
     RunMigrationsOnDb srv walk tc runSQLMigration conf migrationsDir target db
     = (Return (Some (Errorf "FAIL %v, quitting migration" [VError cause])), db2))
  /\ (forall cause db2,
        runMigration tc runSQLMigration conf direction m db1 = (Return (Some cause), db2) ->
        (Go.Ext (Source m) = ".sql" ->
         runSQLMigration conf (Source m) (Version m) direction db1
         = (Return (Some cause), db1)) ->
        db2 = db1
        /\ RunMigrationsOnDb srv walk tc runSQLMigration conf migrationsDir target db
           = (Return (Some (Errorf "FAIL %v, quitting migration" [VError cause])), db1))
  /\ (forall operands db2,
        runMigration tc runSQLMigration conf direction m db1 = (Fatal operands, db2) ->
        RunMigrationsOnDb srv walk tc runSQLMigration conf migrationsDir target db
        = (Fatal operands, db2))
  /\ ((forall db2, runMigration tc runSQLMigration conf direction m db1 <> (Return None, db2)) ->
      RunMigrationsOnDb srv walk tc runSQLMigration conf migrationsDir target db
      = applyMigrations tc runSQLMigration conf direction (pre ++ [m]) db0).
Proof.
  intros He Hc Hs Hp Hpre.
  rewrite (RunMigrationsOnDb_applies_plan _ _ _ _ _ _ _ _ _ _ _ _ _ _ He Hc Hs Hp).
  rewrite (applyMigrations_app _ _ _ _ _ _ _ _ Hpre).
  rewrite (applyMigrations_app _ _ _ _ _ [m] _ _ Hpre).
  simpl. unfold bind, ret. split; [| split; [| split]].
  - intros cause db2 ->. done.
  - intros cause db2 Hm Hsql.
    assert (db2 = db1) as ->.
    { revert Hm Hsql. unfold runMigration.
      destruct (bool_decide (Go.Ext (Source m) = ".go")).
      - intros Hgo _. by destruct (runGoMigration_error _ _ _ _ _ _ _ _ Hgo).
      - destruct (bool_decide (Go.Ext (Source m) = ".sql")) eqn:Hext.
        + apply bool_decide_eq_true in Hext. intros Hrun Hback.
          rewrite (Hback Hext) in Hrun. by injection Hrun.
        + by intros [= ?]. }
    by rewrite Hm.
  - intros operands db2 ->. done.
  - intros Hfails.
    destruct (runMigration tc runSQLMigration conf direction m db1) as [[[e|]| | |] db2];
      simpl; try done.
    by destruct (Hfails db2).
Qed.

(** The claim as stated fails on the reported error: two runs that fail on
    units of different versions report one and the same error, the cause
    that [runGoMigration] returns being that of the configuration. *)
Lemma RunMigrationsOnDb_error_does_not_name_the_version :
  CollectMigrations "a" (codeWalk "a") = Return ([newMigration 1 "a/1_first.go"], None)
  /\ CollectMigrations "b" (codeWalk "b") = Return ([newMigration 2 "b/2_second.go"], None)
  /\ fst (RunMigrationsOnDb sampleServer codeWalk unregisteredToolchain
            (runSQLMigrationSpec sampleServer sampleScript) redshiftConf "a" 5 [])
     = Return (Some (Errorf "FAIL %v, quitting migration"
                       [VError (ForeignError
                                  "gob: type not registered for interface: goose.RedshiftDialect")]))
  /\ fst (RunMigrationsOnDb sampleServer codeWalk unregisteredToolchain
            (runSQLMigrationSpec sampleServer sampleScript) redshiftConf "b" 5 [])
     = fst (RunMigrationsOnDb sampleServer codeWalk unregisteredToolchain
              (runSQLMigrationSpec sampleServer sampleScript) redshiftConf "a" 5 []).
Proof. repeat split; vm_compute; reflexivity. Qed.

(** ** The definitions at work *)

Example Base_nested : Go.Base "db/migrations/20010203040506_first.sql" = "20010203040506_first.sql".
Proof. reflexivity. Qed.

Example Base_trailing : Go.Base "db/migrations//" = "migrations".
Proof. reflexivity. Qed.

Example Ext_sql : Go.Ext "001_init.up.sql" = ".sql".
Proof. reflexivity. Qed.

Example Ext_none : Go.Ext "a.d/README" = "".
Proof. reflexivity. Qed.

Example ParseInt_neg : Go.ParseInt "-12" = (-12, None).
Proof. reflexivity. Qed.

Example ParseInt_range :
  Go.ParseInt "9223372036854775808"
  = (9223372036854775807, Some (NumError "ParseInt" "9223372036854775808" true)).
Proof. vm_compute. reflexivity. Qed.

Example Join_twice : Go.Join ["db/migrations"; "db/migrations/1_a.sql"] = "db/migrations/db/migrations/1_a.sql".
Proof. reflexivity. Qed.

Example Join_dots : Go.Join ["/a/./b"; "../c//d.sql"] = "/a/c/d.sql".
Proof. reflexivity. Qed.

Example NumericComponent_ok :
  NumericComponent "db/migrations/20010203040506_first.sql" = (20010203040506, None).
Proof. vm_compute. reflexivity. Qed.

Example NumericComponent_zero :
  NumericComponent "db/migrations/0_init.sql"
  = (0, Some (Errorf "migration IDs must be greater than zero" [])).
Proof. vm_compute. reflexivity. Qed.

Example NumericComponent_readme :
  NumericComponent "db/migrations/README.md"
  = (0, Some (Errorf "not a recognized migration file type" [])).
Proof. vm_compute. reflexivity. Qed.

Example CollectMigrations_three :
  CollectMigrations "m"
    [mkEntry "m" true; mkEntry "m/1_a.sql" false; mkEntry "m/2_b.go" false;
     mkEntry "m/3_c.sql" false; mkEntry "m/notes.txt" false]
  = Return ([newMigration 1 "m/1_a.sql"; newMigration 2 "m/2_b.go";
             newMigration 3 "m/3_c.sql"], None).
Proof. vm_compute. reflexivity. Qed.

Example CollectMigrations_duplicate :
  CollectMigrations "m"
    [mkEntry "m" true; mkEntry "m/01_b.go" false; mkEntry "m/1_a.sql" false]
  = Fatalf duplicateVersionFormat
      [VInt 1; VString "m/01_b.go"; VString "m/m/1_a.sql"].
Proof. vm_compute. reflexivity. Qed.

Example GetPreviousDBVersion_middle :
  GetPreviousDBVersion
    (visitOf <$> [mkEntry "m" true; mkEntry "m/1_a.sql" false; mkEntry "m/5_b.sql" false;
                  mkEntry "m/9_c.sql" false]) 9 = Return (5, None).
Proof. vm_compute. reflexivity. Qed.

Example GetPreviousDBVersion_no_directory :
  GetPreviousDBVersion [mkVisit "nonexistent" None] 1 = Panicked nilInfoPanic.
Proof. reflexivity. Qed.

Example plan_up :
  planMigrations 1 3
    [mkMigration 3 false 0 "3_c.sql"; mkMigration 1 true 5 "1_a.sql";
     mkMigration 4 false 0 "4_d.sql"; mkMigration 2 false 0 "2_b.sql"]
  = (DirectionUp, [mkMigration 2 false 0 "2_b.sql"; mkMigration 3 false 0 "3_c.sql"]).
Proof. vm_compute. reflexivity. Qed.

Example plan_down :
  planMigrations 3 1
    [mkMigration 1 true 5 "1_a.sql"; mkMigration 2 true 6 "2_b.sql";
     mkMigration 3 true 7 "3_c.sql"; mkMigration 4 false 0 "4_d.sql"]
  = (DirectionDown,
     [mkMigration 3 true 7 "3_c.sql"; mkMigration 2 true 6 "2_b.sql";
      mkMigration 1 true 5 "1_a.sql"]).
Proof. vm_compute. reflexivity. Qed.

(** ** The theorems at sample inputs *)

(** A decidable statement about concrete data, settled by evaluation. *)
Ltac by_evaluation :=
  match goal with
  | |- ?P => apply (bool_decide_unpack P); vm_compute; exact I
  end.

Lemma EnsureDBVersion_first_applied_witness :
  dbVersionQuery (Dialect (Driver sampleConf)) sampleLedger
  = QueryRows (Scanned <$> sampleHistory)
  /\ EnsureDBVersion sampleServer sampleConf sampleLedger
     = (Return (1, None), sampleLedger).
Proof.
  split; [vm_compute; reflexivity |].
  apply (proj1 (EnsureDBVersion_first_applied sampleServer sampleConf sampleLedger
                  sampleHistory eq_refl)).
  exists [ledgerRow 2 false 5; ledgerRow 2 true 4], (ledgerRow 1 true 3),
         [ledgerRow 0 true 2].
  split; [reflexivity |]. split; [reflexivity |]. split; [reflexivity |].
  split.
  - by_evaluation.
  - intros [|[|i]] r' Hi; simpl in Hi.
    + right. injection Hi as <-. reflexivity.
    + left. injection Hi as <-. by_evaluation.
    + discriminate.
Defined.

Lemma planMigrations_direction_and_work_list_witness :
  fst (planMigrations 0 3 sampleUnits) = DirectionUp
  /\ StronglySorted ascending (snd (planMigrations 0 3 sampleUnits)).
Proof.
  split; [reflexivity |].
  apply (proj2 (proj2 (planMigrations_direction_and_work_list 0 3 sampleUnits))).
  reflexivity.
Defined.

Lemma getMigrationsStatus_latest_record_witness :
  CollectMigrations "m" (sampleWalk "m") = Return (sampleUnits, None)
  /\ getMigrationsStatus (QueryError ErrTableDoesNotExist) sampleUnits
     = Return (None, clearApplied <$> sampleUnits)
  /\ exists units',
       getMigrationsStatus (QueryRows (Scanned <$> sampleHistory)) sampleUnits
       = Return (None, units')
       /\ Version <$> units' = Version <$> sampleUnits.
Proof.
  split; [vm_compute; reflexivity |].
  destruct (getMigrationsStatus_latest_record "m" (sampleWalk "m") sampleUnits)
    as (Hrows & Hnone & _); [vm_compute; reflexivity |].
  split; [exact Hnone |].
  destruct (Hrows sampleHistory) as (units' & Hstatus & Hversions & _).
  exists units'. split; assumption.
Defined.

Lemma RunMigrationsOnDb_stops_at_first_failure_witness :
  applyMigrations sampleToolchain (runSQLMigrationSpec sampleServer sampleScript)
    sampleConf DirectionUp [newMigration 1 "m/1_setup.sql"]
    [(createVersionTableSql specDialect, []);
     (insertVersionSql specDialect, [VInt 0; VBool true])]
  = (Return None,
     [(createVersionTableSql specDialect, []);
      (insertVersionSql specDialect, [VInt 0; VBool true]);
      ("CREATE TABLE test (value)", []);
      (insertVersionSql specDialect, [VInt 1; VBool true])])
  /\ RunMigrationsOnDb sampleServer sampleWalk sampleToolchain
       (runSQLMigrationSpec sampleServer sampleScript) sampleConf "m" 3 []
     = (Return (Some (Errorf "FAIL %v, quitting migration"
                        [VError (ForeignError "no such table: missing")])),
        [(createVersionTableSql specDialect, []);
         (insertVersionSql specDialect, [VInt 0; VBool true]);
         ("CREATE TABLE test (value)", []);
         (insertVersionSql specDialect, [VInt 1; VBool true])]).
Proof.
  split; [vm_compute; reflexivity |].
  apply (proj1 (proj2 (RunMigrationsOnDb_stops_at_first_failure
                  sampleServer sampleWalk sampleToolchain
                  (runSQLMigrationSpec sampleServer sampleScript) sampleConf "m" 3
                  []
                  [(createVersionTableSql specDialect, []);
                   (insertVersionSql specDialect, [VInt 0; VBool true])]
                  [(createVersionTableSql specDialect, []);
                   (insertVersionSql specDialect, [VInt 0; VBool true]);
                   ("CREATE TABLE test (value)", []);
                   (insertVersionSql specDialect, [VInt 1; VBool true])]
                  0 sampleUnits sampleUnits DirectionUp
                  [newMigration 1 "m/1_setup.sql"] (newMigration 2 "m/2_one.sql")
                  [newMigration 3 "m/3_two.sql"]
                  ltac:(vm_compute; reflexivity) ltac:(vm_compute; reflexivity)
                  ltac:(vm_compute; reflexivity) ltac:(vm_compute; reflexivity)
                  ltac:(vm_compute; reflexivity)))
           (ForeignError "no such table: missing")
           [(createVersionTableSql specDialect, []);
            (insertVersionSql specDialect, [VInt 0; VBool true]);
            ("CREATE TABLE test (value)", []);
            (insertVersionSql specDialect, [VInt 1; VBool true])]).
  - vm_compute. reflexivity.
  - intros _. vm_compute. reflexivity.
Defined.

Lemma EnsureDBVersion_bootstrap_witness :
  dbVersionQuery (Dialect (Driver sampleConf)) [] = QueryError ErrTableDoesNotExist
  /\ EnsureDBVersion sampleServer sampleConf []
     = (Return (0, None),
        [(createVersionTableSql specDialect, []);
         (insertVersionSql specDialect, [VInt 0; VBool true])]).
Proof.
  split; [vm_compute; reflexivity |].
  apply (proj1 (EnsureDBVersion_bootstrap sampleServer sampleConf []
                  ltac:(vm_compute; reflexivity)));
    vm_compute; reflexivity.
Defined.

Lemma CollectMigrations_duplicate_is_fatal_witness :
  (exists i' j' e1 e2 v',
     (i' < j')%nat
     /\ [mkEntry "m" true; mkEntry "m/01_b.go" false; mkEntry "m/1_a.sql" false] !! i'
        = Some e1
     /\ [mkEntry "m" true; mkEntry "m/01_b.go" false; mkEntry "m/1_a.sql" false] !! j'
        = Some e2
     /\ NumericComponent (path e1) = (v', None)
     /\ NumericComponent (path e2) = (v', None)
     /\ CollectMigrations "m"
          [mkEntry "m" true; mkEntry "m/01_b.go" false; mkEntry "m/1_a.sql" false]
        = Fatalf duplicateVersionFormat
            [VInt v'; VString (path e1); VString (Go.Join ["m"; path e2])])
  /\ CollectMigrations "m"
       [mkEntry "m" true; mkEntry "m/01_b.go" false; mkEntry "m/1_a.sql" false]
     = Fatalf duplicateVersionFormat
         [VInt 1; VString "m/01_b.go"; VString "m/m/1_a.sql"]
  /\ "m/m/1_a.sql" <> "m/1_a.sql".
Proof.
  split; [| split; [vm_compute; reflexivity | discriminate]].
  apply (proj1 (CollectMigrations_duplicate_is_fatal "m"
                  [mkEntry "m" true; mkEntry "m/01_b.go" false; mkEntry "m/1_a.sql" false])
           1%nat 2%nat (mkEntry "m/01_b.go" false) (mkEntry "m/1_a.sql" false) 1).
  - apply Nat.lt_succ_diag_r.
  - reflexivity.
  - reflexivity.
  - vm_compute. reflexivity.
  - vm_compute. reflexivity.
Defined.

Lemma planMigrations_target_is_current_witness :
  fst (planMigrations 3 3 sampleUnits) = DirectionUp
  /\ snd (planMigrations 3 3 sampleUnits) <> [].
Proof.
  split; [apply (proj1 (planMigrations_target_is_current 3 sampleUnits)) |].
  intros Hnil.
  pose proof (proj1 (proj2 (proj2 (planMigrations_target_is_current 3 sampleUnits))) Hnil
                (newMigration 1 "m/1_setup.sql") (list_elem_of_here _ _)
                ltac:(vm_compute; discriminate)) as H.
  discriminate H.
Defined.

Lemma CollectMigrations_skips_non_positive_witness :
  NumericComponent "m/0_init.sql"
  = (0, Some (Errorf "migration IDs must be greater than zero" []))
  /\ CollectMigrations "m"
       ([mkEntry "m" true] ++ mkEntry "m/0_init.sql" false :: [mkEntry "m/1_a.sql" false])
     = CollectMigrations "m" ([mkEntry "m" true] ++ [mkEntry "m/1_a.sql" false]).
Proof.
  destruct (CollectMigrations_skips_non_positive "m" [mkEntry "m" true]
              (mkEntry "m/0_init.sql" false) [mkEntry "m/1_a.sql" false] 0)
    as (Hnum & Hskip & _).
  - right. vm_compute. reflexivity.
  - vm_compute. discriminate.
  - vm_compute. reflexivity.
  - vm_compute. discriminate.
  - split; assumption.
Defined.

Lemma GetPreviousDBVersion_cases_witness :
  exists p, GetPreviousDBVersion (visitOf <$> sampleWalk "m") 3 = Return (p, None) /\ p < 3.
Proof.
  destruct (proj1 (proj2 (proj2 (proj2 (GetPreviousDBVersion_cases (sampleWalk "m") 3)))))
    as (p & Hp & _ & Hlt & _).
  - exists 2. split; [| reflexivity].
    by_evaluation.
  - exists p. split; assumption.
Defined.

Lemma getMigrationsStatus_first_row_wins_witness :
  CollectMigrations "m" (sampleWalk "m") = Return (sampleUnits, None)
  /\ getMigrationsStatus
       (QueryRows (Scanned <$> ([] ++ ledgerRow 1 true 7 :: [ledgerRow 0 true 2]
                                   ++ ledgerRow 1 false 7 :: [])))
       sampleUnits
     = getMigrationsStatus
         (QueryRows (Scanned <$> ([] ++ ledgerRow 1 true 7 :: [ledgerRow 0 true 2] ++ [])))
         sampleUnits.
Proof.
  split; [vm_compute; reflexivity |].
  apply (proj1 (proj2 (getMigrationsStatus_first_row_wins "m" (sampleWalk "m") sampleUnits
                         ltac:(vm_compute; reflexivity))));
    reflexivity.
Defined.

(** * Further properties *)

(** ** The newest and the previous version *)

Lemma fileVersions_cons (entry : WalkEntry) (tree : list WalkEntry) :
  fileVersions (entry :: tree)
  = (if isDir entry then []
     else match NumericComponent (path entry) with
          | (v, None) => [v]
          | (_, Some _) => []
          end) ++ fileVersions tree.
Proof.
  unfold fileVersions. simpl. destruct (isDir entry); [done |].
  by destruct (NumericComponent (path entry)) as [v [e|]].
Qed.

Lemma mostRecentWalk_max (calls : list WalkCall) : forall version,
  mostRecentWalk calls version
  = fold_left Z.max (fileVersions (beforeWalkError calls)) version.
Proof.
  induction calls as [|[entry [walkerr|]] calls IH]; intros version;
    cbn [mostRecentWalk beforeWalkError]; [done | done |].
  unfold mostRecentStep. cbn [fst snd]. rewrite fileVersions_cons.
  destruct (isDir entry); cbn [app fold_left]; [apply IH |].
  destruct (NumericComponent (path entry)) as [v [e|]]; cbn [app fold_left]; [apply IH |].
  rewrite IH. f_equal.
  destruct (version <? v) eqn:Hlt; [apply Z.ltb_lt in Hlt | apply Z.ltb_ge in Hlt]; lia.
Qed.

Lemma fold_max_spec (vs : list Z) : forall start,
  start <= fold_left Z.max vs start
  /\ (forall v, v ∈ vs -> v <= fold_left Z.max vs start)
  /\ (fold_left Z.max vs start = start \/ (fold_left Z.max vs start ∈ vs)).
Proof.
  induction vs as [|x vs IH]; intros start; simpl.
  - split; [lia |]. split; [| by left]. intros v Hv. by apply elem_of_nil in Hv.
  - destruct (IH (Z.max start x)) as (Hle & Hall & Hin).
    split; [lia |]. split.
    + intros v Hv. apply elem_of_cons in Hv as [-> |Hv]; [lia | by apply Hall].
    + destruct Hin as [Heq|Hin]; [| right; by apply list_elem_of_further].
      rewrite Heq.
      destruct (Z.max_spec start x) as [[_ Hm]|[_ Hm]]; rewrite Hm.
      * right. apply list_elem_of_here.
      * by left.
Qed.

(** X1. [GetMostRecentDBVersion] looks at the migration files the walk
    reaches before its first error: without such a file it returns -1 and
    the error "no valid version found"; otherwise it returns without error
    the largest of their versions. *)
Theorem GetMostRecentDBVersion_largest (calls : list WalkCall) :
  (fileVersions (beforeWalkError calls) = [] ->
   GetMostRecentDBVersion calls = (-1, Some (Errorf "no valid version found" [])))
  /\ (fileVersions (beforeWalkError calls) <> [] ->
      exists v, GetMostRecentDBVersion calls = (v, None)
                /\ (v ∈ fileVersions (beforeWalkError calls))
                /\ forall w, w ∈ fileVersions (beforeWalkError calls) -> w <= v).
Proof.
  unfold GetMostRecentDBVersion. rewrite mostRecentWalk_max.
  destruct (fold_max_spec (fileVersions (beforeWalkError calls)) (-1))
    as (Hle & Hall & Hin).
  split.
  - intros Hnil. rewrite Hnil. done.
  - intros Hne.
    destruct (fileVersions (beforeWalkError calls)) as [|x vs] eqn:Hvs; [done |].
    assert (0 < x) as Hx.
    { apply (fileVersions_positive (beforeWalkError calls)). rewrite Hvs.
      apply list_elem_of_here. }
    pose proof (Hall x (list_elem_of_here _ _)) as Hxle.
    destruct (fold_left Z.max (x :: vs) (-1) =? -1) eqn:Heq;
      [apply Z.eqb_eq in Heq; lia |].
    eexists. split; [done |]. split; [| done].
    destruct Hin as [Hin|Hin]; [| done]. apply Z.eqb_neq in Heq. done.
Qed.

(** X2. When [GetPreviousDBVersion] returns without error, the version it
    returns is below the given one and is not negative: it is the version
    of a migration file, or 0. *)
Theorem GetPreviousDBVersion_goes_down (visits : list WalkVisit) (version p : Z) :
  GetPreviousDBVersion visits version = Return (p, None) ->
  0 <= p < version /\ (p = 0 \/ (p ∈ fileVersions (statted visits))).
Proof.
  unfold GetPreviousDBVersion.
  destruct (previousWalk_outcome version visits (-1, false)) as [[_ ->] | [_ ->]];
    [| done].
  pose proof (previousOf_fold version (fileVersions (statted visits)) (-1, false)) as H.
  simpl in H. destruct H as (Hsaw & Hle & Hfst & Hmax).
  destruct (fold_left (previousOf version) (fileVersions (statted visits)) (-1, false))
    as [previous saw]. simpl in *.
  destruct (previous =? -1) eqn:Hp; [apply Z.eqb_eq in Hp | apply Z.eqb_neq in Hp].
  - destruct saw; [| done]. intros [= <-].
    destruct (proj1 Hsaw eq_refl) as [?|Hin]; [done |].
    apply fileVersions_positive in Hin. split; [lia | by left].
  - intros [= <-]. destruct Hfst as [?|[Hin Hlt]]; [done |].
    pose proof (fileVersions_positive _ _ Hin). split; [lia | by right].
Qed.

Lemma beforeWalkError_no_error (calls : list WalkCall) :
  Forall (fun call => snd call = None) calls ->
  beforeWalkError calls = fst <$> calls.
Proof.
  induction 1 as [|[entry walkerr] calls Hcall _ IH]; [done |].
  simpl in *. subst walkerr. by rewrite IH.
Qed.

(** X3. On a walk without errors, the newest version always has a previous
    one: [GetPreviousDBVersion] at the version [GetMostRecentDBVersion]
    returns does not fail, and what it returns is below that version. *)
Theorem GetPreviousDBVersion_of_most_recent (calls : list WalkCall) (v : Z) :
  Forall (fun call => snd call = None) calls ->
  GetMostRecentDBVersion calls = (v, None) ->
  exists p, GetPreviousDBVersion (visitOf <$> (fst <$> calls)) v = Return (p, None)
            /\ 0 <= p < v.
Proof.
  intros Hcalls Hrecent.
  assert (v ∈ fileVersions (fst <$> calls)) as Hin.
  { rewrite <- beforeWalkError_no_error by done.
    revert Hrecent. unfold GetMostRecentDBVersion. rewrite mostRecentWalk_max.
    destruct (fold_max_spec (fileVersions (beforeWalkError calls)) (-1))
      as (_ & _ & Hin).
    destruct (fold_left Z.max _ (-1) =? -1) eqn:Heq; [done |].
    intros [= <-]. apply Z.eqb_neq in Heq. by destruct Hin. }
  unfold GetPreviousDBVersion. rewrite previousWalk_fileVersions.
  pose proof (previousOf_fold v (fileVersions (fst <$> calls)) (-1, false)) as H.
  simpl in H. destruct H as (Hsaw & _ & Hfst & _).
  destruct (fold_left (previousOf v) _ (-1, false)) as [previous saw]. simpl in *.
  assert (saw = true) as -> by (apply Hsaw; by right).
  pose proof (fileVersions_positive _ _ Hin) as Hv.
  destruct (previous =? -1) eqn:Hp; [apply Z.eqb_eq in Hp | apply Z.eqb_neq in Hp].
  - exists 0. split; [done | lia].
  - exists previous. split; [done |].
    destruct Hfst as [?|[Hprev Hlt]]; [done |].
    pose proof (fileVersions_positive _ _ Hprev). lia.
Qed.

(** X21. [GetPreviousDBVersion] returns exactly when [filepath.Walk] hands
    an [info] with every call.  On a call with a nil [info], which is what
    the walk makes of a directory that does not exist, it panics on
    [info.IsDir()], whatever the other calls and the given version are. *)
Theorem GetPreviousDBVersion_panics_on_nil_info (visits : list WalkVisit) (version : Z) :
  ((exists p err, GetPreviousDBVersion visits version = Return (p, err))
   <-> Forall (fun visit => is_Some (visitInfo visit)) visits)
  /\ (GetPreviousDBVersion visits version = Panicked nilInfoPanic
      <-> Exists (fun visit => visitInfo visit = None) visits)
  /\ (Forall (fun visit => is_Some (visitInfo visit)) visits
      \/ Exists (fun visit => visitInfo visit = None) visits).
Proof.
  assert (Forall (fun visit => is_Some (visitInfo visit)) visits ->
          Exists (fun visit => visitInfo visit = None) visits -> False) as Hexcl.
  { intros Hall Hex. apply Exists_exists in Hex as (visit & Hin & Hnil).
    rewrite Forall_forall in Hall. destruct (Hall visit Hin) as [dir Hdir]. congruence. }
  unfold GetPreviousDBVersion.
  destruct (previousWalk_outcome version visits (-1, false)) as [[Hall ->] | [Hex ->]].
  - destruct (fold_left (previousOf version) _ (-1, false)) as [previous saw]. simpl.
    assert (exists p err,
              (if previous =? -1
               then if saw then Return (0, None)
                    else Return (previous, Some ErrNoPreviousVersion)
               else Return (previous, None)) = Return (p, err)) as (p & err & Hreturn).
    { destruct (previous =? -1); [destruct saw |]; by eexists _, _. }
    rewrite Hreturn. split; [| split].
    + split; [done | by eexists _, _].
    + split; [done |]. intros Hex. by destruct (Hexcl Hall Hex).
    + by left.
  - simpl. split; [| split].
    + split; [by intros (p & err & ?) |]. intros Hall. by destruct (Hexcl Hall Hex).
    + done.
    + by right.
Qed.

(** ** More on the two readings of the ledger *)

Lemma noFreshApplied_skipped (toSkip : list Z) (x : Migration) (h : list Migration) :
  Version x ∈ toSkip ->
  noFreshApplied toSkip (x :: h) <-> noFreshApplied toSkip h.
Proof.
  intros Hx. split.
  - intros H i r Hi Hr. destruct (H (S i) r Hi Hr) as [?|Hin]; [by left |].
    simpl in Hin. apply elem_of_cons in Hin as [Heq|?]; [left | by right].
    by rewrite Heq.
  - intros H [|i] r Hi Hr; simpl in *.
    + left. by simplify_eq.
    + destruct (H i r Hi Hr) as [?|?]; [by left | right].
      by apply list_elem_of_further.
Qed.

Lemma noFreshApplied_reverted (toSkip : list Z) (x : Migration) (h : list Migration) :
  IsApplied x = false ->
  noFreshApplied toSkip (x :: h) <-> noFreshApplied (toSkip ++ [Version x]) h.
Proof.
  intros Hx. split.
  - intros H i r Hi Hr. destruct (H (S i) r Hi Hr) as [?|Hin].
    + left. apply elem_of_app. by left.
    + simpl in Hin. apply elem_of_cons in Hin as [Heq|?]; [left | by right].
      rewrite Heq. apply elem_of_app. right. apply list_elem_of_here.
  - intros H [|i] r Hi Hr; simpl in *.
    + simplify_eq. congruence.
    + destruct (H i r Hi Hr) as [Hin|?].
      * apply elem_of_app in Hin as [?|Hin]; [by left | right].
        apply list_elem_of_singleton in Hin. rewrite Hin. apply list_elem_of_here.
      * right. by apply list_elem_of_further.
Qed.

Lemma versionLoop_panics (h : list Migration) : forall toSkip,
  versionLoop toSkip (Scanned <$> h) = Panicked "failure in EnsureDBVersion()"
  <-> noFreshApplied toSkip h.
Proof.
  induction h as [|x h IH]; intros toSkip; simpl.
  - split; [| done]. intros _ i r Hi. done.
  - destruct (versionStep_cases toSkip x)
      as [[Hin ->] | [(Hnot & Happ & ->) | (Hnot & Happ & ->)]].
    + by rewrite IH, noFreshApplied_skipped.
    + split; [done |]. intros H.
      destruct (H 0%nat x eq_refl Happ) as [?|Hin]; [done |].
      simpl in Hin. by apply elem_of_nil in Hin.
    + by rewrite IH, noFreshApplied_reverted.
Qed.

Lemma versionLoop_returns_or_panics (h : list Migration) : forall toSkip,
  (exists v, versionLoop toSkip (Scanned <$> h) = Return v)
  \/ versionLoop toSkip (Scanned <$> h) = Panicked "failure in EnsureDBVersion()".
Proof.
  induction h as [|x h IH]; intros toSkip; simpl; [by right |].
  destruct (versionStep toSkip x) as [v|toSkip']; [left; by exists v | apply IH].
Qed.

(** X4. On a history that scans, [EnsureDBVersion] either returns a version
    without error or panics, and leaves the database as it is; it panics
    exactly when every applied record has a version that an earlier record
    of the history carries, in particular on the empty history. *)
Theorem EnsureDBVersion_panics_without_applied_head (srv : SqlServer) (conf : DBConf)
    (db : DB) (h : list Migration) :
  dbVersionQuery (Dialect (Driver conf)) db = QueryRows (Scanned <$> h) ->
  ((exists v, EnsureDBVersion srv conf db = (Return (v, None), db))
   \/ EnsureDBVersion srv conf db = (Panicked "failure in EnsureDBVersion()", db))
  /\ (EnsureDBVersion srv conf db = (Panicked "failure in EnsureDBVersion()", db)
      <-> forall i r, h !! i = Some r -> IsApplied r = true ->
            Version r ∈ (Version <$> take i h)).
Proof.
  intros Hq. unfold EnsureDBVersion. rewrite Hq. unfold bind, lift, ret.
  split.
  - destruct (versionLoop_returns_or_panics h []) as [[v ->] | ->];
      [left; by exists v | by right].
  - assert (noFreshApplied [] h
            <-> forall i r, h !! i = Some r -> IsApplied r = true ->
                  Version r ∈ (Version <$> take i h)) as <-.
    { split.
      - intros H i r Hi Hr. destruct (H i r Hi Hr) as [Hin|?]; [| done].
        by apply elem_of_nil in Hin.
      - intros H i r Hi Hr. right. by apply H. }
    rewrite <- versionLoop_panics.
    destruct (versionLoop [] (Scanned <$> h)); split; intros Heq; by simplify_eq.
Qed.

Lemma versionLoop_prefix (h : list Migration) (rest : list Fetch) : forall toSkip v,
  versionLoop toSkip (Scanned <$> h) = Return v ->
  versionLoop toSkip ((Scanned <$> h) ++ rest) = Return v.
Proof.
  induction h as [|x h IH]; intros toSkip v; simpl; [done |].
  destruct (versionStep toSkip x); [done | apply IH].
Qed.

(** X5. [EnsureDBVersion] reads no further than the row that decides: when
    the rows up to some point give a version, that version is returned
    whatever follows them, be it rows that fail to scan. *)
Theorem EnsureDBVersion_reads_up_to_the_deciding_row (srv : SqlServer) (conf : DBConf)
    (db : DB) (h : list Migration) (rest : list Fetch) (v : Z) :
  dbVersionQuery (Dialect (Driver conf)) db = QueryRows ((Scanned <$> h) ++ rest) ->
  versionLoop [] (Scanned <$> h) = Return v ->
  EnsureDBVersion srv conf db = (Return (v, None), db).
Proof.
  intros Hq Hv. unfold EnsureDBVersion. rewrite Hq.
  unfold bind, lift, ret. by rewrite (versionLoop_prefix _ _ _ _ Hv).
Qed.

Lemma statusLoop_scan_error (mm : gmap Z nat) (h : list Migration) (e : error)
    (rest : list Fetch) : forall heap,
  statusLoop mm heap ((Scanned <$> h) ++ ScanError e :: rest)
  = Fatal [VString "error scanning rows:"; VError e].
Proof.
  induction h as [|x h IH]; intros heap; simpl; [done | apply IH].
Qed.

(** X6. [getMigrationsStatus] reads every row: a row that fails to scan
    ends the process through [log.Fatal], wherever it stands in the history
    and whatever the migrations are. *)
Theorem getMigrationsStatus_scan_error_is_fatal (h : list Migration) (e : error)
    (rest : list Fetch) (migrations : list Migration) :
  getMigrationsStatus (QueryRows ((Scanned <$> h) ++ ScanError e :: rest)) migrations
  = Fatal [VString "error scanning rows:"; VError e].
Proof.
  unfold getMigrationsStatus.
  rewrite statusLoop_scan_error. reflexivity.
Qed.

(** X7. When the timestamps of the history fall along the query order and
    are after the zero time, the status pass gives each discovered unit the
    flag of the first record of its version in query order, the record the
    current-version loop goes by; so the unit of the version
    [EnsureDBVersion] returns comes out applied. *)
Theorem getMigrationsStatus_agrees_with_versionLoop (dirpath : string)
    (tree : list WalkEntry) (units h : list Migration) :
  CollectMigrations dirpath tree = Return (units, None) ->
  StronglySorted (fun a b => TStamp b < TStamp a) h ->
  Forall (fun r => zeroTime < TStamp r) h ->
  (forall pre r post j m,
     h = pre ++ r :: post -> Version r ∉ (Version <$> pre) ->
     units !! j = Some m -> Version m = Version r ->
     exists units' m',
       getMigrationsStatus (QueryRows (Scanned <$> h)) units = Return (None, units')
       /\ units' !! j = Some m' /\ IsApplied m' = IsApplied r)
  /\ (forall v j m,
        versionLoop [] (Scanned <$> h) = Return v ->
        units !! j = Some m -> Version m = v ->
        exists units' m',
          getMigrationsStatus (QueryRows (Scanned <$> h)) units = Return (None, units')
          /\ units' !! j = Some m' /\ IsApplied m' = true).
Proof.
  intros Hc Hsorted Hpos.
  assert (forall pre r post j m,
            h = pre ++ r :: post -> Version r ∉ (Version <$> pre) ->
            units !! j = Some m -> Version m = Version r ->
            exists units' m',
              getMigrationsStatus (QueryRows (Scanned <$> h)) units = Return (None, units')
              /\ units' !! j = Some m' /\ IsApplied m' = IsApplied r) as Hfirst.
  { intros pre r post j m -> Hfresh Hj Hv.
    destruct (getMigrationsStatus_discovered _ _ _ (pre ++ r :: post) Hc)
      as [Hstatus Hunit].
    eexists _, _. split; [exact Hstatus |]. split; [by apply Hunit |]. simpl.
    rewrite Hv, keptAfter_first_latest; [done | | |].
    - simpl. rewrite Forall_forall in Hpos. apply Hpos.
      apply elem_of_app. right. apply list_elem_of_here.
    - intros r' Hr' Hv'. destruct Hfresh. rewrite <- Hv'.
      apply list_elem_of_fmap. by exists r'.
    - intros r' Hr' _. apply StronglySorted_app_1_r in Hsorted.
      apply StronglySorted_inv in Hsorted as [_ Hall].
      rewrite Forall_forall in Hall. apply Z.lt_le_incl. by apply Hall. }
  split; [exact Hfirst |].
  intros v j m Hv Hj Hm. apply versionLoop_returns in Hv.
  destruct Hv as (pre & r & post & Hh & Hr & Happ & _ & Hfresh & _).
  destruct (Hfirst pre r post j m Hh) as (units' & m' & Hs & Hj' & Hflag);
    [congruence | done | congruence |].
  exists units', m'. split; [done |]. split; [done | congruence].
Qed.

Lemma keptAfter_dominates (v : Z) (rows : list Migration) : forall kept r,
  r ∈ rows -> Version r = v -> TStamp r <= snd (keptAfter v kept rows).
Proof.
  induction rows as [|x rows IH]; intros kept r Hr Hv.
  - by apply elem_of_nil in Hr.
  - unfold keptAfter in *. simpl. apply elem_of_cons in Hr as [-> |Hr].
    + etransitivity; [| apply (keptAfter_monotone v rows)].
      unfold keepRow, After. rewrite Hv, Z.eqb_refl. simpl.
      destruct (snd kept <? TStamp x) eqn:Hlt; simpl;
        [lia | apply Z.ltb_ge in Hlt; lia].
    + by apply IH.
Qed.

(** X8. The status pass counts on meeting the timestamps it has not set
    itself: run again on the migrations it has just resolved, with the same
    history, it keeps no row and leaves every unit not applied. *)
Theorem getMigrationsStatus_second_pass_clears (units rows units1 : list Migration) :
  NoDup (Version <$> units) ->
  getMigrationsStatus (QueryRows (Scanned <$> rows)) units = Return (None, units1) ->
  getMigrationsStatus (QueryRows (Scanned <$> rows)) units1
  = Return (None, clearApplied <$> units1)
  /\ Forall (fun m => IsApplied m = false) (clearApplied <$> units1).
Proof.
  intros Hnd Hfirst. rewrite getMigrationsStatus_rows in Hfirst by done.
  injection Hfirst as <-. split.
  - rewrite getMigrationsStatus_rows.
    + do 2 f_equal. rewrite <- !list_fmap_compose.
      apply list_fmap_ext. intros i m _. simpl.
      unfold resolveUnit at 1. simpl.
      rewrite keptAfter_not_later; [done |].
      intros r Hr Hv. simpl. by apply keptAfter_dominates.
    + rewrite <- !list_fmap_compose.
      erewrite list_fmap_ext; [exact Hnd |]. done.
  - apply Forall_forall. intros m Hm.
    apply list_elem_of_fmap in Hm as (m0 & -> & _). done.
Qed.

(** ** Discovery and planning do not depend on the order of the walk *)

Lemma filter_Permutation (f : Migration -> bool) (l1 l2 : list Migration) :
  l1 ≡ₚ l2 -> List.filter f l1 ≡ₚ List.filter f l2.
Proof.
  induction 1 as [|x l1 l2 _ IH|x y l|l1 l2 l3 _ IH1 _ IH2]; simpl.
  - done.
  - destruct (f x); [by constructor | done].
  - destruct (f x), (f y); try done. apply Permutation_swap.
  - by etransitivity.
Qed.

Lemma Version_inj_on (l : list Migration) (a b : Migration) :
  NoDup (Version <$> l) -> a ∈ l -> b ∈ l -> Version a = Version b -> a = b.
Proof.
  induction l as [|x l IH]; intros Hnd Ha Hb Hv.
  - by apply elem_of_nil in Ha.
  - rewrite fmap_cons in Hnd. apply NoDup_cons in Hnd as [Hx Hnd].
    apply elem_of_cons in Ha as [-> |Ha]; apply elem_of_cons in Hb as [-> |Hb].
    + done.
    + destruct Hx. rewrite Hv. apply list_elem_of_fmap. by exists b.
    + destruct Hx. rewrite <- Hv. apply list_elem_of_fmap. by exists a.
    + by apply IH.
Qed.

(** Two ordered rearrangements of one list are equal when the order tells
    its elements apart. *)
Lemma sorted_rearrangements_equal (R : relation Migration) (l1 : list Migration) :
  forall l2,
  StronglySorted R l1 -> StronglySorted R l2 -> l1 ≡ₚ l2 ->
  (forall a b, a ∈ l1 -> b ∈ l1 -> R a b -> R b a -> a = b) ->
  l1 = l2.
Proof.
  induction l1 as [|a l1 IH]; intros l2 Hs1 Hs2 Hperm Hanti.
  - by apply Permutation_nil in Hperm.
  - destruct l2 as [|b l2]; [symmetry in Hperm; by apply Permutation_nil_cons in Hperm |].
    apply StronglySorted_inv in Hs1 as [Hs1 Ha].
    apply StronglySorted_inv in Hs2 as [Hs2 Hb].
    rewrite Forall_forall in Ha, Hb.
    assert (a = b) as <-.
    { assert (a ∈ b :: l2) as Hain by (rewrite <- Hperm; apply list_elem_of_here).
      assert (b ∈ a :: l1) as Hbin by (rewrite Hperm; apply list_elem_of_here).
      apply elem_of_cons in Hain as [? |Hain]; [done |].
      apply elem_of_cons in Hbin as [? |Hbin]; [done |].
      apply Hanti; [apply list_elem_of_here | by apply list_elem_of_further | |].
      - by apply Ha.
      - by apply Hb. }
    f_equal. apply IH; try done.
    + by apply Permutation_cons_inv in Hperm.
    + intros x y Hx Hy. apply Hanti; by apply list_elem_of_further.
Qed.

Lemma planMigrations_Permutation (current target : Z) (ms1 ms2 : list Migration) :
  ms1 ≡ₚ ms2 -> NoDup (Version <$> ms1) ->
  planMigrations current target ms1 = planMigrations current target ms2.
Proof.
  intros Hperm Hnd.
  pose proof (planMigrations_selection current target ms1) as Hsel1.
  pose proof (planMigrations_selection current target ms2) as Hsel2.
  pose proof (planMigrations_sorted current target ms1) as Hsorted1.
  pose proof (planMigrations_sorted current target ms2) as Hsorted2.
  assert (snd (planMigrations current target ms1) ≡ₚ snd (planMigrations current target ms2))
    as Hplans.
  { rewrite Hsel1, Hsel2. by apply filter_Permutation. }
  assert (forall a b, a ∈ snd (planMigrations current target ms1) ->
                      b ∈ snd (planMigrations current target ms1) ->
                      Version a = Version b -> a = b) as Hinj.
  { intros a b Ha Hb. rewrite Hsel1 in Ha, Hb. unfold neededMigrations in *.
    apply list_elem_of_In, filter_In in Ha as [Ha _].
    apply list_elem_of_In, filter_In in Hb as [Hb _].
    apply (Version_inj_on ms1); by try apply list_elem_of_In. }
  destruct (planMigrations current target ms1) as [d1 p1] eqn:H1.
  destruct (planMigrations current target ms2) as [d2 p2] eqn:H2.
  assert (d1 = d2) as <-.
  { apply (f_equal fst) in H1, H2. simpl in *. congruence. }
  simpl in *. f_equal. destruct d1.
  - apply (sorted_rearrangements_equal ascending); try done.
    intros a b Ha Hb Hab Hba. apply Hinj; try done. unfold ascending in *. lia.
  - apply (sorted_rearrangements_equal descending); try done.
    intros a b Ha Hb Hab Hba. apply Hinj; try done. unfold descending in *. lia.
Qed.

Lemma CollectMigrations_iff_NoDup (dirpath : string) (tree : list WalkEntry) :
  CollectMigrations dirpath tree = Return (collected tree, None)
  <-> NoDup (Version <$> collected tree).
Proof.
  split.
  - intros H. apply CollectMigrations_Return in H. tauto.
  - intros Hnd. unfold CollectMigrations.
    pose proof (collectWalk_outcome dirpath tree [] (NoDup_nil_2 (A:=Z))) as Hout.
    destruct (collectWalk dirpath tree []) as [m'| |format operands|]; try done.
    + destruct Hout as [-> _]. done.
    + exfalso. destruct Hout as (_ & pre & entry & post & g & -> & Hentry & Hg & _).
      simpl in Hg. rewrite collected_app in Hnd.
      unfold collected at 2 in Hnd. simpl in Hnd.
      unfold unitOf at 1 in Hnd. rewrite Hentry in Hnd.
      rewrite fmap_app in Hnd. apply NoDup_app in Hnd as (_ & Hdisj & _).
      apply (Hdisj (Version g)).
      * apply list_elem_of_fmap. by exists g.
      * simpl. apply list_elem_of_here.
Qed.

(** X9. Discovery drops and adds nothing: when [CollectMigrations] returns,
    its units are, in the order of the walk, the entries whose name
    [NumericComponent] accepts, directories included, each once, with the
    walked path as source, not applied, at the zero time; and it returns
    exactly when the versions of those entries are pairwise different. *)
Theorem CollectMigrations_collects_every_accepted_entry (dirpath : string)
    (tree : list WalkEntry) :
  ((exists units, CollectMigrations dirpath tree = Return (units, None))
   <-> NoDup (Version <$> collected tree))
  /\ forall units, CollectMigrations dirpath tree = Return (units, None) ->
       units = collected tree
       /\ forall m, m ∈ units
            <-> exists entry, (entry ∈ tree)
                  /\ NumericComponent (path entry) = (Version m, None)
                  /\ m = mkMigration (Version m) false zeroTime (path entry).
Proof.
  split.
  - split.
    + intros [units H]. apply CollectMigrations_Return in H as (_ & -> & Hnd & _).
      done.
    + intros Hnd. exists (collected tree). by apply CollectMigrations_iff_NoDup.
  - intros units H. apply CollectMigrations_Return in H as (_ & -> & _).
    split; [done |]. intros m. unfold collected. rewrite list_elem_of_omap.
    split.
    + intros (entry & Hin & Hunit). apply unitOf_Some in Hunit as [Hnum Hm].
      exists entry. done.
    + intros (entry & Hin & Hnum & Hm). exists entry. split; [done |].
      apply unitOf_Some. done.
Qed.

(** X10. The plan does not depend on the order in which the directory is
    walked: for two walks with the same entries, discovery succeeds on both
    or on neither, the discovered units are rearrangements of each other,
    and for every history, current version and target the direction and the
    ordered work list are the same. *)
Theorem plan_independent_of_walk_order (dirpath : string)
    (tree1 tree2 : list WalkEntry) (units1 : list Migration) :
  tree1 ≡ₚ tree2 ->
  CollectMigrations dirpath tree1 = Return (units1, None) ->
  exists units2,
    CollectMigrations dirpath tree2 = Return (units2, None)
    /\ units1 ≡ₚ units2
    /\ forall h current target, exists status1 status2,
         getMigrationsStatus (QueryRows (Scanned <$> h)) units1 = Return (None, status1)
         /\ getMigrationsStatus (QueryRows (Scanned <$> h)) units2 = Return (None, status2)
         /\ planMigrations current target status1 = planMigrations current target status2.
Proof.
  intros Hperm Hc1.
  apply CollectMigrations_Return in Hc1 as (_ & -> & Hnd1 & _).
  assert (collected tree1 ≡ₚ collected tree2) as Hunits.
  { unfold collected. by rewrite Hperm. }
  assert (NoDup (Version <$> collected tree2)) as Hnd2 by (by rewrite <- Hunits).
  exists (collected tree2). split; [by apply CollectMigrations_iff_NoDup |].
  split; [done |]. intros h current target.
  eexists _, _. split; [by apply getMigrationsStatus_rows |].
  split; [by apply getMigrationsStatus_rows |].
  apply planMigrations_Permutation.
  - by rewrite Hunits.
  - rewrite <- !list_fmap_compose.
    erewrite list_fmap_ext; [exact Hnd1 |]. done.
Qed.

Lemma fileVersions_collected (tree : list WalkEntry) :
  fileVersions tree `sublist_of` (Version <$> collected tree)
  /\ ((forall entry, entry ∈ tree -> isDir entry = true -> unitOf entry = None) ->
      fileVersions tree = Version <$> collected tree).
Proof.
  split.
  - induction tree as [|entry tree IH]; [constructor |].
    rewrite fileVersions_cons. unfold collected in *. simpl. unfold unitOf at 1.
    destruct (NumericComponent (path entry)) as [v [e|]].
    + by destruct (isDir entry).
    + destruct (isDir entry); simpl; [by apply sublist_cons | by apply sublist_skip].
  - induction tree as [|entry tree IH]; intros Hdirs; [done |].
    rewrite fileVersions_cons. unfold collected in *. simpl.
    rewrite IH by (intros e He; apply Hdirs; by apply list_elem_of_further).
    pose proof (Hdirs entry (list_elem_of_here _ _)) as Hentry.
    unfold unitOf in *.
    destruct (NumericComponent (path entry)) as [v [e|]].
    + by destruct (isDir entry).
    + destruct (isDir entry); [by specialize (Hentry eq_refl) | done].
Qed.

Lemma fileVersions_beforeWalkError (calls : list WalkCall) (v : Z) :
  v ∈ fileVersions (beforeWalkError calls) -> v ∈ fileVersions (fst <$> calls).
Proof.
  induction calls as [|[entry [walkerr|]] calls IH]; cbn [beforeWalkError].
  - done.
  - intros Hv. by apply elem_of_nil in Hv.
  - rewrite fmap_cons, !fileVersions_cons. cbn [fst]. rewrite !elem_of_app.
    intros [Hv|Hv]; [by left | right; by apply IH].
Qed.

(** X11. The version [GetMostRecentDBVersion] returns is a version
    [CollectMigrations] discovers on the same walk: the target that [upRun]
    computes is the version of a discovered unit.  On a walk without errors
    in which no directory has the name of a migration file, it is the
    largest discovered version; and on a walk without errors what
    [GetPreviousDBVersion] returns is 0 or a discovered version. *)
Theorem GetMostRecentDBVersion_is_discovered (dirpath : string)
    (calls : list WalkCall) (units : list Migration) (v : Z) :
  CollectMigrations dirpath (fst <$> calls) = Return (units, None) ->
  GetMostRecentDBVersion calls = (v, None) ->
  (exists m, (m ∈ units) /\ Version m = v)
  /\ (Forall (fun call => snd call = None) calls ->
      (forall entry, entry ∈ (fst <$> calls) -> isDir entry = true ->
                     unitOf entry = None) ->
      forall m, m ∈ units -> Version m <= v)
  /\ (Forall (fun call => snd call = None) calls ->
      forall version p,
        GetPreviousDBVersion (visitOf <$> (fst <$> calls)) version = Return (p, None) ->
        p = 0 \/ exists m, (m ∈ units) /\ Version m = p).
Proof.
  intros Hc Hrecent.
  apply CollectMigrations_Return in Hc as (_ & -> & _).
  destruct (fileVersions_collected (fst <$> calls)) as [Hsub Heq].
  assert (forall w, w ∈ fileVersions (fst <$> calls) ->
                    exists m, (m ∈ collected (fst <$> calls)) /\ Version m = w)
    as Hdiscovered.
  { intros w Hw. apply (elem_of_sublist _ _ _ Hw) in Hsub as Hin.
    apply list_elem_of_fmap in Hin as (m & -> & Hm). by exists m. }
  revert Hrecent. unfold GetMostRecentDBVersion. rewrite mostRecentWalk_max.
  destruct (fold_max_spec (fileVersions (beforeWalkError calls)) (-1))
    as (_ & Hall & Hin).
  destruct (fold_left Z.max _ (-1) =? -1) eqn:Hne; [done |].
  intros [= <-]. apply Z.eqb_neq in Hne.
  destruct Hin as [? | Hin]; [done |].
  split; [| split].
  - apply Hdiscovered. by apply fileVersions_beforeWalkError.
  - intros Hcalls Hdirs m Hm. apply Hall.
    rewrite beforeWalkError_no_error, (Heq Hdirs) by done.
    apply list_elem_of_fmap. by exists m.
  - intros _ version p. unfold GetPreviousDBVersion. rewrite previousWalk_fileVersions.
    pose proof (previousOf_fold version (fileVersions (fst <$> calls)) (-1, false)) as H.
    simpl in H. destruct H as (_ & _ & Hfst & _).
    destruct (fold_left (previousOf version) _ (-1, false)) as [previous saw].
    simpl in *.
    destruct (previous =? -1) eqn:Hp; [apply Z.eqb_eq in Hp | apply Z.eqb_neq in Hp].
    + destruct saw; [| done]. intros [= <-]. by left.
    + intros [= <-]. right. destruct Hfst as [? | [Hprev _]]; [done |].
      by apply Hdiscovered.
Qed.

(** ** Runs and commands *)

Section RunProperties.

Context {Values : Type}.
Variable ParseQuery : string -> Values * option error.
Variable Values_Set : Values -> string -> string -> Values.
Variable Values_Encode : Values -> string.
Variable sqlOpen : string -> string -> option error.
Variable srv : SqlServer.
Variable walk : string -> list WalkEntry.
Variable walkCalls : string -> list WalkCall.
Variable tc : GoToolchain.
Variable runSQLMigration : DBConf -> string -> Z -> Direction -> Run (option error).

(** X12. A run bootstraps the ledger before it looks at the migrations
    directory: on a database without the version table, when the bootstrap
    succeeds and discovery then ends the process on a repeated version, the
    process ends with the version table and its version-0 record
    committed. *)
Theorem RunMigrationsOnDb_bootstraps_before_discovery (conf : DBConf)
    (migrationsDir : string) (target : Z) (db db' : DB)
    (format : string) (operands : list value) :
  dbVersionQuery (Dialect (Driver conf)) db = QueryError ErrTableDoesNotExist ->
  createVersionTable srv conf db = (Return None, db') ->
  CollectMigrations migrationsDir (walk migrationsDir) = Fatalf format operands ->
  RunMigrationsOnDb srv walk tc runSQLMigration conf migrationsDir target db
  = (Fatalf format operands, db')
  /\ db' = db ++ [(createVersionTableSql (Dialect (Driver conf)), []);
                  (insertVersionSql (Dialect (Driver conf)), [VInt 0; VBool true])].
Proof.
  intros Hq Hcreate Hc. split.
  - unfold RunMigrationsOnDb, EnsureDBVersion, bind, lift, ret.
    rewrite Hq. simpl. rewrite Hcreate, Hc. reflexivity.
  - destruct (createVersionTable_outcome srv conf db) as [[err Herr] | Hok].
    + rewrite Herr in Hcreate. discriminate.
    + rewrite Hok in Hcreate. by injection Hcreate as <-.
Qed.

(** X13. Nothing to do: when, in the direction of the run, no discovered
    unit needs work (going up, every unit at or below the target is
    applied; going down, no unit at or above the target is), the run
    returns no error and leaves the database as [EnsureDBVersion] left it. *)
Theorem RunMigrationsOnDb_nothing_to_do (conf : DBConf) (migrationsDir : string)
    (target current : Z) (db db0 : DB) (units units' : list Migration) :
  EnsureDBVersion srv conf db = (Return (current, None), db0) ->
  CollectMigrations migrationsDir (walk migrationsDir) = Return (units, None) ->
  getMigrationsStatus (dbVersionQuery (Dialect (Driver conf)) db0) units
  = Return (None, units') ->
  (current <= target
   /\ (forall m, m ∈ units' -> Version m <= target -> IsApplied m = true))
  \/ (target < current
      /\ (forall m, m ∈ units' -> target <= Version m -> IsApplied m = false)) ->
  RunMigrationsOnDb srv walk tc runSQLMigration conf migrationsDir target db
  = (Return None, db0).
Proof.
  intros He Hc Hs Hcase.
  assert (neededMigrations (chooseDirection current target) target units' = []) as Hnone.
  { unfold neededMigrations. apply filter_nil_iff. intros m Hm.
    unfold chooseDirection, isNeeded.
    destruct Hcase as [[Hle Hall] | [Hlt Hall]].
    - destruct (target <? current) eqn:Hd; [apply Z.ltb_lt in Hd; lia |].
      unfold DirectionUp.
      destruct (target <? Version m) eqn:Hv; [done |].
      apply Z.ltb_ge in Hv. by rewrite (Hall m Hm Hv).
    - apply Z.ltb_lt in Hlt. rewrite Hlt. unfold DirectionDown.
      destruct (Version m <? target) eqn:Hv; [done |].
      apply Z.ltb_ge in Hv. by rewrite (Hall m Hm Hv). }
  rewrite (RunMigrationsOnDb_applies_plan srv walk tc runSQLMigration conf migrationsDir
             target db db0 current units units'
             (chooseDirection current target) [] He Hc Hs).
  - reflexivity.
  - unfold planMigrations. by rewrite Hnone.
Qed.

Lemma OpenDBFromDBConf_frame (conf conf' : DBConf) (err : option error) :
  OpenDBFromDBConf ParseQuery Values_Set Values_Encode sqlOpen conf = (conf', err) ->
  MigrationsDir conf' = MigrationsDir conf /\ Env conf' = Env conf
  /\ Name (Driver conf') = Name (Driver conf)
  /\ Import (Driver conf') = Import (Driver conf)
  /\ Dialect (Driver conf') = Dialect (Driver conf).
Proof.
  unfold OpenDBFromDBConf.
  destruct (bool_decide (Name (Driver conf) = "mysql")).
  - destruct (Go.Index (OpenStr (Driver conf)) "?" =? -1);
      destruct (ParseQuery _) as [q [e|]]; intros [= <- <-]; done.
  - intros [= <- <-]. done.
Qed.

(** X14. [goose up] can go down.  When the current version of the database
    is above the newest migration file, [upRun] plans in the direction
    down: the units it hands to the application loop are the applied units
    at or above the newest file's version, to be reverted, newest first. *)
Theorem upRun_goes_down_past_the_newest_file (conf conf' : DBConf) (db db0 : DB)
    (target current : Z) (units units' : list Migration) :
  GetMostRecentDBVersion (walkCalls (MigrationsDir conf)) = (target, None) ->
  OpenDBFromDBConf ParseQuery Values_Set Values_Encode sqlOpen conf = (conf', None) ->
  EnsureDBVersion srv conf' db = (Return (current, None), db0) ->
  CollectMigrations (MigrationsDir conf) (walkOf walkCalls (MigrationsDir conf))
  = Return (units, None) ->
  getMigrationsStatus (dbVersionQuery (Dialect (Driver conf')) db0) units
  = Return (None, units') ->
  target < current ->
  exists ms,
    planMigrations current target units' = (DirectionDown, ms)
    /\ (forall m, m ∈ ms <-> (m ∈ units') /\ target <= Version m /\ IsApplied m = true)
    /\ StronglySorted descending ms
    /\ upRun ParseQuery Values_Set Values_Encode sqlOpen srv walkCalls tc
         runSQLMigration conf db
       = (err <- applyMigrations tc runSQLMigration conf' DirectionDown ms ;;
          match err with
          | Some e => lift (Fatal [VError e])
          | None => ret tt
          end) db0.
Proof.
  intros Hrecent Hopen He Hc Hs Hlt.
  assert (chooseDirection current target = DirectionDown) as Hdir.
  { unfold chooseDirection. apply Z.ltb_lt in Hlt. by rewrite Hlt. }
  pose proof (planMigrations_selection current target units') as Hsel.
  pose proof (planMigrations_sorted current target units') as Hsorted.
  destruct (planMigrations current target units') as [d ms] eqn:Hplan.
  assert (d = DirectionDown) as ->.
  { apply (f_equal fst) in Hplan. simpl in Hplan. congruence. }
  simpl in Hsel, Hsorted. exists ms. split; [done |]. split; [| split; [done |]].
  - intros m. rewrite Hsel, Hdir. unfold neededMigrations.
    rewrite list_elem_of_In, filter_In, <- list_elem_of_In, isNeeded_down. tauto.
  - destruct (OpenDBFromDBConf_frame _ _ _ Hopen) as (Hdirs & _).
    unfold upRun, RunMigrations. rewrite Hrecent, Hopen.
    unfold bind at 1 2. rewrite <- Hdirs in Hc.
    rewrite <- Hdirs.
    rewrite (RunMigrationsOnDb_applies_plan srv (walkOf walkCalls) tc runSQLMigration
               conf' (MigrationsDir conf') target db db0 current units units'
               DirectionDown ms He Hc Hs Hplan).
    unfold bind, ret, lift.
    by destruct (applyMigrations tc runSQLMigration conf' DirectionDown ms db0)
      as [[[e|]| | |] db1].
Qed.

(** X15. Asking for the version writes to a pristine database.  Whenever
    [GetDBVersion] returns an error, the version next to it is -1.  On a
    database without the version table it bootstraps the ledger: either it
    returns version 0 without error, with the table and its version-0
    record committed, or it returns -1 with the error of the bootstrap and
    leaves the database as it was. *)
Theorem GetDBVersion_bootstraps (conf : DBConf) (db : DB) :
  (forall c v err db',
     GetDBVersion ParseQuery Values_Set Values_Encode sqlOpen srv conf db
     = (Return (c, (v, Some err)), db') -> v = -1)
  /\ (forall conf',
        OpenDBFromDBConf ParseQuery Values_Set Values_Encode sqlOpen conf = (conf', None) ->
        dbVersionQuery (Dialect (Driver conf')) db = QueryError ErrTableDoesNotExist ->
        (createVersionTable srv conf' db
         = (Return None,
            db ++ [(createVersionTableSql (Dialect (Driver conf')), []);
                   (insertVersionSql (Dialect (Driver conf')), [VInt 0; VBool true])])
         /\ GetDBVersion ParseQuery Values_Set Values_Encode sqlOpen srv conf db
            = (Return (conf', (0, None)),
               db ++ [(createVersionTableSql (Dialect (Driver conf')), []);
                      (insertVersionSql (Dialect (Driver conf')), [VInt 0; VBool true])]))
        \/ (exists err,
              createVersionTable srv conf' db = (Return (Some err), db)
              /\ GetDBVersion ParseQuery Values_Set Values_Encode sqlOpen srv conf db
                 = (Return (conf', (-1, Some err)), db))).
Proof.
  split.
  - intros c v err db'. unfold GetDBVersion.
    destruct (OpenDBFromDBConf ParseQuery Values_Set Values_Encode sqlOpen conf)
      as [conf' [e|]].
    + unfold ret. by intros [= _ <- _ _].
    + unfold bind, ret.
      destruct (EnsureDBVersion srv conf' db) as [[[w [e|]]| | |] db1];
        try discriminate; by intros [= _ <- _ _].
  - intros conf' Hopen Hq. unfold GetDBVersion, EnsureDBVersion. rewrite Hopen.
    unfold bind, ret. rewrite Hq. simpl. unfold bind, ret.
    destruct (createVersionTable_outcome srv conf' db) as [[err Herr] | Hok].
    + right. exists err. by rewrite Herr.
    + left. by rewrite Hok.
Qed.

End RunProperties.

(** ** Byte strings *)

Lemma bytes_append (a b : string) :
  list_ascii_of_string (a +:+ b) = list_ascii_of_string a ++ list_ascii_of_string b.
Proof. induction a as [|c a IH]; simpl; [done | by rewrite IH]. Qed.

Lemma bytes_length (s : string) :
  String.length s = List.length (list_ascii_of_string s).
Proof. induction s as [|c s IH]; simpl; [done | by rewrite IH]. Qed.

Lemma string_of_bytes_app (a b : list ascii) :
  string_of_list_ascii (a ++ b) = string_of_list_ascii a +:+ string_of_list_ascii b.
Proof. induction a as [|c a IH]; simpl; [done | by rewrite IH]. Qed.

Lemma string_append_assoc (a b c : string) : (a +:+ b) +:+ c = a +:+ b +:+ c.
Proof.
  rewrite <- (string_of_list_ascii_of_string ((a +:+ b) +:+ c)).
  rewrite <- (string_of_list_ascii_of_string (a +:+ b +:+ c)).
  f_equal. rewrite !bytes_append. by rewrite <- app_assoc.
Qed.

Lemma indexByte_cutAt (c : ascii) (l : list ascii) :
  match cutAt c l with
  | (before, None) => Go.indexByte l c = -1 /\ l = before
  | (before, Some after) =>
      Go.indexByte l c = Z.of_nat (List.length before) /\ l = before ++ c :: after
  end.
Proof.
  induction l as [|x l IH]; simpl; [done |].
  destruct (Ascii.eqb x c) eqn:Hx.
  - apply Ascii.eqb_eq in Hx. by subst x.
  - destruct (cutAt c l) as [before [after|]]; destruct IH as [Hi ->]; rewrite Hi.
    + simpl. split; [| done].
      destruct (Z.of_nat (List.length before) <? 0) eqn:Hlt;
        [apply Z.ltb_lt in Hlt |]; lia.
    + done.
Qed.

Section DSN.

Context {Values : Type}.
Variable ParseQuery : string -> Values * option error.
Variable Values_Set : Values -> string -> string -> Values.
Variable Values_Encode : Values -> string.
Variable sqlOpen : string -> string -> option error.

(** X16. [OpenDBFromDBConf] rewrites nothing but the query of a mysql DSN.
    For another driver name the configuration is left as it is.  For mysql,
    with the DSN cut at its first question mark, the part before it stays,
    followed by one question mark and by the encoded query in which
    [parseTime] is set; when the query does not parse, the error is
    returned and the DSN is left as it was, but for a question mark added
    at the end when it had none.  No other field changes. *)
Theorem OpenDBFromDBConf_rewrites_only_the_query (conf : DBConf) :
  (Name (Driver conf) <> "mysql" ->
   OpenDBFromDBConf ParseQuery Values_Set Values_Encode sqlOpen conf
   = (conf, sqlOpen (Name (Driver conf)) (OpenStr (Driver conf))))
  /\ (Name (Driver conf) = "mysql" ->
      forall before after,
        cutAt "?" (list_ascii_of_string (OpenStr (Driver conf))) = (before, after) ->
        let base := string_of_list_ascii before in
        let query := string_of_list_ascii (default [] after) in
        OpenDBFromDBConf ParseQuery Values_Set Values_Encode sqlOpen conf
        = match ParseQuery query with
          | (_, Some err) => (setOpenStr conf (base +:+ "?" +:+ query), Some err)
          | (q, None) =>
              let dsn := base +:+ "?"
                         +:+ Values_Encode (Values_Set q "parseTime" "true") in
              (setOpenStr conf dsn, sqlOpen "mysql" dsn)
          end).
Proof.
  split.
  - intros Hname. unfold OpenDBFromDBConf.
    by rewrite bool_decide_eq_false_2.
  - intros Hname before after Hcut base query. unfold OpenDBFromDBConf.
    rewrite bool_decide_eq_true_2 by done. rewrite Hname.
    pose proof (indexByte_cutAt "?" (list_ascii_of_string (OpenStr (Driver conf)))) as Hidx.
    rewrite Hcut in Hidx. unfold Go.Index.
    assert (OpenStr (Driver conf)
            = string_of_list_ascii (list_ascii_of_string (OpenStr (Driver conf)))) as Hs
      by (by rewrite string_of_list_ascii_of_string).
    destruct after as [after|]; destruct Hidx as [Hi Hl]; rewrite Hi.
    + assert ((Z.of_nat (List.length before) =? -1) = false) as -> by (apply Z.eqb_neq; lia).
      assert (slice_from (OpenStr (Driver conf)) (Z.of_nat (List.length before) + 1) = query)
        as ->.
      { unfold slice_from, query. simpl. rewrite Hl. f_equal.
        replace (Z.to_nat (Z.of_nat (List.length before) + 1))
          with (List.length before + 1)%nat by lia.
        rewrite drop_app_add. done. }
      assert (Go.slice_to (OpenStr (Driver conf)) (Z.of_nat (List.length before) + 1)
              = base +:+ "?") as ->.
      { unfold Go.slice_to, base. rewrite Hl.
        replace (Z.to_nat (Z.of_nat (List.length before) + 1))
          with (List.length before + 1)%nat by lia.
        rewrite take_app_add. simpl. by rewrite string_of_bytes_app. }
      assert (base +:+ "?" +:+ query = OpenStr (Driver conf)) as Hwhole.
      { rewrite Hs at 1. rewrite Hl. unfold base, query. simpl.
        by rewrite string_of_bytes_app. }
      destruct (ParseQuery query) as [q [err|]].
      * by rewrite Hwhole.
      * by rewrite string_append_assoc.
    + simpl. subst before.
      assert (base = OpenStr (Driver conf)) as Hbase
        by (unfold base; by rewrite string_of_list_ascii_of_string).
      assert (slice_from (OpenStr (Driver conf) +:+ "?")
                (Z.of_nat (String.length (OpenStr (Driver conf))) + 1) = query) as ->.
      { unfold slice_from, query. simpl. rewrite bytes_append, bytes_length.
        replace (Z.to_nat (Z.of_nat (List.length (list_ascii_of_string (OpenStr (Driver conf)))) + 1))
          with (List.length (list_ascii_of_string (OpenStr (Driver conf))) + 1)%nat by lia.
        rewrite drop_app_add. done. }
      assert (Go.slice_to (OpenStr (Driver conf) +:+ "?")
                (Z.of_nat (String.length (OpenStr (Driver conf))) + 1)
              = base +:+ "?") as ->.
      { unfold Go.slice_to. rewrite bytes_append, bytes_length.
        replace (Z.to_nat (Z.of_nat (List.length (list_ascii_of_string (OpenStr (Driver conf)))) + 1))
          with (List.length (list_ascii_of_string (OpenStr (Driver conf))) + 1)%nat by lia.
        rewrite take_app_add. simpl. rewrite string_of_bytes_app.
        by rewrite string_of_list_ascii_of_string, Hbase. }
      destruct (ParseQuery query) as [q [err|]].
      * unfold query. simpl. rewrite Hbase. done.
      * by rewrite string_append_assoc.
Qed.

End DSN.

(** ** File names *)

Lemma lastElement_no_separator (r : list ascii) : forall acc,
  noSeparator r -> Go.lastElement r acc = rev r ++ acc.
Proof.
  induction r as [|c r IH]; intros acc Hr; simpl; [done |].
  apply Forall_cons in Hr as [Hc Hr]. rewrite Hc, IH by done.
  by rewrite <- app_assoc.
Qed.

Lemma lastElement_up_to_separator (r rest : list ascii) : forall acc,
  noSeparator r -> Go.lastElement (r ++ "/"%char :: rest) acc = rev r ++ acc.
Proof.
  induction r as [|c r IH]; intros acc Hr; simpl; [done |].
  apply Forall_cons in Hr as [Hc Hr]. rewrite Hc, IH by done.
  by rewrite <- app_assoc.
Qed.

Lemma lastElement_has_no_separator (r : list ascii) : forall acc,
  noSeparator acc -> noSeparator (Go.lastElement r acc).
Proof.
  induction r as [|c r IH]; intros acc Hacc; simpl; [done |].
  destruct (Go.IsPathSeparator c) eqn:Hc; [done |].
  apply IH. by constructor.
Qed.

Lemma noSeparator_rev (l : list ascii) : noSeparator l -> noSeparator (rev l).
Proof.
  unfold noSeparator. rewrite !Forall_forall. intros H c Hc. apply H.
  apply list_elem_of_In. apply list_elem_of_In in Hc. by apply in_rev.
Qed.

(** The last element of a path that ends with a file name. *)
Lemma Base_of_path_with_file (dirs file : list ascii) :
  file <> [] -> noSeparator file ->
  dirs = [] \/ (exists dirs', dirs = dirs' ++ ["/"%char]) ->
  Go.Base (string_of_list_ascii (dirs ++ file)) = string_of_list_ascii file.
Proof.
  intros Hne Hfile Hdirs. unfold Go.Base.
  rewrite list_ascii_of_string_of_list_ascii.
  destruct (dirs ++ file) as [|c p] eqn:Hp.
  { apply app_eq_nil in Hp as [_ ?]. done. }
  rewrite <- Hp. rewrite rev_app_distr.
  assert (exists c' r', rev file = c' :: r' /\ Go.IsPathSeparator c' = false)
    as (c' & r' & Hrev & Hc').
  { pose proof (noSeparator_rev _ Hfile) as Hr.
    destruct (rev file) as [|c' r'] eqn:Hrev.
    - apply (f_equal (@rev ascii)) in Hrev. rewrite rev_involutive in Hrev. done.
    - apply Forall_cons in Hr as [? _]. by exists c', r'. }
  assert (Go.dropSeparators (rev file ++ rev dirs) = rev file ++ rev dirs) as ->.
  { rewrite Hrev. simpl. by rewrite Hc'. }
  assert (Go.lastElement (rev file ++ rev dirs) [] = file) as ->.
  { destruct Hdirs as [-> | [dirs' ->]].
    - simpl. rewrite app_nil_r, lastElement_no_separator by (by apply noSeparator_rev).
      by rewrite rev_involutive, app_nil_r.
    - rewrite rev_app_distr. simpl.
      rewrite lastElement_up_to_separator by (by apply noSeparator_rev).
      by rewrite rev_involutive, app_nil_r. }
  by destruct file.
Qed.

Lemma Base_shape (p : string) :
  Go.Base p = "." \/ Go.Base p = "/"
  \/ exists file, file <> [] /\ noSeparator file /\ Go.Base p = string_of_list_ascii file.
Proof.
  unfold Go.Base. destruct (list_ascii_of_string p) as [|c l]; [by left |].
  pose proof (lastElement_has_no_separator (Go.dropSeparators (rev (c :: l))) []
                (Forall_nil_2 _)) as Hfile.
  destruct (Go.lastElement (Go.dropSeparators (rev (c :: l))) []) as [|x file];
    [right; by left |].
  right. right. by exists (x :: file).
Qed.

Lemma Base_idempotent (p : string) : Go.Base (Go.Base p) = Go.Base p.
Proof.
  destruct (Base_shape p) as [-> | [-> | (file & Hne & Hfile & ->)]]; [done | done |].
  apply (Base_of_path_with_file [] file); [done | done | by left].
Qed.

(** X17. [NumericComponent] goes by the last element of the path alone:
    the directories in front of the file name do not matter. *)
Theorem NumericComponent_goes_by_the_base_name (name : string) :
  NumericComponent name = NumericComponent (Go.Base name)
  /\ forall other, Go.Base other = Go.Base name ->
       NumericComponent other = NumericComponent name.
Proof.
  assert (forall a b, Go.Base a = Go.Base b -> NumericComponent a = NumericComponent b)
    as Hbase.
  { intros a b Hab. unfold NumericComponent. by rewrite Hab. }
  split.
  - apply Hbase. by rewrite Base_idempotent.
  - intros other Hother. by apply Hbase.
Qed.

(** ** Versions stay within 64 bits *)

Lemma digit_range (c : ascii) (d : Z) : Go.digit c = Some d -> 0 <= d <= 9.
Proof.
  unfold Go.digit.
  destruct (48 <=? Z.of_nat (nat_of_ascii c)) eqn:H1; [| done].
  destruct (Z.of_nat (nat_of_ascii c) <=? 57) eqn:H2; [| done].
  simpl. intros [= <-]. apply Z.leb_le in H1, H2. lia.
Qed.

Lemma parseDigits_range (l : list ascii) : forall n m,
  0 <= n -> Go.parseDigits l n = inl m -> 0 <= m < 2 ^ 64 \/ (l = [] /\ m = n).
Proof.
  induction l as [|c l IH]; intros n m Hn; simpl.
  - intros [= <-]. by right.
  - destruct (Go.digit c) as [d|] eqn:Hd; [| done].
    apply digit_range in Hd.
    destruct (2 ^ 64 <=? n * 10 + d) eqn:Hcut; [done |].
    apply Z.leb_gt in Hcut. intros Hm.
    destruct (IH (n * 10 + d) m) as [? | [_ ->]]; [lia | done | by left |].
    left. lia.
Qed.

Lemma ParseInt_fits_int64 (s : string) :
  - 2 ^ 63 <= fst (Go.ParseInt s) <= 2 ^ 63 - 1.
Proof.
  unfold Go.ParseInt.
  destruct (list_ascii_of_string s) as [|c rest]; [simpl; lia |].
  destruct (if Ascii.eqb c "+" || Ascii.eqb c "-" then rest else c :: rest)
    as [|x digits] eqn:Hdigits; [simpl; lia |].
  destruct (Go.parseDigits (x :: digits) 0) as [un|[|]] eqn:Hparse.
  - assert (0 <= un) as Hun.
    { destruct (parseDigits_range _ _ _ (Z.le_refl 0) Hparse) as [? | [? _]]; [lia | done]. }
    destruct (Ascii.eqb c "-"); simpl.
    + destruct (2 ^ 63 <? un) eqn:Hcut; simpl; [lia |]. apply Z.ltb_ge in Hcut. lia.
    + destruct (2 ^ 63 <=? un) eqn:Hcut; simpl; [lia |]. apply Z.leb_gt in Hcut. lia.
  - destruct (Ascii.eqb c "-"); simpl; lia.
  - simpl. lia.
Qed.

(** X18. The versions read from file names fit [int64]: whatever
    [NumericComponent] returns lies between -2^63 and 2^63 - 1, and an
    accepted version between 1 and 2^63 - 1; so do the versions of the
    discovered units and of the migration files. *)
Theorem NumericComponent_fits_int64 (name : string) :
  - 2 ^ 63 <= fst (NumericComponent name) <= 2 ^ 63 - 1
  /\ (snd (NumericComponent name) = None -> 1 <= fst (NumericComponent name))
  /\ (forall tree m, m ∈ collected tree -> 1 <= Version m <= 2 ^ 63 - 1)
  /\ (forall tree v, v ∈ fileVersions tree -> 1 <= v <= 2 ^ 63 - 1).
Proof.
  assert (forall name, - 2 ^ 63 <= fst (NumericComponent name) <= 2 ^ 63 - 1) as Hrange.
  { intros name'. unfold NumericComponent.
    destruct (negb _ && negb _); [simpl; lia |].
    destruct (Go.Index _ _ <? 0); [simpl; lia |].
    pose proof (ParseInt_fits_int64 (Go.slice_to (Go.Base name')
                                  (Go.Index (Go.Base name') "_"))) as Hp.
    destruct (Go.ParseInt _) as [n [e|]]; [done |].
    simpl in Hp. destruct (n <=? 0); simpl; lia. }
  assert (forall name v, NumericComponent name = (v, None) -> 1 <= v <= 2 ^ 63 - 1)
    as Haccepted.
  { intros name' v Hv. pose proof (Hrange name') as Hr.
    pose proof (NumericComponent_positive _ _ Hv). rewrite Hv in Hr. simpl in Hr. lia. }
  split; [apply Hrange |]. split; [| split].
  - destruct (NumericComponent name) as [v [e|]] eqn:Hv; [done |].
    intros _. simpl. by destruct (Haccepted _ _ Hv).
  - intros tree m Hm. apply list_elem_of_omap in Hm as (entry & _ & Hm).
    apply unitOf_Some in Hm as [Hm _]. by apply (Haccepted (path entry)).
  - intros tree v Hv. apply list_elem_of_omap in Hv as (entry & _ & Hv).
    destruct (isDir entry); [done |].
    destruct (NumericComponent (path entry)) as [v' [e|]] eqn:Hnum; [done |].
    injection Hv as <-. by apply (Haccepted (path entry)).
Qed.

(** ** A created migration is discovered *)

Lemma splitOn_no_separator (sep : ascii) (file : list ascii) : forall cur,
  Forall (fun c => Ascii.eqb c sep = false) file ->
  Go.splitOn sep file cur = [rev cur ++ file].
Proof.
  induction file as [|c file IH]; intros cur Hfile; simpl.
  - by rewrite app_nil_r.
  - apply Forall_cons in Hfile as [Hc Hfile]. rewrite Hc, IH by done.
    simpl. by rewrite <- app_assoc.
Qed.

Lemma splitOn_last (sep : ascii) (dirs file : list ascii) : forall cur,
  Forall (fun c => Ascii.eqb c sep = false) file ->
  exists elems, Go.splitOn sep (dirs ++ sep :: file) cur = elems ++ [file].
Proof.
  induction dirs as [|c dirs IH]; intros cur Hfile; simpl.
  - rewrite Ascii.eqb_refl, splitOn_no_separator by done. by exists [rev cur].
  - destruct (Ascii.eqb c sep).
    + destruct (IH [] Hfile) as [elems ->]. by exists (rev cur :: elems).
    + apply IH, Hfile.
Qed.

Lemma cleanElements_last (rooted : bool) (file : list ascii) (elems : list (list ascii)) :
  file <> [] -> file <> ["."%char] -> file <> Go.dotdot ->
  forall stack, exists kept,
    Go.cleanElements rooted (elems ++ [file]) stack = kept ++ [file].
Proof.
  intros H1 H2 H3.
  induction elems as [|e elems IH]; intros stack; simpl.
  - rewrite !bool_decide_eq_false_2 by done. simpl. by exists (rev stack).
  - destruct (bool_decide (e = []) || bool_decide (e = ["."%char])); [apply IH |].
    destruct (bool_decide (e = Go.dotdot)); [| apply IH].
    destruct stack as [|top stack]; [destruct rooted; apply IH |].
    destruct (bool_decide (top = Go.dotdot)); apply IH.
Qed.

Lemma joinWith_last (sep : ascii) (file : list ascii) (elems : list (list ascii)) :
  exists dirs, Go.joinWith sep (elems ++ [file]) = dirs ++ file
               /\ (dirs = [] \/ exists dirs', dirs = dirs' ++ [sep]).
Proof.
  induction elems as [|e elems IH]; simpl.
  - exists []. split; [done | by left].
  - destruct IH as (dirs & Hjoin & Hdirs).
    destruct (elems ++ [file]) as [|x l] eqn:Hl.
    { by destruct elems. }
    rewrite Hjoin. exists (e ++ sep :: dirs). split.
    + by rewrite <- app_assoc.
    + right. destruct Hdirs as [-> | [dirs' ->]].
      * by exists e.
      * exists (e ++ sep :: dirs'). by rewrite <- app_assoc.
Qed.

Lemma noSeparator_eqb (file : list ascii) :
  noSeparator file -> Forall (fun c => Ascii.eqb c "/" = false) file.
Proof. done. Qed.

(** The last element of a cleaned path that ends with a plain file name. *)
Lemma Base_Clean_file (p : list ascii) (file : list ascii) :
  file <> [] -> file <> ["."%char] -> file <> Go.dotdot -> noSeparator file ->
  p = file \/ (exists dirs, p = dirs ++ "/"%char :: file) ->
  Go.Base (Go.Clean (string_of_list_ascii p)) = string_of_list_ascii file.
Proof.
  intros H1 H2 H3 Hfile Hp. unfold Go.Clean.
  rewrite list_ascii_of_string_of_list_ascii.
  assert (exists elems, Go.splitOn "/" p [] = elems ++ [file]) as [elems Hsplit].
  { destruct Hp as [-> | [dirs ->]].
    - exists []. by rewrite splitOn_no_separator by (by apply noSeparator_eqb).
    - apply splitOn_last. by apply noSeparator_eqb. }
  destruct p as [|c p'] eqn:Hpeq.
  { destruct Hp as [? | [dirs Hd]]; [by subst file | by destruct dirs]. }
  rewrite Hsplit.
  destruct (cleanElements_last (Go.IsPathSeparator c) file elems H1 H2 H3 [])
    as [kept ->].
  destruct (joinWith_last "/" file kept) as (dirs & -> & Hdirs).
  destruct (Go.IsPathSeparator c).
  - apply (Base_of_path_with_file ("/"%char :: dirs) file); [done | done |].
    right. destruct Hdirs as [-> | [dirs' ->]]; [by exists [] |].
    by exists ("/"%char :: dirs').
  - destruct (dirs ++ file) as [|x l] eqn:Hbody.
    { apply app_eq_nil in Hbody as [_ ?]. done. }
    rewrite <- Hbody. by apply Base_of_path_with_file.
Qed.

Lemma Base_Join_file (dir file : string) :
  list_ascii_of_string file <> [] ->
  list_ascii_of_string file <> ["."%char] ->
  list_ascii_of_string file <> Go.dotdot ->
  noSeparator (list_ascii_of_string file) ->
  Go.Base (Go.Join [dir; file]) = file.
Proof.
  intros H1 H2 H3 Hfile.
  rewrite <- (string_of_list_ascii_of_string file) at 2.
  assert (file <> "") as Hne by (intros ->; done).
  simpl. destruct (bool_decide (dir = "")) eqn:Hdir.
  - rewrite bool_decide_eq_false_2 by done. simpl.
    apply Base_Clean_file; try done. by left.
  - apply Base_Clean_file; try done. right. by exists (list_ascii_of_string dir).
Qed.

Lemma indexByte_first (c : ascii) (before after : list ascii) :
  Forall (fun x => Ascii.eqb x c = false) before ->
  Go.indexByte (before ++ c :: after) c = Z.of_nat (List.length before).
Proof.
  induction 1 as [|x before Hx _ IH]; simpl.
  - by rewrite Ascii.eqb_refl.
  - rewrite Hx, IH.
    destruct (Z.of_nat (List.length before) <? 0) eqn:Hlt; [apply Z.ltb_lt in Hlt |]; lia.
Qed.

Lemma parseDigits_digits (l : list ascii) : forall n m,
  Go.parseDigits l n = inl m -> Forall (fun c => is_Some (Go.digit c)) l.
Proof.
  induction l as [|c l IH]; intros n m; simpl; [by constructor |].
  destruct (Go.digit c) as [d|] eqn:Hd; [| done].
  destruct (2 ^ 64 <=? n * 10 + d); [done |].
  intros Hm. constructor; [by rewrite Hd | by eapply IH].
Qed.

(** A string [strconv.ParseInt] accepts is made of an optional sign and of
    digits. *)
Lemma ParseInt_accepted_bytes (s : string) (n : Z) :
  Go.ParseInt s = (n, None) ->
  Forall (fun c => Ascii.eqb c "/" = false /\ Ascii.eqb c "_" = false)
         (list_ascii_of_string s).
Proof.
  unfold Go.ParseInt.
  destruct (list_ascii_of_string s) as [|c rest]; [done |].
  destruct (if Ascii.eqb c "+" || Ascii.eqb c "-" then rest else c :: rest)
    as [|x digits] eqn:Hdigits; [done |].
  destruct (Go.parseDigits (x :: digits) 0) as [un|[|]] eqn:Hparse; [| done | done].
  intros _. apply parseDigits_digits in Hparse.
  assert (forall l, Forall (fun c => is_Some (Go.digit c)) l ->
                    Forall (fun c => Ascii.eqb c "/" = false /\ Ascii.eqb c "_" = false) l)
    as Hdigit.
  { intros l Hl. eapply Forall_impl; [exact Hl |]. intros a [d Hd].
    split; destruct (Ascii.eqb a _) eqn:Ha; try done;
      apply Ascii.eqb_eq in Ha; subst a; vm_compute in Hd; done. }
  destruct (Ascii.eqb c "+") eqn:Hplus; simpl in Hdigits.
  - subst rest. apply Ascii.eqb_eq in Hplus. subst c.
    constructor; [done | by apply Hdigit].
  - destruct (Ascii.eqb c "-") eqn:Hminus; simpl in Hdigits.
    + subst rest. apply Ascii.eqb_eq in Hminus. subst c.
      constructor; [done | by apply Hdigit].
    + rewrite <- Hdigits in Hparse. by apply Hdigit.
Qed.

Section Create.

Variable formatTimestamp : Time -> string.
Variable writeTemplateToFile : string -> Template -> string -> string * option error.

(** X19. What [CreateMigration] creates, discovery finds.  For a type other
    than "go" and "sql" it returns the empty path and an error.  Otherwise, for a name without a path separator and a
    formatted timestamp that parses to a positive number, the file it has
    [writeTemplateToFile] write is named timestamp_name.type in the given
    directory, and [NumericComponent] accepts its path with the timestamp
    as version. *)
Theorem CreateMigration_is_discovered (name migrationType dir : string) (t : Time) :
  (migrationType <> "go" -> migrationType <> "sql" ->
   CreateMigration formatTimestamp writeTemplateToFile name migrationType dir t
   = ("", Some (Errorf "migration type must be 'go' or 'sql'" [])))
  /\ (migrationType = "go" \/ migrationType = "sql" ->
      forall n,
        noSeparator (list_ascii_of_string name) ->
        Go.ParseInt (formatTimestamp t) = (n, None) -> 0 < n ->
        let fpath :=
          Go.Join [dir; migrationFileName (formatTimestamp t) name migrationType] in
        CreateMigration formatTimestamp writeTemplateToFile name migrationType dir t
        = writeTemplateToFile fpath
            (if bool_decide (migrationType = "sql")
             then sqlMigrationTemplate else goMigrationTemplate)
            (formatTimestamp t)
        /\ Go.Base fpath = migrationFileName (formatTimestamp t) name migrationType
        /\ NumericComponent fpath = (n, None)
        /\ unitOf (mkEntry fpath false) = Some (newMigration n fpath)).
Proof.
  split.
  - intros Hgo Hsql. unfold CreateMigration.
    by rewrite !bool_decide_eq_false_2.
  - intros Htype n Hname Hparse Hn fpath.
    pose proof (ParseInt_accepted_bytes _ _ Hparse) as Hts.
    set (ts := list_ascii_of_string (formatTimestamp t)) in *.
    set (nm := list_ascii_of_string name) in *.
    set (ty := list_ascii_of_string migrationType).
    assert (list_ascii_of_string
              (migrationFileName (formatTimestamp t) name migrationType)
            = ts ++ "_"%char :: nm ++ "."%char :: ty) as Hbytes.
    { unfold migrationFileName. rewrite !bytes_append. done. }
    assert (noSeparator ty /\ Forall (fun c => Ascii.eqb c "." = false) ty
            /\ (ty = list_ascii_of_string "go" \/ ty = list_ascii_of_string "sql"))
      as (Hty & Htydot & Htycases).
    { unfold ty, noSeparator.
      destruct Htype as [-> | ->];
        (split; [by repeat constructor | split; [by repeat constructor |]]);
        [by left | by right]. }
    assert (Go.Base fpath = migrationFileName (formatTimestamp t) name migrationType)
      as Hbase.
    { apply Base_Join_file; rewrite Hbytes.
      - by destruct ts.
      - intros Heq. destruct ts as [|a [|b ts']]; simplify_eq.
      - intros Heq. unfold Go.dotdot in Heq.
        destruct ts as [|a [|b [|c ts']]]; simplify_eq.
      - unfold noSeparator. rewrite Forall_app. split.
        + eapply Forall_impl; [exact Hts |]. by intros c [? _].
        + constructor; [done |]. rewrite Forall_app. split; [done |].
          constructor; [done | done]. }
    assert (NumericComponent fpath = (n, None)) as Hnum.
    { unfold NumericComponent. rewrite Hbase.
      assert (Go.Ext (migrationFileName (formatTimestamp t) name migrationType)
              = "." +:+ migrationType) as ->.
      { unfold Go.Ext. rewrite Hbytes.
        replace (ts ++ "_"%char :: nm ++ "."%char :: ty)
          with ((ts ++ "_"%char :: nm) ++ "."%char :: ty)
          by (rewrite <- app_assoc; done).
        rewrite rev_app_distr. unfold ty.
        destruct Htype as [-> | ->]; done. }
      assert (negb (bool_decide ("." +:+ migrationType = ".go"))
              && negb (bool_decide ("." +:+ migrationType = ".sql")) = false) as ->.
      { destruct Htype as [-> | ->]; done. }
      assert (Go.Index (migrationFileName (formatTimestamp t) name migrationType) "_"
              = Z.of_nat (List.length ts)) as ->.
      { unfold Go.Index. rewrite Hbytes. apply indexByte_first.
        eapply Forall_impl; [exact Hts |]. by intros c [_ ?]. }
      destruct (Z.of_nat (List.length ts) <? 0) eqn:Hlt; [apply Z.ltb_lt in Hlt; lia |].
      assert (Go.slice_to (migrationFileName (formatTimestamp t) name migrationType)
                (Z.of_nat (List.length ts)) = formatTimestamp t) as ->.
      { unfold Go.slice_to. rewrite Hbytes, Nat2Z.id, take_app_length.
        apply string_of_list_ascii_of_string. }
      rewrite Hparse.
      destruct (n <=? 0) eqn:Hle; [apply Z.leb_le in Hle; lia | done]. }
    split; [| split; [done | split; [done |]]].
    + unfold CreateMigration.
      assert (negb (bool_decide (migrationType = "go"))
              && negb (bool_decide (migrationType = "sql")) = false) as ->.
      { destruct Htype as [-> | ->]; done. }
      done.
    + unfold unitOf. simpl. by rewrite Hnum.
Qed.

End Create.

(** ** The sorter *)

Lemma sorterAt_Some (ms : list Migration) (i : Z) :
  0 <= i < migrationSorter_Len ms ->
  exists a, sorterAt ms i = Some a /\ ms !! Z.to_nat i = Some a.
Proof.
  intros [Hlo Hhi]. unfold sorterAt, migrationSorter_Len in *.
  destruct (i <? 0) eqn:Hneg; [apply Z.ltb_lt in Hneg; lia |].
  destruct (lookup_lt_is_Some_2 ms (Z.to_nat i)) as [a Ha]; [lia |].
  by exists a.
Qed.

Lemma sorterAt_None (ms : list Migration) (i : Z) :
  ~ (0 <= i < migrationSorter_Len ms) -> sorterAt ms i = None.
Proof.
  intros Hout. unfold sorterAt, migrationSorter_Len in *.
  destruct (i <? 0) eqn:Hneg; [done |]. apply Z.ltb_ge in Hneg.
  apply lookup_ge_None. lia.
Qed.

(** X20. [migrationSorter] gives [sort.Sort] what it asks for.  With both
    indices inside the slice, [Swap] returns a rearrangement of the same
    length in which the two elements have changed places and the others
    have not, and a second [Swap] undoes it; outside the slice [Swap] and
    [Less] panic.  [Less] is a strict order on versions in which two
    migrations are unordered exactly when their versions are equal. *)
Theorem migrationSorter_meets_sort_Interface (ms : list Migration) (i j : Z) :
  (0 <= i < migrationSorter_Len ms -> 0 <= j < migrationSorter_Len ms ->
   exists ms',
     migrationSorter_Swap ms i j = Return ms'
     /\ ms' ≡ₚ ms /\ migrationSorter_Len ms' = migrationSorter_Len ms
     /\ sorterAt ms' i = sorterAt ms j /\ sorterAt ms' j = sorterAt ms i
     /\ (forall k, k <> i -> k <> j -> sorterAt ms' k = sorterAt ms k)
     /\ migrationSorter_Swap ms' i j = Return ms)
  /\ (~ (0 <= i < migrationSorter_Len ms) \/ ~ (0 <= j < migrationSorter_Len ms) ->
      migrationSorter_Swap ms i j = Panicked "runtime error: index out of range"
      /\ migrationSorter_Less ms i j = Panicked "runtime error: index out of range")
  /\ (forall a b c : Migration,
        Less a a = false
        /\ (Less a b = true -> Less b a = false)
        /\ (Less a b = true -> Less b c = true -> Less a c = true)
        /\ (Less a b = false /\ Less b a = false <-> Version a = Version b)).
Proof.
  split; [| split].
  - intros Hi Hj.
    destruct (sorterAt_Some ms i Hi) as (a & Hai & Ha).
    destruct (sorterAt_Some ms j Hj) as (b & Hbj & Hb).
    assert (forall k : Z, sorterAt (<[Z.to_nat j:=a]> (<[Z.to_nat i:=b]> ms)) k
                          = if bool_decide (k = j) then Some a
                            else if bool_decide (k = i) then Some b
                            else sorterAt ms k) as Hat.
    { intros k. unfold sorterAt. destruct (k <? 0) eqn:Hk.
      - apply Z.ltb_lt in Hk. rewrite !bool_decide_eq_false_2 by lia. done.
      - apply Z.ltb_ge in Hk. rewrite !list_lookup_insert, !length_insert.
        unfold migrationSorter_Len in *.
        repeat case_decide; repeat case_bool_decide; try done; try lia. }
    exists (<[Z.to_nat j:=a]> (<[Z.to_nat i:=b]> ms)).
    split; [unfold migrationSorter_Swap; by rewrite Hai, Hbj |].
    split; [by apply Permutation_insert_swap |].
    split; [unfold migrationSorter_Len; by rewrite !length_insert |].
    split; [| split; [| split]].
    + rewrite Hat, Hbj. case_bool_decide; [by subst; rewrite Hai in Hbj | ].
      by rewrite bool_decide_eq_true_2.
    + rewrite Hat, Hai. by rewrite bool_decide_eq_true_2.
    + intros k Hki Hkj. rewrite Hat. by rewrite !bool_decide_eq_false_2.
    + unfold migrationSorter_Swap. rewrite !Hat.
      rewrite (bool_decide_eq_true_2 (j = j)) by done.
      f_equal.
      destruct (bool_decide (i = j)) eqn:Hij.
      * apply bool_decide_eq_true in Hij. subst j.
        assert (a = b) as <- by congruence.
        f_equal. rewrite !list_insert_insert_eq. by apply list_insert_id.
      * rewrite (bool_decide_eq_true_2 (i = i)) by done. f_equal.
        apply bool_decide_eq_false in Hij.
        apply list_eq. intros k. rewrite !list_lookup_insert, !length_insert.
        unfold migrationSorter_Len in *.
        repeat case_decide; try done; destruct_and?; subst; try done; try lia.
  - intros Hout. unfold migrationSorter_Swap, migrationSorter_Less.
    destruct Hout as [Hout|Hout]; apply sorterAt_None in Hout; rewrite Hout.
    + done.
    + by destruct (sorterAt ms i).
  - intros a b c. unfold Less. repeat split.
    + apply Z.ltb_irrefl.
    + intros H. apply Z.ltb_lt in H. apply Z.ltb_ge. lia.
    + intros H1 H2. apply Z.ltb_lt in H1, H2. apply Z.ltb_lt. lia.
    + intros [H1 H2]. apply Z.ltb_ge in H1, H2. lia.
    + apply Z.ltb_ge. lia.
    + apply Z.ltb_ge. lia.
Qed.

(** ** The further properties at sample inputs *)

Lemma GetMostRecentDBVersion_largest_witness :
  fileVersions (beforeWalkError (sampleCalls "m")) <> []
  /\ exists v, GetMostRecentDBVersion (sampleCalls "m") = (v, None)
               /\ (v ∈ fileVersions (beforeWalkError (sampleCalls "m")))
               /\ forall w, w ∈ fileVersions (beforeWalkError (sampleCalls "m")) -> w <= v.
Proof.
  split; [vm_compute; discriminate |].
  apply (proj2 (GetMostRecentDBVersion_largest (sampleCalls "m"))).
  vm_compute. discriminate.
Defined.

Lemma GetPreviousDBVersion_goes_down_witness :
  GetPreviousDBVersion (visitOf <$> sampleWalk "m") 3 = Return (2, None)
  /\ 0 <= 2 < 3
  /\ (2 = 0 \/ (2 ∈ fileVersions (statted (visitOf <$> sampleWalk "m")))).
Proof.
  split; [vm_compute; reflexivity |].
  apply (GetPreviousDBVersion_goes_down (visitOf <$> sampleWalk "m") 3 2).
  vm_compute. reflexivity.
Defined.

Lemma GetPreviousDBVersion_of_most_recent_witness :
  GetMostRecentDBVersion (sampleCalls "m") = (3, None)
  /\ exists p, GetPreviousDBVersion (visitOf <$> (fst <$> sampleCalls "m")) 3
               = Return (p, None)
               /\ 0 <= p < 3.
Proof.
  split; [vm_compute; reflexivity |].
  apply (GetPreviousDBVersion_of_most_recent (sampleCalls "m") 3).
  - by_evaluation.
  - vm_compute. reflexivity.
Defined.

Lemma GetPreviousDBVersion_panics_on_nil_info_witness :
  GetPreviousDBVersion [mkVisit "nonexistent" None] 1 = Panicked nilInfoPanic.
Proof.
  apply (proj2 (proj1 (proj2 (GetPreviousDBVersion_panics_on_nil_info
                                [mkVisit "nonexistent" None] 1)))).
  apply Exists_cons_hd. reflexivity.
Defined.

Lemma EnsureDBVersion_panics_without_applied_head_witness :
  dbVersionQuery (Dialect (Driver sampleConf)) [(createVersionTableSql specDialect, [])]
  = QueryRows (Scanned <$> [])
  /\ EnsureDBVersion sampleServer sampleConf [(createVersionTableSql specDialect, [])]
     = (Panicked "failure in EnsureDBVersion()", [(createVersionTableSql specDialect, [])]).
Proof.
  split; [vm_compute; reflexivity |].
  apply (proj2 (EnsureDBVersion_panics_without_applied_head sampleServer sampleConf
                  [(createVersionTableSql specDialect, [])] []
                  ltac:(vm_compute; reflexivity))).
  intros i r Hi. discriminate Hi.
Defined.

Lemma EnsureDBVersion_reads_up_to_the_deciding_row_witness :
  versionLoop [] (Scanned <$> [ledgerRow 2 false 5; ledgerRow 2 true 4; ledgerRow 1 true 3])
  = Return 1
  /\ EnsureDBVersion sampleServer sampleConf sampleLedger
     = (Return (1, None), sampleLedger).
Proof.
  split; [vm_compute; reflexivity |].
  apply (EnsureDBVersion_reads_up_to_the_deciding_row sampleServer sampleConf sampleLedger
           [ledgerRow 2 false 5; ledgerRow 2 true 4; ledgerRow 1 true 3]
           [Scanned (ledgerRow 0 true 2)] 1).
  - vm_compute. reflexivity.
  - vm_compute. reflexivity.
Defined.

Lemma getMigrationsStatus_agrees_with_versionLoop_witness :
  versionLoop [] (Scanned <$> sampleHistory) = Return 1
  /\ exists units' m',
       getMigrationsStatus (QueryRows (Scanned <$> sampleHistory)) sampleUnits
       = Return (None, units')
       /\ units' !! 0%nat = Some m' /\ IsApplied m' = true.
Proof.
  split; [vm_compute; reflexivity |].
  apply (proj2 (getMigrationsStatus_agrees_with_versionLoop "m" (sampleWalk "m")
                  sampleUnits sampleHistory
                  ltac:(vm_compute; reflexivity) ltac:(by_evaluation)
                  ltac:(by_evaluation))
           1 0%nat (newMigration 1 "m/1_setup.sql")).
  - vm_compute. reflexivity.
  - reflexivity.
  - reflexivity.
Defined.

Lemma getMigrationsStatus_second_pass_clears_witness :
  getMigrationsStatus (QueryRows (Scanned <$> sampleHistory)) sampleUnits
  = Return (None, sampleStatus)
  /\ getMigrationsStatus (QueryRows (Scanned <$> sampleHistory)) sampleStatus
     = Return (None, clearApplied <$> sampleStatus)
  /\ Forall (fun m => IsApplied m = false) (clearApplied <$> sampleStatus).
Proof.
  split; [vm_compute; reflexivity |].
  apply (getMigrationsStatus_second_pass_clears sampleUnits sampleHistory sampleStatus).
  - by_evaluation.
  - vm_compute. reflexivity.
Defined.

Lemma CollectMigrations_collects_every_accepted_entry_witness :
  CollectMigrations "m" (sampleWalk "m") = Return (sampleUnits, None)
  /\ sampleUnits = collected (sampleWalk "m").
Proof.
  split; [vm_compute; reflexivity |].
  apply (proj2 (CollectMigrations_collects_every_accepted_entry "m" (sampleWalk "m"))
           sampleUnits).
  vm_compute. reflexivity.
Defined.

Lemma plan_independent_of_walk_order_witness :
  exists units2,
    CollectMigrations "m" (reverse (sampleWalk "m")) = Return (units2, None)
    /\ sampleUnits ≡ₚ units2
    /\ forall h current target, exists status1 status2,
         getMigrationsStatus (QueryRows (Scanned <$> h)) sampleUnits = Return (None, status1)
         /\ getMigrationsStatus (QueryRows (Scanned <$> h)) units2 = Return (None, status2)
         /\ planMigrations current target status1 = planMigrations current target status2.
Proof.
  apply (plan_independent_of_walk_order "m" (sampleWalk "m") (reverse (sampleWalk "m"))
           sampleUnits).
  - symmetry. apply reverse_Permutation.
  - vm_compute. reflexivity.
Defined.

Lemma GetMostRecentDBVersion_is_discovered_witness :
  CollectMigrations "m" (fst <$> sampleCalls "m") = Return (sampleUnits, None)
  /\ GetMostRecentDBVersion (sampleCalls "m") = (3, None)
  /\ (exists m, (m ∈ sampleUnits) /\ Version m = 3)
  /\ forall m, m ∈ sampleUnits -> Version m <= 3.
Proof.
  split; [vm_compute; reflexivity |]. split; [vm_compute; reflexivity |].
  destruct (GetMostRecentDBVersion_is_discovered "m" (sampleCalls "m") sampleUnits 3
              ltac:(vm_compute; reflexivity) ltac:(vm_compute; reflexivity))
    as (Hunit & Hlargest & _).
  split; [exact Hunit |].
  apply Hlargest.
  - by_evaluation.
  - apply (proj1 (Forall_forall
                    (fun entry => isDir entry = true -> unitOf entry = None)
                    (fst <$> sampleCalls "m"))).
    by_evaluation.
Defined.

Lemma RunMigrationsOnDb_bootstraps_before_discovery_witness :
  RunMigrationsOnDb sampleServer duplicateWalk sampleToolchain
    (runSQLMigrationSpec sampleServer sampleScript) sampleConf "m" 3 []
  = (Fatalf duplicateVersionFormat
       [VInt 1; VString "m/01_b.go"; VString "m/m/1_a.sql"],
     [(createVersionTableSql specDialect, []);
      (insertVersionSql specDialect, [VInt 0; VBool true])]).
Proof.
  apply (proj1 (RunMigrationsOnDb_bootstraps_before_discovery sampleServer duplicateWalk
                  sampleToolchain (runSQLMigrationSpec sampleServer sampleScript)
                  sampleConf "m" 3 []
                  [(createVersionTableSql specDialect, []);
                   (insertVersionSql specDialect, [VInt 0; VBool true])]
                  duplicateVersionFormat
                  [VInt 1; VString "m/01_b.go"; VString "m/m/1_a.sql"]
                  ltac:(vm_compute; reflexivity) ltac:(vm_compute; reflexivity)
                  ltac:(vm_compute; reflexivity))).
Defined.

Lemma RunMigrationsOnDb_nothing_to_do_witness :
  RunMigrationsOnDb sampleServer sampleWalk sampleToolchain
    (runSQLMigrationSpec sampleServer sampleScript) sampleConf "m" 1 sampleLedger
  = (Return None, sampleLedger).
Proof.
  apply (RunMigrationsOnDb_nothing_to_do sampleServer sampleWalk sampleToolchain
           (runSQLMigrationSpec sampleServer sampleScript) sampleConf "m" 1 1
           sampleLedger sampleLedger sampleUnits sampleStatus).
  - vm_compute. reflexivity.
  - vm_compute. reflexivity.
  - vm_compute. reflexivity.
  - left. split; [lia |].
    apply (proj1 (Forall_forall
                    (fun m => Version m <= 1 -> IsApplied m = true) sampleStatus)).
    by_evaluation.
Defined.

Lemma upRun_goes_down_past_the_newest_file_witness :
  GetMostRecentDBVersion (sampleCalls "m") = (3, None)
  /\ EnsureDBVersion sampleServer sampleConf aheadLedger = (Return (5, None), aheadLedger)
  /\ planMigrations 5 3 aheadStatus
     = (DirectionDown, [mkMigration 3 true 6 "m/3_two.sql"])
  /\ upRun sampleParseQuery sampleSet sampleEncode sampleOpen sampleServer sampleCalls
       sampleToolchain (runSQLMigrationSpec sampleServer sampleScript) sampleConf
       aheadLedger
     = (Return tt,
        aheadLedger ++ [("DELETE FROM test", []);
                        (insertVersionSql specDialect, [VInt 3; VBool false])]).
Proof.
  assert (planMigrations 5 3 aheadStatus
          = (DirectionDown, [mkMigration 3 true 6 "m/3_two.sql"])) as Hcomputed
    by (vm_compute; reflexivity).
  split; [vm_compute; reflexivity |]. split; [vm_compute; reflexivity |].
  split; [exact Hcomputed |].
  destruct (upRun_goes_down_past_the_newest_file sampleParseQuery sampleSet sampleEncode
              sampleOpen sampleServer sampleCalls sampleToolchain
              (runSQLMigrationSpec sampleServer sampleScript) sampleConf sampleConf
              aheadLedger aheadLedger 3 5 sampleUnits aheadStatus
              ltac:(vm_compute; reflexivity) ltac:(vm_compute; reflexivity)
              ltac:(vm_compute; reflexivity) ltac:(vm_compute; reflexivity)
              ltac:(vm_compute; reflexivity) ltac:(lia))
    as (ms & Hplan & _ & _ & Hrun).
  rewrite Hcomputed in Hplan. injection Hplan as <-.
  rewrite Hrun. vm_compute. reflexivity.
Defined.

Lemma GetDBVersion_bootstraps_witness :
  GetDBVersion sampleParseQuery sampleSet sampleEncode sampleOpen sampleServer
    sampleConf []
  = (Return (sampleConf, (0, None)),
     [(createVersionTableSql specDialect, []);
      (insertVersionSql specDialect, [VInt 0; VBool true])])
  /\ exists err,
       GetDBVersion sampleParseQuery sampleSet sampleEncode sampleOpen readOnlyServer
         sampleConf []
       = (Return (sampleConf, (-1, Some err)), []).
Proof.
  split.
  - destruct (proj2 (GetDBVersion_bootstraps sampleParseQuery sampleSet sampleEncode
                       sampleOpen sampleServer sampleConf []) sampleConf
                ltac:(vm_compute; reflexivity) ltac:(vm_compute; reflexivity))
      as [[_ Hok] | (err & Hcreate & _)].
    + exact Hok.
    + vm_compute in Hcreate. discriminate Hcreate.
  - destruct (proj2 (GetDBVersion_bootstraps sampleParseQuery sampleSet sampleEncode
                       sampleOpen readOnlyServer sampleConf []) sampleConf
                ltac:(vm_compute; reflexivity) ltac:(vm_compute; reflexivity))
      as [[Hcreate _] | (err & _ & Hfail)].
    + vm_compute in Hcreate. discriminate Hcreate.
    + exists err. exact Hfail.
Defined.

Lemma OpenDBFromDBConf_rewrites_only_the_query_witness :
  OpenDBFromDBConf sampleParseQuery sampleSet sampleEncode sampleOpen mysqlConf
  = (setOpenStr mysqlConf "user@/db?charset=utf8&parseTime=true", None).
Proof.
  apply (proj2 (OpenDBFromDBConf_rewrites_only_the_query sampleParseQuery sampleSet
                  sampleEncode sampleOpen mysqlConf)
           eq_refl (list_ascii_of_string "user@/db")
           (Some (list_ascii_of_string "charset=utf8"))).
  vm_compute. reflexivity.
Defined.

Lemma NumericComponent_goes_by_the_base_name_witness :
  NumericComponent "other/dir/3_two.sql" = NumericComponent "m/3_two.sql".
Proof.
  apply (proj2 (NumericComponent_goes_by_the_base_name "m/3_two.sql")).
  vm_compute. reflexivity.
Defined.

Lemma NumericComponent_fits_int64_witness :
  1 <= fst (NumericComponent "m/3_two.sql").
Proof.
  apply (proj1 (proj2 (NumericComponent_fits_int64 "m/3_two.sql"))).
  vm_compute. reflexivity.
Defined.

Lemma CreateMigration_is_discovered_witness :
  CreateMigration sampleFormat sampleWrite "add_users" "sql" "db/migrations" 20060102150405
  = sampleWrite "db/migrations/20060102150405_add_users.sql" sqlMigrationTemplate
      "20060102150405"
  /\ NumericComponent "db/migrations/20060102150405_add_users.sql"
     = (20060102150405, None).
Proof.
  destruct (proj2 (CreateMigration_is_discovered sampleFormat sampleWrite "add_users"
                     "sql" "db/migrations" 20060102150405)
              (or_intror eq_refl) 20060102150405
              ltac:(by_evaluation) ltac:(vm_compute; reflexivity) ltac:(lia))
    as (Hcreate & _ & Hnum & _).
  split; [exact Hcreate | exact Hnum].
Defined.

Lemma migrationSorter_meets_sort_Interface_witness :
  exists ms',
    migrationSorter_Swap sampleUnits 0 2 = Return ms'
    /\ ms' ≡ₚ sampleUnits
    /\ migrationSorter_Swap ms' 0 2 = Return sampleUnits.
Proof.
  destruct (proj1 (migrationSorter_meets_sort_Interface sampleUnits 0 2)
              ltac:(vm_compute; split; [discriminate | reflexivity])
              ltac:(vm_compute; split; [discriminate | reflexivity]))
    as (ms' & Hswap & Hperm & _ & _ & _ & _ & Hback).
  exists ms'. split; [exact Hswap |]. split; [exact Hperm | exact Hback].
Defined.
